(** * The physical-memory manager of my-console-os (src/oscode2.h)

    A shallow embedding of the block allocator, the defragmenter, the
    per-process memory contexts and the page-frame allocator, followed by
    the properties of the specification that concern them.

    Conventions of the embedding.
    - [uint32_t] values are integers of [Z]; every C addition, subtraction
      and multiplication is written with its wrap-around modulo 2^32
      ([add32], [sub32], [mul32]) and [~x] is [not32 x].
    - A [memory_block_t*] is the 32-bit address the header lives at, [0]
      being [nullptr].  The headers are kept in a store [blocks] from header
      locations to header contents, one cell for each location.  In the
      machine the headers are bytes of the managed memory itself, so the
      store is exact as long as the headers in use lie at least
      [sizeof(memory_block_t)] bytes apart and no payload is copied over
      them.  Two headers closer than that share bytes, and the [memmove]
      of [memory_defragment] copies payload over the headers of the zone:
      in the store the pass yields [None] when it has to move a block
      that is not empty.  The module [Bytes] embeds the allocator over
      the bytes themselves, [memmove] and overlapping headers included;
      the properties of a split and of a defragmentation pass are stated
      there, and the two embeddings of an allocation are proved to agree
      on headers that share no byte ([headers_apart]).
    - The array behind [page_frames] is the function [page_frames] from
      indices to entries; the array [processes] is a function of the index.
    - [sizeof(memory_block_t)] depends on the ABI and is the parameter
      [hdr] of the operations that use it (28 on an ILP32 target).
    - A [while] loop over a linked list takes a [fuel] bound and yields
      [None] when the bound is exhausted before the list ends.

    The file store and the pure part of the game layer of the same source
    file follow in the modules [FileSystem] and [GameSystem], with their
    own conventions. *)

From Stdlib Require Import ZArith List Lia Bool.
From Stdlib Require String Ascii.
Import String.StringSyntax Ascii.AsciiSyntax.
Import ListNotations.
Local Open Scope Z_scope.
Delimit Scope string_scope with string.
Delimit Scope char_scope with char.

(** ** Machine integers *)

Definition UINT32_MAX : Z := 4294967295.

Definition wrap (x : Z) : Z := x mod 2 ^ 32.
Definition add32 (a b : Z) : Z := wrap (a + b).
Definition sub32 (a b : Z) : Z := wrap (a - b).
Definition mul32 (a b : Z) : Z := wrap (a * b).
Definition not32 (a : Z) : Z := wrap (Z.lnot a).

(** A 32-bit value. *)
Definition word (v : Z) : Prop := 0 <= v < 2 ^ 32.

(** ** Constants *)

Definition PAGE_SIZE : Z := 4096.
Definition MAX_PROCESSES : Z := 64.
Definition STACK_SIZE : Z := 1024 * 1024.
Definition KERNEL_HEAP_SIZE : Z := 8 * 1024 * 1024.

(** ** Data model *)

Inductive memory_type_t : Set :=
| MEM_TYPE_FREE
| MEM_TYPE_KERNEL
| MEM_TYPE_USER
| MEM_TYPE_GAME
| MEM_TYPE_GRAPHICS
| MEM_TYPE_AUDIO
| MEM_TYPE_RESERVED.

Record memory_block_t : Set := mk_block {
  address : Z;
  size : Z;
  type : memory_type_t;
  process_id : Z;
  is_free : bool;
  next : Z;
  prev : Z
}.

(** [process_id] of [process_memory_t] is [pm_process_id] here, the name
    being taken by the block's field. *)
Record process_memory_t : Set := mk_process {
  pm_process_id : Z;
  page_directory : Z;
  heap_start : Z;
  heap_end : Z;
  stack_start : Z;
  stack_end : Z;
  code_start : Z;
  code_end : Z;
  total_allocated : Z;
  is_active : bool
}.

Definition store : Type := Z -> memory_block_t.

Record memory_manager_t : Type := mk_mm {
  total_memory : Z;
  available_memory : Z;
  kernel_memory_start : Z;
  kernel_memory_end : Z;
  user_memory_start : Z;
  user_memory_end : Z;
  free_blocks : Z;
  allocated_blocks : Z;
  processes : Z -> process_memory_t;
  current_process : Z;
  page_frames : Z -> Z;
  total_pages : Z;
  free_pages : Z;
  kernel_heap : Z;
  user_heap : Z;
  allocations : Z;
  deallocations : Z;
  fragmentation_count : Z;
  blocks : store
}.

(** *** Field assignments on a block header *)

Definition set_address (b : memory_block_t) (v : Z) : memory_block_t :=
  mk_block v (size b) (type b) (process_id b) (is_free b) (next b) (prev b).
Definition set_size (b : memory_block_t) (v : Z) : memory_block_t :=
  mk_block (address b) v (type b) (process_id b) (is_free b) (next b) (prev b).
Definition set_type (b : memory_block_t) (v : memory_type_t) : memory_block_t :=
  mk_block (address b) (size b) v (process_id b) (is_free b) (next b) (prev b).
Definition set_process_id (b : memory_block_t) (v : Z) : memory_block_t :=
  mk_block (address b) (size b) (type b) v (is_free b) (next b) (prev b).
Definition set_is_free (b : memory_block_t) (v : bool) : memory_block_t :=
  mk_block (address b) (size b) (type b) (process_id b) v (next b) (prev b).
Definition set_next (b : memory_block_t) (v : Z) : memory_block_t :=
  mk_block (address b) (size b) (type b) (process_id b) (is_free b) v (prev b).
Definition set_prev (b : memory_block_t) (v : Z) : memory_block_t :=
  mk_block (address b) (size b) (type b) (process_id b) (is_free b) (next b) v.

(** *** Writes through a block pointer: [p->field = v] *)

Definition upd (h : store) (p : Z) (b : memory_block_t) : store :=
  fun q => if q =? p then b else h q.

Definition st_address (h : store) (p v : Z) : store := upd h p (set_address (h p) v).
Definition st_size (h : store) (p v : Z) : store := upd h p (set_size (h p) v).
Definition st_type (h : store) (p : Z) (v : memory_type_t) : store :=
  upd h p (set_type (h p) v).
Definition st_process_id (h : store) (p v : Z) : store :=
  upd h p (set_process_id (h p) v).
Definition st_is_free (h : store) (p : Z) (v : bool) : store :=
  upd h p (set_is_free (h p) v).
Definition st_next (h : store) (p v : Z) : store := upd h p (set_next (h p) v).
Definition st_prev (h : store) (p v : Z) : store := upd h p (set_prev (h p) v).

(** *** Field assignments on the manager: [mm->field = v] *)

Definition with_available_memory (s : memory_manager_t) (v : Z) :=
  mk_mm (total_memory s) v (kernel_memory_start s) (kernel_memory_end s)
    (user_memory_start s) (user_memory_end s) (free_blocks s) (allocated_blocks s)
    (processes s) (current_process s) (page_frames s) (total_pages s) (free_pages s)
    (kernel_heap s) (user_heap s) (allocations s) (deallocations s)
    (fragmentation_count s) (blocks s).
Definition with_free_blocks (s : memory_manager_t) (v : Z) :=
  mk_mm (total_memory s) (available_memory s) (kernel_memory_start s)
    (kernel_memory_end s) (user_memory_start s) (user_memory_end s) v
    (allocated_blocks s) (processes s) (current_process s) (page_frames s)
    (total_pages s) (free_pages s) (kernel_heap s) (user_heap s) (allocations s)
    (deallocations s) (fragmentation_count s) (blocks s).
Definition with_allocated_blocks (s : memory_manager_t) (v : Z) :=
  mk_mm (total_memory s) (available_memory s) (kernel_memory_start s)
    (kernel_memory_end s) (user_memory_start s) (user_memory_end s) (free_blocks s)
    v (processes s) (current_process s) (page_frames s) (total_pages s)
    (free_pages s) (kernel_heap s) (user_heap s) (allocations s) (deallocations s)
    (fragmentation_count s) (blocks s).
Definition with_processes (s : memory_manager_t) (v : Z -> process_memory_t) :=
  mk_mm (total_memory s) (available_memory s) (kernel_memory_start s)
    (kernel_memory_end s) (user_memory_start s) (user_memory_end s) (free_blocks s)
    (allocated_blocks s) v (current_process s) (page_frames s) (total_pages s)
    (free_pages s) (kernel_heap s) (user_heap s) (allocations s) (deallocations s)
    (fragmentation_count s) (blocks s).
Definition with_current_process (s : memory_manager_t) (v : Z) :=
  mk_mm (total_memory s) (available_memory s) (kernel_memory_start s)
    (kernel_memory_end s) (user_memory_start s) (user_memory_end s) (free_blocks s)
    (allocated_blocks s) (processes s) v (page_frames s) (total_pages s)
    (free_pages s) (kernel_heap s) (user_heap s) (allocations s) (deallocations s)
    (fragmentation_count s) (blocks s).
Definition with_page_frames (s : memory_manager_t) (v : Z -> Z) :=
  mk_mm (total_memory s) (available_memory s) (kernel_memory_start s)
    (kernel_memory_end s) (user_memory_start s) (user_memory_end s) (free_blocks s)
    (allocated_blocks s) (processes s) (current_process s) v (total_pages s)
    (free_pages s) (kernel_heap s) (user_heap s) (allocations s) (deallocations s)
    (fragmentation_count s) (blocks s).
Definition with_free_pages (s : memory_manager_t) (v : Z) :=
  mk_mm (total_memory s) (available_memory s) (kernel_memory_start s)
    (kernel_memory_end s) (user_memory_start s) (user_memory_end s) (free_blocks s)
    (allocated_blocks s) (processes s) (current_process s) (page_frames s)
    (total_pages s) v (kernel_heap s) (user_heap s) (allocations s)
    (deallocations s) (fragmentation_count s) (blocks s).
Definition with_allocations (s : memory_manager_t) (v : Z) :=
  mk_mm (total_memory s) (available_memory s) (kernel_memory_start s)
    (kernel_memory_end s) (user_memory_start s) (user_memory_end s) (free_blocks s)
    (allocated_blocks s) (processes s) (current_process s) (page_frames s)
    (total_pages s) (free_pages s) (kernel_heap s) (user_heap s) v
    (deallocations s) (fragmentation_count s) (blocks s).
Definition with_deallocations (s : memory_manager_t) (v : Z) :=
  mk_mm (total_memory s) (available_memory s) (kernel_memory_start s)
    (kernel_memory_end s) (user_memory_start s) (user_memory_end s) (free_blocks s)
    (allocated_blocks s) (processes s) (current_process s) (page_frames s)
    (total_pages s) (free_pages s) (kernel_heap s) (user_heap s) (allocations s)
    v (fragmentation_count s) (blocks s).
Definition with_fragmentation_count (s : memory_manager_t) (v : Z) :=
  mk_mm (total_memory s) (available_memory s) (kernel_memory_start s)
    (kernel_memory_end s) (user_memory_start s) (user_memory_end s) (free_blocks s)
    (allocated_blocks s) (processes s) (current_process s) (page_frames s)
    (total_pages s) (free_pages s) (kernel_heap s) (user_heap s) (allocations s)
    (deallocations s) v (blocks s).
Definition with_blocks (s : memory_manager_t) (v : store) :=
  mk_mm (total_memory s) (available_memory s) (kernel_memory_start s)
    (kernel_memory_end s) (user_memory_start s) (user_memory_end s) (free_blocks s)
    (allocated_blocks s) (processes s) (current_process s) (page_frames s)
    (total_pages s) (free_pages s) (kernel_heap s) (user_heap s) (allocations s)
    (deallocations s) (fragmentation_count s) v.

Definition zero_process : process_memory_t :=
  mk_process 0 0 0 0 0 0 0 0 0 false.

Definition upd_process (ps : Z -> process_memory_t) (i : Z) (p : process_memory_t)
  : Z -> process_memory_t :=
  fun j => if j =? i then p else ps j.

Definition set_code_start (p : process_memory_t) (v : Z) :=
  mk_process (pm_process_id p) (page_directory p) (heap_start p) (heap_end p)
    (stack_start p) (stack_end p) v (code_end p) (total_allocated p) (is_active p).
Definition set_code_end (p : process_memory_t) (v : Z) :=
  mk_process (pm_process_id p) (page_directory p) (heap_start p) (heap_end p)
    (stack_start p) (stack_end p) (code_start p) v (total_allocated p) (is_active p).
Definition set_stack_start (p : process_memory_t) (v : Z) :=
  mk_process (pm_process_id p) (page_directory p) (heap_start p) (heap_end p)
    v (stack_end p) (code_start p) (code_end p) (total_allocated p) (is_active p).
Definition set_stack_end (p : process_memory_t) (v : Z) :=
  mk_process (pm_process_id p) (page_directory p) (heap_start p) (heap_end p)
    (stack_start p) v (code_start p) (code_end p) (total_allocated p) (is_active p).
Definition set_heap_start (p : process_memory_t) (v : Z) :=
  mk_process (pm_process_id p) (page_directory p) v (heap_end p)
    (stack_start p) (stack_end p) (code_start p) (code_end p) (total_allocated p)
    (is_active p).
Definition set_heap_end (p : process_memory_t) (v : Z) :=
  mk_process (pm_process_id p) (page_directory p) (heap_start p) v
    (stack_start p) (stack_end p) (code_start p) (code_end p) (total_allocated p)
    (is_active p).
Definition set_pm_process_id (p : process_memory_t) (v : Z) :=
  mk_process v (page_directory p) (heap_start p) (heap_end p)
    (stack_start p) (stack_end p) (code_start p) (code_end p) (total_allocated p)
    (is_active p).
Definition set_total_allocated (p : process_memory_t) (v : Z) :=
  mk_process (pm_process_id p) (page_directory p) (heap_start p) (heap_end p)
    (stack_start p) (stack_end p) (code_start p) (code_end p) v (is_active p).
Definition set_is_active (p : process_memory_t) (v : bool) :=
  mk_process (pm_process_id p) (page_directory p) (heap_start p) (heap_end p)
    (stack_start p) (stack_end p) (code_start p) (code_end p) (total_allocated p) v.

(** ** The block allocator *)

(** [memory_init]: [memset] clears the manager, the zones are laid out, the
    page entries [0 .. total_pages-1] are cleared and one free block, whose
    header sits at [user_memory_start], is installed.  The headers and page
    entries found in memory before the call come from [s]. *)
Definition memory_init (hdr : Z) (s : memory_manager_t) (total kernel_start : Z)
  : memory_manager_t * Z :=
  let kernel_end := add32 kernel_start KERNEL_HEAP_SIZE in
  let user_start := kernel_end in
  let user_end := total in
  let pages := total / PAGE_SIZE in
  let frames := fun i => if (0 <=? i) && (i <? pages) then 0 else page_frames s i in
  let initial_block := user_start in
  let h := st_address (blocks s) initial_block (add32 user_start hdr) in
  let h := st_size h initial_block (sub32 user_end (address (h initial_block))) in
  let h := st_type h initial_block MEM_TYPE_FREE in
  let h := st_process_id h initial_block 0 in
  let h := st_is_free h initial_block true in
  let h := st_next h initial_block 0 in
  let h := st_prev h initial_block 0 in
  (mk_mm total total kernel_start kernel_end user_start user_end
     initial_block 0 (fun _ => zero_process) 0 frames pages pages 0 0 0 0 0 h,
   0).

(** [(addr + alignment - 1) & ~(alignment - 1)] *)
Definition aligned_address (addr alignment : Z) : Z :=
  Z.land (sub32 (add32 addr alignment) 1) (not32 (sub32 alignment 1)).

Definition padding_of (addr alignment : Z) : Z :=
  sub32 (aligned_address addr alignment) addr.

(** The test of [find_free_block] on one block. *)
Definition fits (b : memory_block_t) (nbytes alignment : Z) : bool :=
  is_free b && (nbytes <=? size b)
  && (add32 nbytes (padding_of (address b) alignment) <=? size b).

Fixpoint find_free_loop (fuel : nat) (h : store) (nbytes alignment : Z)
    (block best_fit best_size : Z) : option Z :=
  if block =? 0 then Some best_fit
  else match fuel with
       | O => None
       | S fuel' =>
           if fits (h block) nbytes alignment && (size (h block) <? best_size)
           then find_free_loop fuel' h nbytes alignment (next (h block))
                  block (size (h block))
           else find_free_loop fuel' h nbytes alignment (next (h block))
                  best_fit best_size
       end.

Definition find_free_block (fuel : nat) (s : memory_manager_t) (nbytes alignment : Z)
  : option Z :=
  find_free_loop fuel (blocks s) nbytes alignment (free_blocks s) 0 UINT32_MAX.

(** The body of the [if] of [merge_free_blocks]: [block] absorbs
    [next_block]. *)
Definition absorb (h : store) (block next_block : Z) : store :=
  let h := st_size h block (add32 (size (h block)) (size (h next_block))) in
  let h := st_next h block (next (h next_block)) in
  if next (h next_block) =? 0 then h
  else st_prev h (next (h next_block)) block.

(** The test of [merge_free_blocks]. *)
Definition mergeable (h : store) (block next_block : Z) : bool :=
  negb (next_block =? 0) && is_free (h next_block)
  && (add32 (address (h block)) (size (h block)) =? address (h next_block)).

Fixpoint merge_free_loop (fuel : nat) (h : store) (block : Z) : option store :=
  if block =? 0 then Some h
  else match fuel with
       | O => None
       | S fuel' =>
           let next_block := next (h block) in
           let h1 := if mergeable h block next_block
                     then absorb h block next_block else h in
           merge_free_loop fuel' h1 (next (h1 block))
       end.

Definition merge_free_blocks (fuel : nat) (s : memory_manager_t)
  : option memory_manager_t :=
  match merge_free_loop fuel (blocks s) (free_blocks s) with
  | Some h => Some (with_blocks s h)
  | None => None
  end.

(** ** The defragmenter *)

(** The loop of [memory_defragment] on the header store.  A block already
    at [new_address] stays; an empty block is given its new address,
    [memmove] copying no byte.  For a block that is not empty [memmove]
    writes [block->size] bytes from [new_address] on, over whatever
    headers lie there, and what [block->size] and [block->next] then read
    depends on the payload: the store has no answer and the pass yields
    [None].  [Bytes.memory_defragment] is the pass on the bytes. *)
Fixpoint defragment_loop (fuel : nat) (h : store) (block new_address : Z)
  : option (store * Z) :=
  if block =? 0 then Some (h, new_address)
  else match fuel with
       | O => None
       | S fuel' =>
           if is_free (h block)
           then defragment_loop fuel' h (next (h block)) new_address
           else if address (h block) =? new_address
           then defragment_loop fuel' h (next (h block))
                  (add32 new_address (size (h block)))
           else if size (h block) =? 0
           then
             let h1 := st_address h block new_address in
             defragment_loop fuel' h1 (next (h1 block))
               (add32 new_address (size (h1 block)))
           else None
       end.

Definition memory_defragment (fuel : nat) (s : memory_manager_t)
  : option memory_manager_t :=
  match defragment_loop fuel (blocks s) (allocated_blocks s) (user_memory_start s) with
  | None => None
  | Some (h, new_address) =>
      let h := if free_blocks s =? 0 then h
               else
                 let h := st_address h (free_blocks s) new_address in
                 st_size h (free_blocks s) (sub32 (user_memory_end s) new_address) in
      Some (with_fragmentation_count (with_blocks s h)
              (add32 (fragmentation_count s) 1))
  end.

(** ** Moving a block between the two lists *)

(** The removal of [block] from its list, as both [memory_alloc_aligned]
    and [memory_free] write it:
    [if (block->prev) block->prev->next = block->next;
     else mm->head = block->next;
     if (block->next) block->next->prev = block->prev;]
    [unlink] is the effect on the headers, [unlinked_head] the new head. *)
Definition unlink (h : store) (block : Z) : store :=
  let h := if prev (h block) =? 0 then h
           else st_next h (prev (h block)) (next (h block)) in
  if next (h block) =? 0 then h
  else st_prev h (next (h block)) (prev (h block)).

Definition unlinked_head (h : store) (block head : Z) : Z :=
  if prev (h block) =? 0 then next (h block) else head.

(** The insertion of [block] in front of the list at [head]:
    [block->prev = nullptr; block->next = head;
     if (head) head->prev = block;] *)
Definition push_front (h : store) (block head : Z) : store :=
  let h := st_prev h block 0 in
  let h := st_next h block head in
  if head =? 0 then h else st_prev h head block.

(** ** Allocation *)

(** The split of [memory_alloc_aligned].  The sum
    [size + padding + sizeof(memory_block_t)] is taken in 32 bits, [size_t]
    being 32 bits wide where a [uint32_t] can be cast to a pointer.  The
    new header is a cell of its own: when [aligned_addr + size] is less
    than [hdr] bytes away from [block] or from another header in use, the
    two share bytes in the machine and [Bytes.split_block] is the split. *)
Definition split_block (hdr : Z) (h : store) (block nbytes aligned_addr padding : Z)
  : store :=
  if add32 (add32 nbytes padding) hdr <? size (h block) then
    let new_block := add32 aligned_addr nbytes in
    let h := st_address h new_block (add32 aligned_addr nbytes) in
    let h := st_size h new_block (sub32 (sub32 (size (h block)) nbytes) padding) in
    let h := st_type h new_block MEM_TYPE_FREE in
    let h := st_process_id h new_block 0 in
    let h := st_is_free h new_block true in
    let h := st_next h new_block (next (h block)) in
    let h := st_prev h new_block block in
    let h := if next (h block) =? 0 then h
             else st_prev h (next (h block)) new_block in
    let h := st_next h block new_block in
    st_size h block (add32 nbytes padding)
  else h.

(** What [memory_alloc_aligned] does once [block] has been found. *)
Definition allocate_block (hdr : Z) (s : memory_manager_t)
    (block nbytes alignment : Z) (ty : memory_type_t) : memory_manager_t * Z :=
  let h := blocks s in
  let aligned_addr := aligned_address (address (h block)) alignment in
  let padding := sub32 aligned_addr (address (h block)) in
  let h := split_block hdr h block nbytes aligned_addr padding in
  let h := st_type h block ty in
  let h := st_process_id h block (current_process s) in
  let h := st_is_free h block false in
  let h := st_address h block aligned_addr in
  let free_head := unlinked_head h block (free_blocks s) in
  let h := unlink h block in
  let h := push_front h block (allocated_blocks s) in
  (mk_mm (total_memory s) (sub32 (available_memory s) nbytes)
     (kernel_memory_start s) (kernel_memory_end s) (user_memory_start s)
     (user_memory_end s) free_head block (processes s) (current_process s)
     (page_frames s) (total_pages s) (free_pages s) (kernel_heap s) (user_heap s)
     (add32 (allocations s) 1) (deallocations s) (fragmentation_count s) h,
   aligned_addr).

Definition memory_alloc_aligned (hdr : Z) (fuel : nat) (s : memory_manager_t)
    (nbytes alignment : Z) (ty : memory_type_t) : option (memory_manager_t * Z) :=
  if nbytes =? 0 then Some (s, 0)
  else
    match find_free_block fuel s nbytes alignment with
    | None => None
    | Some block =>
        if block =? 0 then
          match memory_defragment fuel s with
          | None => None
          | Some s1 =>
              match find_free_block fuel s1 nbytes alignment with
              | None => None
              | Some block1 =>
                  if block1 =? 0 then Some (s1, 0)
                  else Some (allocate_block hdr s1 block1 nbytes alignment ty)
              end
          end
        else Some (allocate_block hdr s block nbytes alignment ty)
    end.

Definition memory_alloc (hdr : Z) (fuel : nat) (s : memory_manager_t)
    (nbytes : Z) (ty : memory_type_t) : option (memory_manager_t * Z) :=
  memory_alloc_aligned hdr fuel s nbytes 4 ty.

(** ** Release *)

(** The search of [memory_free]: the first block of the allocated list
    whose [address] is [addr], or [0]. *)
Fixpoint find_allocated (fuel : nat) (h : store) (block addr : Z) : option Z :=
  if block =? 0 then Some 0
  else match fuel with
       | O => None
       | S fuel' =>
           if address (h block) =? addr then Some block
           else find_allocated fuel' h (next (h block)) addr
       end.

(** [memory_free] up to the call of [merge_free_blocks]. *)
Definition release_block (s : memory_manager_t) (block : Z) : memory_manager_t :=
  let h := blocks s in
  let alloc_head := unlinked_head h block (allocated_blocks s) in
  let h := unlink h block in
  let h := st_type h block MEM_TYPE_FREE in
  let h := st_process_id h block 0 in
  let h := st_is_free h block true in
  let h := push_front h block (free_blocks s) in
  mk_mm (total_memory s) (add32 (available_memory s) (size (h block)))
    (kernel_memory_start s) (kernel_memory_end s) (user_memory_start s)
    (user_memory_end s) block alloc_head (processes s) (current_process s)
    (page_frames s) (total_pages s) (free_pages s) (kernel_heap s) (user_heap s)
    (allocations s) (add32 (deallocations s) 1) (fragmentation_count s) h.

Definition memory_free (fuel : nat) (s : memory_manager_t) (ptr : Z)
  : option (memory_manager_t * Z) :=
  if ptr =? 0 then Some (s, -1)
  else
    match find_allocated fuel (blocks s) (allocated_blocks s) ptr with
    | None => None
    | Some block =>
        if block =? 0 then Some (s, -1)
        else
          match merge_free_blocks fuel (release_block s block) with
          | None => None
          | Some s' => Some (s', 0)
          end
    end.

(** ** Process memory contexts *)

Definition process_memory_create (hdr : Z) (fuel : nat) (s : memory_manager_t)
    (pid code_size : Z) : option (memory_manager_t * Z) :=
  if MAX_PROCESSES <=? pid then Some (s, -1)
  else
    match memory_alloc hdr fuel s code_size MEM_TYPE_USER with
    | None => None
    | Some (s1, code) =>
        let s1 := with_processes s1
                    (upd_process (processes s1) pid
                       (set_code_start (processes s1 pid) code)) in
        if code =? 0 then Some (s1, -1)
        else
          let s1 := with_processes s1
                      (upd_process (processes s1) pid
                         (set_code_end (processes s1 pid) (add32 code code_size))) in
          match memory_alloc hdr fuel s1 STACK_SIZE MEM_TYPE_USER with
          | None => None
          | Some (s2, stack) =>
              let s2 := with_processes s2
                          (upd_process (processes s2) pid
                             (set_stack_start (processes s2 pid) stack)) in
              if stack =? 0 then
                match memory_free fuel s2 (code_start (processes s2 pid)) with
                | None => None
                | Some (s3, _) => Some (s3, -1)
                end
              else
                let p := processes s2 pid in
                let p := set_stack_end p (add32 (stack_start p) STACK_SIZE) in
                let p := set_heap_start p (code_end p) in
                let p := set_heap_end p (heap_start p) in
                let p := set_pm_process_id p pid in
                let p := set_total_allocated p (add32 code_size STACK_SIZE) in
                let p := set_is_active p true in
                Some (with_processes s2 (upd_process (processes s2) pid p), 0)
          end
    end.

(** The loop of [process_memory_destroy]; [next] is read before the block
    is released. *)
Fixpoint destroy_loop (fuel_free : nat) (fuel : nat) (s : memory_manager_t)
    (block pid : Z) : option memory_manager_t :=
  if block =? 0 then Some s
  else match fuel with
       | O => None
       | S fuel' =>
           let nxt := next (blocks s block) in
           if process_id (blocks s block) =? pid then
             match memory_free fuel_free s (address (blocks s block)) with
             | None => None
             | Some (s1, _) => destroy_loop fuel_free fuel' s1 nxt pid
             end
           else destroy_loop fuel_free fuel' s nxt pid
       end.

Definition process_memory_destroy (fuel : nat) (s : memory_manager_t) (pid : Z)
  : option (memory_manager_t * Z) :=
  if MAX_PROCESSES <=? pid then Some (s, -1)
  else if negb (is_active (processes s pid)) then Some (s, -1)
  else
    match destroy_loop fuel fuel s (allocated_blocks s) pid with
    | None => None
    | Some s1 =>
        Some (with_processes s1 (upd_process (processes s1) pid zero_process), 0)
    end.

Definition process_alloc (hdr : Z) (fuel : nat) (s : memory_manager_t)
    (pid nbytes : Z) : option (memory_manager_t * Z) :=
  if MAX_PROCESSES <=? pid then Some (s, 0)
  else if negb (is_active (processes s pid)) then Some (s, 0)
  else
    let old_process := current_process s in
    match memory_alloc hdr fuel (with_current_process s pid) nbytes MEM_TYPE_USER with
    | None => None
    | Some (s1, ptr) =>
        let s1 := if ptr =? 0 then s1
                  else with_processes s1
                         (upd_process (processes s1) pid
                            (set_total_allocated (processes s1 pid)
                               (add32 (total_allocated (processes s1 pid)) nbytes))) in
        Some (with_current_process s1 old_process, ptr)
    end.

Definition memory_get_stats (s : memory_manager_t) : Z * Z * Z :=
  (total_memory s, available_memory s, fragmentation_count s).

(** ** The page-frame allocator *)

(** The [for] loop of [alloc_page], [n] iterations being left from index [i]. *)
Fixpoint alloc_page_scan (n : nat) (i : Z) (s : memory_manager_t)
  : memory_manager_t * Z :=
  match n with
  | O => (s, 0)
  | S n' =>
      if page_frames s i =? 0 then
        (with_free_pages
           (with_page_frames s (fun j => if j =? i then 1 else page_frames s j))
           (sub32 (free_pages s) 1),
         mul32 i PAGE_SIZE)
      else alloc_page_scan n' (i + 1) s
  end.

Definition alloc_page (s : memory_manager_t) : memory_manager_t * Z :=
  alloc_page_scan (Z.to_nat (total_pages s)) 0 s.

Definition free_page (s : memory_manager_t) (page : Z) : memory_manager_t :=
  let page_index := page / PAGE_SIZE in
  if (page_index <? total_pages s) && (page_frames s page_index =? 1) then
    with_free_pages
      (with_page_frames s (fun j => if j =? page_index then 0 else page_frames s j))
      (add32 (free_pages s) 1)
  else s.

(** ** Linked lists in the store *)

(** [lseg h p l q]: following [next] from [p] visits exactly the headers
    [l], none of them at [nullptr], and then arrives at [q]. *)
Fixpoint lseg (h : store) (p : Z) (l : list Z) (q : Z) : Prop :=
  match l with
  | [] => p = q
  | x :: l' => p = x /\ x <> 0 /\ lseg h (next (h x)) l' q
  end.

(** A null-terminated list. *)
Definition llist (h : store) (p : Z) (l : list Z) : Prop := lseg h p l 0.

(** [dlseg h pv p l q]: as [lseg], and every header's [prev] is the header
    before it, [pv] for the first one. *)
Fixpoint dlseg (h : store) (pv p : Z) (l : list Z) (q : Z) : Prop :=
  match l with
  | [] => p = q
  | x :: l' => p = x /\ x <> 0 /\ prev (h x) = pv /\ dlseg h x (next (h x)) l' q
  end.

Definition dllist (h : store) (p : Z) (l : list Z) : Prop := dlseg h 0 p l 0.

(** The sum of the [size] fields of the headers [l], as an integer. *)
Definition sum_sizes (h : store) (l : list Z) : Z :=
  fold_right (fun x acc => size (h x) + acc) 0 l.

(** An initial memory, for examples: every header and page entry is zero. *)
Definition zero_block : memory_block_t := mk_block 0 0 MEM_TYPE_FREE 0 false 0 0.

Definition blank : memory_manager_t :=
  mk_mm 0 0 0 0 0 0 0 0 (fun _ => zero_process) 0 (fun _ => 0) 0 0 0 0 0 0 0
    (fun _ => zero_block).

(** ** Predicates of the properties *)

(** A block that can satisfy the request: it is free and its size is at
    least the requested size plus the padding that aligns its address. *)
Definition candidate (h : store) (nbytes alignment x : Z) : Prop :=
  is_free (h x) = true
  /\ nbytes + padding_of (address (h x)) alignment <= size (h x).

(** A candidate the search can return: its size is below the initial
    value [UINT32_MAX] of [best_size]. *)
Definition eligible (h : store) (nbytes alignment x : Z) : Prop :=
  candidate h nbytes alignment x /\ size (h x) < UINT32_MAX.

(** The range of [x] ends where [y] begins. *)
Definition adjoining (h : store) (x y : Z) : Prop :=
  add32 (address (h x)) (size (h x)) = address (h y).

(** The two lists of a manager: a doubly-linked allocated list [la], a
    null-terminated free list [lf], no header in both. *)
Definition well_formed (s : memory_manager_t) (la lf : list Z) : Prop :=
  dllist (blocks s) (allocated_blocks s) la
  /\ llist (blocks s) (free_blocks s) lf
  /\ (forall x, In x la -> ~ In x lf).

(** [b] is the block the allocation of [nbytes] in [s] takes, found in the
    state [s1]: [s] itself when the first search succeeds, the
    defragmented state when the search succeeds at the second attempt. *)
Definition winning_block (fuel : nat) (s : memory_manager_t)
    (nbytes alignment : Z) (s1 : memory_manager_t) (b : Z) : Prop :=
  b <> 0
  /\ ((s1 = s /\ find_free_block fuel s nbytes alignment = Some b)
      \/ (find_free_block fuel s nbytes alignment = Some 0
          /\ memory_defragment fuel s = Some s1
          /\ find_free_block fuel s1 nbytes alignment = Some b)).

(** ** Example states *)

(** The state a call leaves, for runs whose calls all end. *)
Definition state_of {A : Type} (o : option (memory_manager_t * A))
  : memory_manager_t :=
  match o with
  | Some (s, _) => s
  | None => blank
  end.

(** A 64 MB machine with the kernel zone at 0 and 28-byte headers. *)
Definition boot : memory_manager_t := fst (memory_init 28 blank 67108864 0).

(** Four allocations of 72, 100, 100 and 100 bytes. *)
Definition four_blocks : memory_manager_t :=
  let s := state_of (memory_alloc 28 8 boot 72 MEM_TYPE_USER) in
  let s := state_of (memory_alloc 28 8 s 100 MEM_TYPE_USER) in
  let s := state_of (memory_alloc 28 8 s 100 MEM_TYPE_USER) in
  state_of (memory_alloc 28 8 s 100 MEM_TYPE_USER).

(** The third, first and second block are released in that order. *)
Definition scattered : memory_manager_t :=
  let s := state_of (memory_free 8 four_blocks 8388808) in
  let s := state_of (memory_free 8 s 8388636) in
  state_of (memory_free 8 s 8388708).

(** The 72-byte block is allocated again: the second and third block are
    now neighbours in the free list. *)
Definition neighbours : memory_manager_t :=
  state_of (memory_alloc 28 8 scattered 72 MEM_TYPE_USER).

(** A machine whose memory ends 27 bytes into the user zone: the size of
    the initial block wraps around to [UINT32_MAX]. *)
Definition tiny : memory_manager_t := fst (memory_init 28 blank 8388635 0).

(** An allocation of 100 bytes aligned on 4096, then released. *)
Definition padded : memory_manager_t :=
  state_of (memory_alloc_aligned 28 8 boot 100 4096 MEM_TYPE_USER).

Definition padded_released : memory_manager_t :=
  state_of (memory_free 8 padded 8392704).

(** Process 1 is created with 16 bytes of code. *)
Definition with_process : memory_manager_t :=
  state_of (process_memory_create 28 8 boot 1 16).

(** It allocates 30 and then 32 bytes. *)
Definition process_heap : memory_manager_t :=
  let s := state_of (process_alloc 28 8 with_process 1 30) in
  state_of (process_alloc 28 8 s 1 32).

(** A machine of two pages. *)
Definition two_pages : memory_manager_t := fst (memory_init 28 blank 8192 0).

(** Three free blocks of sizes 100, 50 and 30 at aligned addresses. *)
Definition three_free : memory_manager_t :=
  with_free_blocks
    (with_blocks blank
       (fun q =>
          if q =? 1000 then mk_block 1000 100 MEM_TYPE_FREE 0 true 2000 0
          else if q =? 2000 then mk_block 2000 50 MEM_TYPE_FREE 0 true 3000 1000
          else if q =? 3000 then mk_block 3000 30 MEM_TYPE_FREE 0 true 0 2000
          else zero_block))
    1000.

(** ** Predicates of the further properties *)

(** The headers at [p] and [q] share no byte: they are the same header, or
    at least [hdr] bytes apart; a null pointer is the location of no
    header. *)
Definition apart (hdr p q : Z) : Prop :=
  p = 0 \/ q = 0 \/ p = q \/ p + hdr <= q \/ q + hdr <= p.

(** The headers of [l] share no byte with one another. *)
Fixpoint headers_apart (hdr : Z) (l : list Z) : Prop :=
  match l with
  | [] => True
  | p :: l' => (forall q, In q l' -> apart hdr p q) /\ headers_apart hdr l'
  end.

(** The headers an allocation from [b] writes besides [b] itself: the new
    header of the split when there is one, the list neighbours of [b] and
    the head of the allocated list. *)
Definition written_headers (hdr : Z) (s : memory_manager_t)
    (b nbytes alignment : Z) : list Z :=
  let al := aligned_address (address (blocks s b)) alignment in
  let pad := sub32 al (address (blocks s b)) in
  (if add32 (add32 nbytes pad) hdr <? size (blocks s b)
   then [add32 al nbytes] else [])
  ++ [next (blocks s b); prev (blocks s b); allocated_blocks s].




(** The number of free entries among the page entries [i .. i+n-1]. *)
Fixpoint count_free (pf : Z -> Z) (i : Z) (n : nat) : Z :=
  match n with
  | O => 0
  | S n' => (if pf i =? 0 then 1 else 0) + count_free pf (i + 1) n'
  end.

(** [free_pages] is the number of free entries of the page table. *)
Definition pages_consistent (s : memory_manager_t) : Prop :=
  0 <= total_pages s <= 2 ^ 20
  /\ free_pages s = count_free (page_frames s) 0 (Z.to_nat (total_pages s)).

(** The calls of the page-frame allocator, for runs of them. *)
Inductive page_op : Set :=
  | AllocPage
  | FreePage (page : Z).

Definition run_page_op (s : memory_manager_t) (op : page_op) : memory_manager_t :=
  match op with
  | AllocPage => fst (alloc_page s)
  | FreePage page => free_page s page
  end.

(** The argument of [free_page] is a [uint32_t]. *)
Definition page_op_in_range (op : page_op) : Prop :=
  match op with
  | AllocPage => True
  | FreePage page => 0 <= page < 2 ^ 32
  end.

(** * The block allocator on the bytes of the machine *)

(** The header store of the first part keeps every header in a cell of its
    own.  In the machine the headers are bytes of the managed memory
    itself: [memmove] in [memory_defragment] copies payload bytes over
    them, and two headers less than [sizeof(memory_block_t)] apart share
    bytes.  The module [Bytes] embeds the same functions over a
    byte-addressed memory, for the ABI the pointer casts of the source
    assume: 32-bit pointers, little-endian, [memory_block_t] of 28 bytes
    with [address] at offset 0, [size] at 4, [type] at 8, [process_id] at
    12, [is_free] (one byte) at 16, [next] at 20 and [prev] at 24, and
    [sizeof(memory_manager_t)] = 2628.

    Conventions.
    - The memory is a function from addresses to bytes; [load32] and
      [store32] read and write a 32-bit word, [load8] and [store8] one
      byte.
    - The manager [*mm] itself lies outside the memory it manages: its
      fields are the fields of the record, [mem] is the memory.
      [page_frames] is the pointer of the source; the page entries are
      words of [mem].
    - A [bool] is read as true when its byte is not zero.
    - Loops over linked lists take [fuel] as in the first part. *)
Module Bytes.

Definition HEADER_SIZE : Z := 28.
Definition MANAGER_SIZE : Z := 2628.

Definition memory : Type := Z -> Z.

(** The byte at [a]: of the value the memory holds there, the low eight
    bits. *)
Definition load8 (m : memory) (a : Z) : Z := m a mod 2 ^ 8.

Definition load32 (m : memory) (a : Z) : Z :=
  load8 m a + 2 ^ 8 * load8 m (a + 1) + 2 ^ 16 * load8 m (a + 2)
  + 2 ^ 24 * load8 m (a + 3).

Definition store8 (m : memory) (a v : Z) : memory :=
  fun x => if x =? a then v mod 2 ^ 8 else m x.

Definition store32 (m : memory) (a v : Z) : memory :=
  fun x => if (a <=? x) && (x <? a + 4)
           then (v / 2 ^ (8 * (x - a))) mod 2 ^ 8
           else m x.

(** [memmove(dst, src, n)]: the [n] bytes at [src], as they are before the
    call, arrive at [dst]. *)
Definition memmove (m : memory) (dst src n : Z) : memory :=
  fun x => if (dst <=? x) && (x <? dst + n) then m (src + (x - dst)) else m x.

Record memory_manager_t : Type := mk_mm {
  total_memory : Z;
  available_memory : Z;
  kernel_memory_start : Z;
  kernel_memory_end : Z;
  user_memory_start : Z;
  user_memory_end : Z;
  free_blocks : Z;
  allocated_blocks : Z;
  processes : Z -> process_memory_t;
  current_process : Z;
  page_frames : Z;
  total_pages : Z;
  free_pages : Z;
  kernel_heap : Z;
  user_heap : Z;
  allocations : Z;
  deallocations : Z;
  fragmentation_count : Z;
  mem : memory
}.

(** *** The fields of the header at [p] *)

Definition address (m : memory) (p : Z) : Z := load32 m p.
Definition size (m : memory) (p : Z) : Z := load32 m (p + 4).
Definition type (m : memory) (p : Z) : Z := load32 m (p + 8).
Definition process_id (m : memory) (p : Z) : Z := load32 m (p + 12).
Definition is_free (m : memory) (p : Z) : bool := negb (load8 m (p + 16) =? 0).
Definition next (m : memory) (p : Z) : Z := load32 m (p + 20).
Definition prev (m : memory) (p : Z) : Z := load32 m (p + 24).

(** The value of an enumerator of [memory_type_t]. *)
Definition type_code (t : memory_type_t) : Z :=
  match t with
  | MEM_TYPE_FREE => 0
  | MEM_TYPE_KERNEL => 1
  | MEM_TYPE_USER => 2
  | MEM_TYPE_GAME => 3
  | MEM_TYPE_GRAPHICS => 4
  | MEM_TYPE_AUDIO => 5
  | MEM_TYPE_RESERVED => 6
  end.

Definition st_address (m : memory) (p v : Z) : memory := store32 m p v.
Definition st_size (m : memory) (p v : Z) : memory := store32 m (p + 4) v.
Definition st_type (m : memory) (p : Z) (v : memory_type_t) : memory :=
  store32 m (p + 8) (type_code v).
Definition st_process_id (m : memory) (p v : Z) : memory := store32 m (p + 12) v.
Definition st_is_free (m : memory) (p : Z) (v : bool) : memory :=
  store8 m (p + 16) (if v then 1 else 0).
Definition st_next (m : memory) (p v : Z) : memory := store32 m (p + 20) v.
Definition st_prev (m : memory) (p v : Z) : memory := store32 m (p + 24) v.

(** *** [memory_init] *)

Definition memory_init (m : memory) (total kernel_start : Z)
  : memory_manager_t * Z :=
  let kernel_end := add32 kernel_start KERNEL_HEAP_SIZE in
  let user_start := kernel_end in
  let user_end := total in
  let pages := total / PAGE_SIZE in
  let frames := add32 kernel_start MANAGER_SIZE in
  let m := fun a => if (frames <=? a) && (a <? frames + 4 * pages) then 0 else m a in
  let initial_block := user_start in
  let m := st_address m initial_block (add32 user_start HEADER_SIZE) in
  let m := st_size m initial_block (sub32 user_end (address m initial_block)) in
  let m := st_type m initial_block MEM_TYPE_FREE in
  let m := st_process_id m initial_block 0 in
  let m := st_is_free m initial_block true in
  let m := st_next m initial_block 0 in
  let m := st_prev m initial_block 0 in
  (mk_mm total total kernel_start kernel_end user_start user_end
     initial_block 0 (fun _ => zero_process) 0 frames pages pages 0 0 0 0 0 m,
   0).

(** *** [find_free_block] *)

Definition fits (m : memory) (block nbytes alignment : Z) : bool :=
  is_free m block && (nbytes <=? size m block)
  && (add32 nbytes (padding_of (address m block) alignment) <=? size m block).

Fixpoint find_free_loop (fuel : nat) (m : memory) (nbytes alignment : Z)
    (block best_fit best_size : Z) : option Z :=
  if block =? 0 then Some best_fit
  else match fuel with
       | O => None
       | S fuel' =>
           if fits m block nbytes alignment && (size m block <? best_size)
           then find_free_loop fuel' m nbytes alignment (next m block)
                  block (size m block)
           else find_free_loop fuel' m nbytes alignment (next m block)
                  best_fit best_size
       end.

Definition find_free_block (fuel : nat) (s : memory_manager_t) (nbytes alignment : Z)
  : option Z :=
  find_free_loop fuel (mem s) nbytes alignment (free_blocks s) 0 UINT32_MAX.

(** *** [merge_free_blocks] *)

Definition absorb (m : memory) (block next_block : Z) : memory :=
  let m := st_size m block (add32 (size m block) (size m next_block)) in
  let m := st_next m block (next m next_block) in
  if next m next_block =? 0 then m
  else st_prev m (next m next_block) block.

Definition mergeable (m : memory) (block next_block : Z) : bool :=
  negb (next_block =? 0) && is_free m next_block
  && (add32 (address m block) (size m block) =? address m next_block).

Fixpoint merge_free_loop (fuel : nat) (m : memory) (block : Z) : option memory :=
  if block =? 0 then Some m
  else match fuel with
       | O => None
       | S fuel' =>
           let next_block := next m block in
           let m1 := if mergeable m block next_block
                     then absorb m block next_block else m in
           merge_free_loop fuel' m1 (next m1 block)
       end.

Definition with_mem (s : memory_manager_t) (m : memory) : memory_manager_t :=
  mk_mm (total_memory s) (available_memory s) (kernel_memory_start s)
    (kernel_memory_end s) (user_memory_start s) (user_memory_end s) (free_blocks s)
    (allocated_blocks s) (processes s) (current_process s) (page_frames s)
    (total_pages s) (free_pages s) (kernel_heap s) (user_heap s) (allocations s)
    (deallocations s) (fragmentation_count s) m.

Definition with_processes (s : memory_manager_t) (v : Z -> process_memory_t) :=
  mk_mm (total_memory s) (available_memory s) (kernel_memory_start s)
    (kernel_memory_end s) (user_memory_start s) (user_memory_end s) (free_blocks s)
    (allocated_blocks s) v (current_process s) (page_frames s) (total_pages s)
    (free_pages s) (kernel_heap s) (user_heap s) (allocations s) (deallocations s)
    (fragmentation_count s) (mem s).

Definition with_current_process (s : memory_manager_t) (v : Z) :=
  mk_mm (total_memory s) (available_memory s) (kernel_memory_start s)
    (kernel_memory_end s) (user_memory_start s) (user_memory_end s) (free_blocks s)
    (allocated_blocks s) (processes s) v (page_frames s) (total_pages s)
    (free_pages s) (kernel_heap s) (user_heap s) (allocations s) (deallocations s)
    (fragmentation_count s) (mem s).

Definition merge_free_blocks (fuel : nat) (s : memory_manager_t)
  : option memory_manager_t :=
  match merge_free_loop fuel (mem s) (free_blocks s) with
  | Some m => Some (with_mem s m)
  | None => None
  end.

(** *** [memory_defragment] *)

(** The loop of [memory_defragment].  [block->address] and [block->size]
    are read for the call of [memmove]; [block->size] and [block->next]
    are read again after it, from the memory it leaves. *)
Fixpoint defragment_loop (fuel : nat) (m : memory) (block new_address : Z)
  : option (memory * Z) :=
  if block =? 0 then Some (m, new_address)
  else match fuel with
       | O => None
       | S fuel' =>
           if is_free m block
           then defragment_loop fuel' m (next m block) new_address
           else
             let m1 := if address m block =? new_address then m
                       else
                         let m := memmove m new_address (address m block)
                                    (size m block) in
                         st_address m block new_address in
             defragment_loop fuel' m1 (next m1 block)
               (add32 new_address (size m1 block))
       end.

Definition memory_defragment (fuel : nat) (s : memory_manager_t)
  : option memory_manager_t :=
  match defragment_loop fuel (mem s) (allocated_blocks s) (user_memory_start s) with
  | None => None
  | Some (m, new_address) =>
      let m := if free_blocks s =? 0 then m
               else
                 let m := st_address m (free_blocks s) new_address in
                 st_size m (free_blocks s) (sub32 (user_memory_end s) new_address) in
      Some (mk_mm (total_memory s) (available_memory s) (kernel_memory_start s)
              (kernel_memory_end s) (user_memory_start s) (user_memory_end s)
              (free_blocks s) (allocated_blocks s) (processes s) (current_process s)
              (page_frames s) (total_pages s) (free_pages s) (kernel_heap s)
              (user_heap s) (allocations s) (deallocations s)
              (add32 (fragmentation_count s) 1) m)
  end.

(** *** [memory_alloc_aligned] *)

Definition unlink (m : memory) (block : Z) : memory :=
  let m := if prev m block =? 0 then m
           else st_next m (prev m block) (next m block) in
  if next m block =? 0 then m
  else st_prev m (next m block) (prev m block).

Definition unlinked_head (m : memory) (block head : Z) : Z :=
  if prev m block =? 0 then next m block else head.

Definition push_front (m : memory) (block head : Z) : memory :=
  let m := st_prev m block 0 in
  let m := st_next m block head in
  if head =? 0 then m else st_prev m head block.

Definition split_block (m : memory) (block nbytes aligned_addr padding : Z)
  : memory :=
  if add32 (add32 nbytes padding) HEADER_SIZE <? size m block then
    let new_block := add32 aligned_addr nbytes in
    let m := st_address m new_block (add32 aligned_addr nbytes) in
    let m := st_size m new_block (sub32 (sub32 (size m block) nbytes) padding) in
    let m := st_type m new_block MEM_TYPE_FREE in
    let m := st_process_id m new_block 0 in
    let m := st_is_free m new_block true in
    let m := st_next m new_block (next m block) in
    let m := st_prev m new_block block in
    let m := if next m block =? 0 then m
             else st_prev m (next m block) new_block in
    let m := st_next m block new_block in
    st_size m block (add32 nbytes padding)
  else m.

Definition allocate_block (s : memory_manager_t)
    (block nbytes alignment : Z) (ty : memory_type_t)
  : memory_manager_t * Z :=
  let m := mem s in
  let aligned_addr := aligned_address (address m block) alignment in
  let padding := sub32 aligned_addr (address m block) in
  let m := split_block m block nbytes aligned_addr padding in
  let m := st_type m block ty in
  let m := st_process_id m block (current_process s) in
  let m := st_is_free m block false in
  let m := st_address m block aligned_addr in
  let free_head := unlinked_head m block (free_blocks s) in
  let m := unlink m block in
  let m := push_front m block (allocated_blocks s) in
  (mk_mm (total_memory s) (sub32 (available_memory s) nbytes)
     (kernel_memory_start s) (kernel_memory_end s) (user_memory_start s)
     (user_memory_end s) free_head block (processes s) (current_process s)
     (page_frames s) (total_pages s) (free_pages s) (kernel_heap s) (user_heap s)
     (add32 (allocations s) 1) (deallocations s) (fragmentation_count s) m,
   aligned_addr).

Definition memory_alloc_aligned (fuel : nat) (s : memory_manager_t)
    (nbytes alignment : Z) (ty : memory_type_t)
  : option (memory_manager_t * Z) :=
  if nbytes =? 0 then Some (s, 0)
  else
    match find_free_block fuel s nbytes alignment with
    | None => None
    | Some block =>
        if block =? 0 then
          match memory_defragment fuel s with
          | None => None
          | Some s1 =>
              match find_free_block fuel s1 nbytes alignment with
              | None => None
              | Some block1 =>
                  if block1 =? 0 then Some (s1, 0)
                  else Some (allocate_block s1 block1 nbytes alignment ty)
              end
          end
        else Some (allocate_block s block nbytes alignment ty)
    end.

Definition memory_alloc (fuel : nat) (s : memory_manager_t)
    (nbytes : Z) (ty : memory_type_t) : option (memory_manager_t * Z) :=
  memory_alloc_aligned fuel s nbytes 4 ty.

(** *** [memory_free] *)

Fixpoint find_allocated (fuel : nat) (m : memory) (block addr : Z) : option Z :=
  if block =? 0 then Some 0
  else match fuel with
       | O => None
       | S fuel' =>
           if address m block =? addr then Some block
           else find_allocated fuel' m (next m block) addr
       end.

Definition release_block (s : memory_manager_t) (block : Z) : memory_manager_t :=
  let m := mem s in
  let alloc_head := unlinked_head m block (allocated_blocks s) in
  let m := unlink m block in
  let m := st_type m block MEM_TYPE_FREE in
  let m := st_process_id m block 0 in
  let m := st_is_free m block true in
  let m := push_front m block (free_blocks s) in
  mk_mm (total_memory s) (add32 (available_memory s) (size m block))
    (kernel_memory_start s) (kernel_memory_end s) (user_memory_start s)
    (user_memory_end s) block alloc_head (processes s) (current_process s)
    (page_frames s) (total_pages s) (free_pages s) (kernel_heap s) (user_heap s)
    (allocations s) (add32 (deallocations s) 1) (fragmentation_count s) m.

Definition memory_free (fuel : nat) (s : memory_manager_t) (ptr : Z)
  : option (memory_manager_t * Z) :=
  if ptr =? 0 then Some (s, -1)
  else
    match find_allocated fuel (mem s) (allocated_blocks s) ptr with
    | None => None
    | Some block =>
        if block =? 0 then Some (s, -1)
        else
          match merge_free_blocks fuel (release_block s block) with
          | None => None
          | Some s' => Some (s', 0)
          end
    end.

(** *** Process memory contexts *)

Definition process_memory_create (fuel : nat) (s : memory_manager_t)
    (pid code_size : Z) : option (memory_manager_t * Z) :=
  if MAX_PROCESSES <=? pid then Some (s, -1)
  else
    match memory_alloc fuel s code_size MEM_TYPE_USER with
    | None => None
    | Some (s1, code) =>
        let s1 := with_processes s1
                    (upd_process (processes s1) pid
                       (set_code_start (processes s1 pid) code)) in
        if code =? 0 then Some (s1, -1)
        else
          let s1 := with_processes s1
                      (upd_process (processes s1) pid
                         (set_code_end (processes s1 pid) (add32 code code_size))) in
          match memory_alloc fuel s1 STACK_SIZE MEM_TYPE_USER with
          | None => None
          | Some (s2, stack) =>
              let s2 := with_processes s2
                          (upd_process (processes s2) pid
                             (set_stack_start (processes s2 pid) stack)) in
              if stack =? 0 then
                match memory_free fuel s2 (code_start (processes s2 pid)) with
                | None => None
                | Some (s3, _) => Some (s3, -1)
                end
              else
                let p := processes s2 pid in
                let p := set_stack_end p (add32 (stack_start p) STACK_SIZE) in
                let p := set_heap_start p (code_end p) in
                let p := set_heap_end p (heap_start p) in
                let p := set_pm_process_id p pid in
                let p := set_total_allocated p (add32 code_size STACK_SIZE) in
                let p := set_is_active p true in
                Some (with_processes s2 (upd_process (processes s2) pid p), 0)
          end
    end.

Fixpoint destroy_loop (fuel_free : nat) (fuel : nat) (s : memory_manager_t)
    (block pid : Z) : option memory_manager_t :=
  if block =? 0 then Some s
  else match fuel with
       | O => None
       | S fuel' =>
           let nxt := next (mem s) block in
           if process_id (mem s) block =? pid then
             match memory_free fuel_free s (address (mem s) block) with
             | None => None
             | Some (s1, _) => destroy_loop fuel_free fuel' s1 nxt pid
             end
           else destroy_loop fuel_free fuel' s nxt pid
       end.

Definition process_memory_destroy (fuel : nat) (s : memory_manager_t) (pid : Z)
  : option (memory_manager_t * Z) :=
  if MAX_PROCESSES <=? pid then Some (s, -1)
  else if negb (is_active (processes s pid)) then Some (s, -1)
  else
    match destroy_loop fuel fuel s (allocated_blocks s) pid with
    | None => None
    | Some s1 =>
        Some (with_processes s1 (upd_process (processes s1) pid zero_process), 0)
    end.

Definition process_alloc (fuel : nat) (s : memory_manager_t)
    (pid nbytes : Z) : option (memory_manager_t * Z) :=
  if MAX_PROCESSES <=? pid then Some (s, 0)
  else if negb (is_active (processes s pid)) then Some (s, 0)
  else
    let old_process := current_process s in
    match memory_alloc fuel (with_current_process s pid) nbytes MEM_TYPE_USER with
    | None => None
    | Some (s1, ptr) =>
        let s1 := if ptr =? 0 then s1
                  else with_processes s1
                         (upd_process (processes s1) pid
                            (set_total_allocated (processes s1 pid)
                               (add32 (total_allocated (processes s1 pid)) nbytes))) in
        Some (with_current_process s1 old_process, ptr)
    end.

(** [b] is the block the allocation of [nbytes] in [s] takes, found in the
    state [s1]: [s] itself, or what the defragmentation pass makes of [s]
    when the first search finds nothing. *)
Definition winning_block (fuel : nat) (s : memory_manager_t)
    (nbytes alignment : Z) (s1 : memory_manager_t) (b : Z) : Prop :=
  b <> 0
  /\ ((s1 = s /\ find_free_block fuel s nbytes alignment = Some b)
      \/ (find_free_block fuel s nbytes alignment = Some 0
          /\ memory_defragment fuel s = Some s1
          /\ find_free_block fuel s1 nbytes alignment = Some b)).

(** *** The header store of a memory *)

(** The enumerator of a value of [type]; a value that is none is read as
    the last one. *)
Definition decode_type (c : Z) : memory_type_t :=
  if c =? 0 then MEM_TYPE_FREE
  else if c =? 1 then MEM_TYPE_KERNEL
  else if c =? 2 then MEM_TYPE_USER
  else if c =? 3 then MEM_TYPE_GAME
  else if c =? 4 then MEM_TYPE_GRAPHICS
  else if c =? 5 then MEM_TYPE_AUDIO
  else MEM_TYPE_RESERVED.

(** The header read at [p]. *)
Definition decode (m : memory) (p : Z) : memory_block_t :=
  mk_block (address m p) (size m p) (decode_type (type m p))
    (process_id m p) (is_free m p) (next m p) (prev m p).

(** The memory [m] and the header store [h] hold the same headers at the
    locations [l]. *)
Definition agree (l : list Z) (m : memory) (h : store) : Prop :=
  forall q, In q l -> q <> 0 -> decode m q = h q.

(** *** Example states *)

(** A memory of zero bytes. *)
Definition zeroed : memory := fun _ => 0.

(** The state a call leaves, for runs whose calls all end. *)
Definition state_of {A : Type} (o : option (memory_manager_t * A))
  : memory_manager_t :=
  match o with
  | Some (s, _) => s
  | None => fst (memory_init zeroed 0 0)
  end.

(** A 64 MB machine with the kernel zone at 0, on zeroed memory. *)
Definition boot : memory_manager_t := fst (memory_init zeroed 67108864 0).

(** One allocation of 100 bytes. *)
Definition one_block : memory_manager_t :=
  state_of (memory_alloc 8 boot 100 MEM_TYPE_USER).

(** One allocation takes the whole initial block. *)
Definition full : memory_manager_t :=
  state_of (memory_alloc 8 boot 58720228 MEM_TYPE_USER).

(** Three allocations of 100 bytes, the first being released. *)
Definition fragmented : memory_manager_t :=
  let s := state_of (memory_alloc 8 boot 100 MEM_TYPE_USER) in
  let s := state_of (memory_alloc 8 s 100 MEM_TYPE_USER) in
  let s := state_of (memory_alloc 8 s 100 MEM_TYPE_USER) in
  state_of (memory_free 8 s 8388636).

(** Process 1 is created with 16 bytes of code. *)
Definition with_process : memory_manager_t :=
  state_of (process_memory_create 8 boot 1 16).

(** An allocation of 58000000 bytes, which leaves less than [STACK_SIZE]
    free, and the creation of process 3 with that much code. *)
Definition big_code : memory_manager_t :=
  state_of (memory_alloc 8 boot 58000000 MEM_TYPE_USER).

Definition big_process : memory_manager_t :=
  state_of (process_memory_create 8 boot 3 58000000).

(** It allocates 30 bytes, and then 32 bytes. *)
Definition process_first : memory_manager_t :=
  state_of (process_alloc 8 with_process 1 30).

Definition process_heap : memory_manager_t :=
  state_of (process_alloc 8 process_first 1 32).

End Bytes.

(** The state of the first part that a state on bytes stands for: every
    location holds the header read there, every page entry the word read
    there. *)
Definition view (s : Bytes.memory_manager_t) : memory_manager_t :=
  mk_mm (Bytes.total_memory s) (Bytes.available_memory s)
    (Bytes.kernel_memory_start s) (Bytes.kernel_memory_end s)
    (Bytes.user_memory_start s) (Bytes.user_memory_end s)
    (Bytes.free_blocks s) (Bytes.allocated_blocks s) (Bytes.processes s)
    (Bytes.current_process s)
    (fun i => Bytes.load32 (Bytes.mem s) (Bytes.page_frames s + 4 * i))
    (Bytes.total_pages s) (Bytes.free_pages s) (Bytes.kernel_heap s)
    (Bytes.user_heap s) (Bytes.allocations s) (Bytes.deallocations s)
    (Bytes.fragmentation_count s) (Bytes.decode (Bytes.mem s)).

(** * The file store *)

(** The second part of the source: a block store with two bitmaps, an
    inode table and a data area.  The arrays that [fs_init] obtains from
    [calloc] are functions from indices to values; an access outside an
    array, undefined in C, makes the operation return [None].  The
    lengths are those of the [calloc] calls: [bitmap_blocks * BLOCK_SIZE]
    bytes of block bitmap, [BLOCK_SIZE] bytes of inode bitmap, [MAX_FILES]
    inodes and [total_blocks * BLOCK_SIZE] bytes of data. *)
Module FileSystem.

Definition BLOCK_SIZE : Z := 512.
Definition MAX_FILENAME : Z := 64.
Definition MAX_FILES : Z := 1024.
Definition MAX_PATH : Z := 256.
Definition FS_MAGIC : Z := 1129270867.

Inductive file_type_t : Set :=
  | FILE_TYPE_REGULAR
  | FILE_TYPE_DIRECTORY
  | FILE_TYPE_GAME
  | FILE_TYPE_SAVE.

Definition file_type_value (t : file_type_t) : Z :=
  match t with
  | FILE_TYPE_REGULAR => 0
  | FILE_TYPE_DIRECTORY => 1
  | FILE_TYPE_GAME => 2
  | FILE_TYPE_SAVE => 3
  end.

Record file_attr_t : Set := mk_attr {
  size : Z;
  created_time : Z;
  modified_time : Z;
  accessed_time : Z;
  permissions : Z;
  type : Z;
  flags : Z
}.

(** [blocks] has 12 entries. *)
Record inode_t : Set := mk_inode {
  inode_num : Z;
  attributes : file_attr_t;
  blocks : Z -> Z;
  indirect_block : Z;
  double_indirect : Z;
  block_count : Z
}.

Record superblock_t : Set := mk_sb {
  magic : Z;
  version : Z;
  block_size : Z;
  total_blocks : Z;
  free_blocks : Z;
  total_inodes : Z;
  free_inodes : Z;
  root_inode : Z;
  bitmap_blocks : Z;
  inode_table_blocks : Z;
  first_data_block : Z;
  volume_name : String.string
}.

Record fs_context_t : Set := mk_fs {
  sb : superblock_t;
  block_bitmap : Z -> Z;
  inode_bitmap : Z -> Z;
  inode_table : Z -> inode_t;
  data_blocks : Z -> Z;
  current_directory : Z
}.

Record file_handle_t : Set := mk_handle {
  inode : Z;
  position : Z;
  mode : Z;
  is_open : bool
}.

Definition set_free_blocks (b : superblock_t) (v : Z) : superblock_t :=
  mk_sb (magic b) (version b) (block_size b) (total_blocks b) v (total_inodes b)
    (free_inodes b) (root_inode b) (bitmap_blocks b) (inode_table_blocks b)
    (first_data_block b) (volume_name b).
Definition set_free_inodes (b : superblock_t) (v : Z) : superblock_t :=
  mk_sb (magic b) (version b) (block_size b) (total_blocks b) (free_blocks b)
    (total_inodes b) v (root_inode b) (bitmap_blocks b) (inode_table_blocks b)
    (first_data_block b) (volume_name b).
Definition set_root_inode (b : superblock_t) (v : Z) : superblock_t :=
  mk_sb (magic b) (version b) (block_size b) (total_blocks b) (free_blocks b)
    (total_inodes b) (free_inodes b) v (bitmap_blocks b) (inode_table_blocks b)
    (first_data_block b) (volume_name b).
Definition set_volume_name (b : superblock_t) (v : String.string) : superblock_t :=
  mk_sb (magic b) (version b) (block_size b) (total_blocks b) (free_blocks b)
    (total_inodes b) (free_inodes b) (root_inode b) (bitmap_blocks b)
    (inode_table_blocks b) (first_data_block b) v.

Definition with_sb (c : fs_context_t) (v : superblock_t) : fs_context_t :=
  mk_fs v (block_bitmap c) (inode_bitmap c) (inode_table c) (data_blocks c)
    (current_directory c).
Definition with_block_bitmap (c : fs_context_t) (v : Z -> Z) : fs_context_t :=
  mk_fs (sb c) v (inode_bitmap c) (inode_table c) (data_blocks c)
    (current_directory c).
Definition with_inode_bitmap (c : fs_context_t) (v : Z -> Z) : fs_context_t :=
  mk_fs (sb c) (block_bitmap c) v (inode_table c) (data_blocks c)
    (current_directory c).
Definition with_inode_table (c : fs_context_t) (v : Z -> inode_t) : fs_context_t :=
  mk_fs (sb c) (block_bitmap c) (inode_bitmap c) v (data_blocks c)
    (current_directory c).
Definition with_data_blocks (c : fs_context_t) (v : Z -> Z) : fs_context_t :=
  mk_fs (sb c) (block_bitmap c) (inode_bitmap c) (inode_table c) v
    (current_directory c).
Definition with_current_directory (c : fs_context_t) (v : Z) : fs_context_t :=
  mk_fs (sb c) (block_bitmap c) (inode_bitmap c) (inode_table c) (data_blocks c) v.

Definition set_inode_num (n : inode_t) (v : Z) : inode_t :=
  mk_inode v (attributes n) (blocks n) (indirect_block n) (double_indirect n)
    (block_count n).
Definition set_attributes (n : inode_t) (v : file_attr_t) : inode_t :=
  mk_inode (inode_num n) v (blocks n) (indirect_block n) (double_indirect n)
    (block_count n).
Definition set_blocks (n : inode_t) (v : Z -> Z) : inode_t :=
  mk_inode (inode_num n) (attributes n) v (indirect_block n) (double_indirect n)
    (block_count n).
Definition set_block_count (n : inode_t) (v : Z) : inode_t :=
  mk_inode (inode_num n) (attributes n) (blocks n) (indirect_block n)
    (double_indirect n) v.

Definition set_size (a : file_attr_t) (v : Z) : file_attr_t :=
  mk_attr v (created_time a) (modified_time a) (accessed_time a) (permissions a)
    (type a) (flags a).
Definition set_permissions (a : file_attr_t) (v : Z) : file_attr_t :=
  mk_attr (size a) (created_time a) (modified_time a) (accessed_time a) v
    (type a) (flags a).
Definition set_type (a : file_attr_t) (v : Z) : file_attr_t :=
  mk_attr (size a) (created_time a) (modified_time a) (accessed_time a)
    (permissions a) v (flags a).

(** An array cell written at index [i]. *)
Definition store_at {A : Type} (a : Z -> A) (i : Z) (v : A) : Z -> A :=
  fun j => if j =? i then v else a j.

Definition zero_attr : file_attr_t := mk_attr 0 0 0 0 0 0 0.
Definition zero_inode : inode_t := mk_inode 0 zero_attr (fun _ => 0) 0 0 0.

(** [0 <= i < len] *)
Definition in_array (len i : Z) : bool := (0 <=? i) && (i <? len).

(** The lengths of the arrays. *)
Definition block_bitmap_size (c : fs_context_t) : Z :=
  bitmap_blocks (sb c) * BLOCK_SIZE.
Definition inode_bitmap_size : Z := BLOCK_SIZE.
Definition data_size (c : fs_context_t) : Z := total_blocks (sb c) * BLOCK_SIZE.

(** ** Bitmaps *)

(** [1 << bit_idx] with [bit_idx = i % 8] *)
Definition bit_mask (i : Z) : Z := Z.shiftl 1 (i mod 8).

(** [bitmap[byte_idx] & (1 << bit_idx)] is not zero, [byte_idx = i / 8]. *)
Definition bit_test (bm : Z -> Z) (i : Z) : bool :=
  negb (Z.land (bm (i / 8)) (bit_mask i) =? 0).

(** [bitmap[byte_idx] |= (1 << bit_idx)], the byte being a [uint8_t]. *)
Definition bit_set (bm : Z -> Z) (i : Z) : Z -> Z :=
  store_at bm (i / 8) (Z.lor (bm (i / 8)) (bit_mask i) mod 256).

(** [bitmap[byte_idx] &= ~(1 << bit_idx)] *)
Definition bit_clear (bm : Z -> Z) (i : Z) : Z -> Z :=
  store_at bm (i / 8) (Z.land (bm (i / 8)) (Z.lnot (bit_mask i)) mod 256).

(** The [for] loop of [allocate_block] and of [allocate_inode] on a bitmap
    of [len] bytes, [n] iterations being left from index [i]: the first
    index whose bit is clear, [Some None] when the loop ends without one. *)
Fixpoint first_clear_bit (bm : Z -> Z) (len : Z) (n : nat) (i : Z)
  : option (option Z) :=
  match n with
  | O => Some None
  | S n' =>
      if in_array len (i / 8) then
        if bit_test bm i then first_clear_bit bm len n' (i + 1)
        else Some (Some i)
      else None
  end.

Definition allocate_block (c : fs_context_t) : option (fs_context_t * Z) :=
  if free_blocks (sb c) =? 0 then Some (c, 0)
  else
    match first_clear_bit (block_bitmap c) (block_bitmap_size c)
            (Z.to_nat (total_blocks (sb c) - first_data_block (sb c)))
            (first_data_block (sb c)) with
    | None => None
    | Some None => Some (c, 0)
    | Some (Some i) =>
        Some (with_sb (with_block_bitmap c (bit_set (block_bitmap c) i))
                (set_free_blocks (sb c) (sub32 (free_blocks (sb c)) 1)),
              i)
    end.

Definition free_block (c : fs_context_t) (block : Z) : option fs_context_t :=
  if (block =? 0) || (total_blocks (sb c) <=? block) then Some c
  else if in_array (block_bitmap_size c) (block / 8) then
    if bit_test (block_bitmap c) block then
      Some (with_sb (with_block_bitmap c (bit_clear (block_bitmap c) block))
              (set_free_blocks (sb c) (add32 (free_blocks (sb c)) 1)))
    else Some c
  else None.

Definition allocate_inode (c : fs_context_t) : option (fs_context_t * Z) :=
  if free_inodes (sb c) =? 0 then Some (c, 0)
  else
    match first_clear_bit (inode_bitmap c) inode_bitmap_size
            (Z.to_nat (total_inodes (sb c))) 0 with
    | None => None
    | Some None => Some (c, 0)
    | Some (Some i) =>
        Some (with_sb (with_inode_bitmap c (bit_set (inode_bitmap c) i))
                (set_free_inodes (sb c) (sub32 (free_inodes (sb c)) 1)),
              i)
    end.

Definition free_inode (c : fs_context_t) (ino : Z) : option fs_context_t :=
  if total_inodes (sb c) <=? ino then Some c
  else if in_array inode_bitmap_size (ino / 8) then
    if bit_test (inode_bitmap c) ino then
      Some (with_sb (with_inode_bitmap c (bit_clear (inode_bitmap c) ino))
              (set_free_inodes (sb c) (add32 (free_inodes (sb c)) 1)))
    else Some c
  else None.

(** ** Initialisation and format *)

(** [fs_init]; [isz] is [sizeof(inode_t)] and [calloc_ok] tells whether the
    four [calloc] calls all succeeded.  The arrays are zeroed by [calloc];
    when one of the calls fails the result is [-1] and the arrays of the
    context are not to be used. *)
Definition fs_init (isz total : Z) (calloc_ok : bool) : fs_context_t * Z :=
  let bitmap := sub32 (add32 total (BLOCK_SIZE * 8)) 1 / (BLOCK_SIZE * 8) in
  let table := sub32 (add32 (mul32 MAX_FILES isz) BLOCK_SIZE) 1 / BLOCK_SIZE in
  let first := add32 (add32 (add32 1 bitmap) 1) table in
  (mk_fs
     (mk_sb FS_MAGIC 1 BLOCK_SIZE total total MAX_FILES MAX_FILES 0 bitmap table
        first String.EmptyString)
     (fun _ => 0) (fun _ => 0) (fun _ => zero_inode) (fun _ => 0) 0,
   if calloc_ok then 0 else -1).

(** The loop of [fs_format] over the system blocks. *)
Fixpoint mark_system_blocks (n : nat) (i : Z) (c : fs_context_t)
  : option fs_context_t :=
  match n with
  | O => Some c
  | S n' =>
      if in_array (block_bitmap_size c) (i / 8) then
        mark_system_blocks n' (i + 1)
          (with_sb (with_block_bitmap c (bit_set (block_bitmap c) i))
             (set_free_blocks (sb c) (sub32 (free_blocks (sb c)) 1)))
      else None
  end.

(** [strncpy(dst, src, n); dst[n] = 0], as a string. *)
Definition strncpy (src : String.string) (n : nat) : String.string :=
  String.substring 0 n src.

Definition fs_format (c : fs_context_t) (name : String.string)
  : option (fs_context_t * Z) :=
  let c := with_block_bitmap c
             (fun j => if in_array (mul32 (bitmap_blocks (sb c)) BLOCK_SIZE) j
                       then 0 else block_bitmap c j) in
  let c := with_inode_bitmap c
             (fun j => if in_array BLOCK_SIZE j then 0 else inode_bitmap c j) in
  let c := with_inode_table c
             (fun j => if in_array MAX_FILES j then zero_inode
                       else inode_table c j) in
  let c := with_sb c (set_volume_name (sb c) (strncpy name 31)) in
  match mark_system_blocks (Z.to_nat (first_data_block (sb c))) 0 c with
  | None => None
  | Some c =>
      match allocate_inode c with
      | None => None
      | Some (c, root_num) =>
          let c := with_sb c (set_root_inode (sb c) root_num) in
          if in_array MAX_FILES root_num then
            let root := inode_table c root_num in
            let root := set_inode_num root root_num in
            let root := set_attributes root
                          (set_type (attributes root)
                             (file_type_value FILE_TYPE_DIRECTORY)) in
            let root := set_attributes root
                          (set_permissions (attributes root) 493) in
            let root := set_attributes root (set_size (attributes root) 0) in
            let c := with_inode_table c (store_at (inode_table c) root_num root) in
            match allocate_block c with
            | None => None
            | Some (c, first) =>
                let root := inode_table c root_num in
                let root := set_blocks root (store_at (blocks root) 0 first) in
                let root := set_block_count root 1 in
                let c := with_inode_table c
                           (store_at (inode_table c) root_num root) in
                Some (with_current_directory c (root_inode (sb c)), 0)
            end
          else None
      end
  end.

(** ** Files *)

(** [strrchr(path, c) - path] for a character [c] other than the
    terminator. *)
Fixpoint strrchr (path : String.string) (c : Ascii.ascii) : option nat :=
  match path with
  | String.EmptyString => None
  | String.String a rest =>
      match strrchr rest c with
      | Some k => Some (S k)
      | None => if Ascii.eqb a c then Some O else None
      end
  end.

(** [fs_create_file]: the directory part of the path is copied into
    [dir_path], of [MAX_PATH] bytes, and terminated at its length; the
    copies are not used afterwards. *)
Definition fs_create_file (c : fs_context_t) (path : String.string)
    (ty : file_type_t) : option (fs_context_t * Z) :=
  let fits_dir_path :=
    match strrchr path "/"%char with
    | Some k => Z.of_nat k <? MAX_PATH
    | None => true
    end in
  if fits_dir_path then
    match allocate_inode c with
    | None => None
    | Some (c, num) =>
        if num =? 0 then Some (c, -1)
        else if in_array MAX_FILES num then
          let n := inode_table c num in
          let n := set_inode_num n num in
          let n := set_attributes n (set_type (attributes n) (file_type_value ty)) in
          let n := set_attributes n (set_permissions (attributes n) 420) in
          let n := set_attributes n (set_size (attributes n) 0) in
          let n := set_block_count n 0 in
          Some (with_inode_table c (store_at (inode_table c) num n), 0)
        else None
    end
  else None.

(** [fs_open]; [None] is the null pointer [malloc] may return. *)
Definition fs_open (c : fs_context_t) (path : String.string) (mode : Z)
    (malloc_ok : bool) : option file_handle_t :=
  if malloc_ok then Some (mk_handle 1 0 mode true) else None.

(** [fs_close]; the handle is gone after a successful call. *)
Definition fs_close (handle : option file_handle_t) : Z :=
  match handle with
  | None => -1
  | Some h => if is_open h then 0 else -1
  end.

(** [memcpy(dst + d, src + s, n)] between two byte arrays. *)
Definition memcpy (dst : Z -> Z) (d : Z) (src : Z -> Z) (s n : Z) : Z -> Z :=
  fun a => if (d <=? a) && (a <? d + n) then src (s + (a - d)) else dst a.

(** A [uint32_t] returned as an [int]. *)
Definition int_of_uint32 (x : Z) : Z := if x <? 2 ^ 31 then x else x - 2 ^ 32.

(** The loop of [fs_read]; every round copies at least one byte, and
    [fuel] bounds the rounds. *)
Fixpoint read_loop (fuel : nat) (c : fs_context_t) (n : inode_t) (size_ : Z)
    (pos block_idx block_offset bytes_read : Z) (buf : Z -> Z)
  : option (Z * Z * (Z -> Z)) :=
  if (bytes_read <? size_) && (pos <? size (attributes n)) then
    if block_count n <=? block_idx then Some (pos, bytes_read, buf)
    else
      match fuel with
      | O => None
      | S fuel' =>
          if in_array 12 block_idx then
            let block_num := blocks n block_idx in
            let k := sub32 BLOCK_SIZE block_offset in
            let k := if sub32 size_ bytes_read <? k then sub32 size_ bytes_read
                     else k in
            let k := if sub32 (size (attributes n)) pos <? k
                     then sub32 (size (attributes n)) pos else k in
            let src := mul32 block_num BLOCK_SIZE + block_offset in
            if (0 <=? src) && (src + k <=? data_size c) then
              read_loop fuel' c n size_ (add32 pos k) (add32 block_idx 1) 0
                (add32 bytes_read k)
                (memcpy buf bytes_read (data_blocks c) src k)
            else None
          else None
      end
  else Some (pos, bytes_read, buf).

(** [fs_read]: the handle after the call, the buffer and the result. *)
Definition fs_read (c : fs_context_t) (handle : option file_handle_t)
    (buffer : Z -> Z) (size_ : Z)
  : option (option file_handle_t * (Z -> Z) * Z) :=
  match handle with
  | None => Some (None, buffer, -1)
  | Some h =>
      if negb (is_open h) then Some (Some h, buffer, -1)
      else if in_array MAX_FILES (inode h) then
        match read_loop (Z.to_nat size_) c (inode_table c (inode h)) size_
                (position h) (position h / BLOCK_SIZE) (position h mod BLOCK_SIZE)
                0 buffer with
        | None => None
        | Some (pos, bytes_read, buf) =>
            Some (Some (mk_handle (inode h) pos (mode h) (is_open h)), buf,
                  int_of_uint32 bytes_read)
        end
      else None
  end.

(** The first loop of [fs_write]: blocks are allocated until the inode
    has [needed] of them; the flag is [false] when [allocate_block]
    returns 0. *)
Fixpoint grow_inode (fuel : nat) (c : fs_context_t) (ino needed : Z)
  : option (fs_context_t * bool) :=
  if block_count (inode_table c ino) <? needed then
    match fuel with
    | O => None
    | S fuel' =>
        match allocate_block c with
        | None => None
        | Some (c, new_block) =>
            if new_block =? 0 then Some (c, false)
            else
              let n := inode_table c ino in
              let n := if block_count n <? 12
                       then set_blocks n (store_at (blocks n) (block_count n) new_block)
                       else n in
              let n := set_block_count n (add32 (block_count n) 1) in
              grow_inode fuel' (with_inode_table c (store_at (inode_table c) ino n))
                ino needed
        end
    end
  else Some (c, true).

(** The second loop of [fs_write]. *)
Fixpoint write_loop (fuel : nat) (c : fs_context_t) (n : inode_t) (size_ : Z)
    (pos block_idx block_offset bytes_written : Z) (buf : Z -> Z)
  : option (fs_context_t * Z * Z) :=
  if bytes_written <? size_ then
    match fuel with
    | O => None
    | S fuel' =>
        if in_array 12 block_idx then
          let block_num := blocks n block_idx in
          let k := sub32 BLOCK_SIZE block_offset in
          let k := if sub32 size_ bytes_written <? k then sub32 size_ bytes_written
                   else k in
          let dst := mul32 block_num BLOCK_SIZE + block_offset in
          if (0 <=? dst) && (dst + k <=? data_size c) then
            write_loop fuel'
              (with_data_blocks c (memcpy (data_blocks c) dst buf bytes_written k))
              n size_ (add32 pos k) (add32 block_idx 1) 0 (add32 bytes_written k) buf
          else None
        else None
    end
  else Some (c, pos, bytes_written).

(** [fs_write]: the context and the handle after the call, and the
    result. *)
Definition fs_write (c : fs_context_t) (handle : option file_handle_t)
    (buffer : Z -> Z) (size_ : Z)
  : option (fs_context_t * option file_handle_t * Z) :=
  match handle with
  | None => Some (c, None, -1)
  | Some h =>
      if negb (is_open h) then Some (c, Some h, -1)
      else if in_array MAX_FILES (inode h) then
        let needed :=
          sub32 (add32 (add32 (position h) size_) BLOCK_SIZE) 1 / BLOCK_SIZE in
        match grow_inode (Z.to_nat needed) c (inode h) needed with
        | None => None
        | Some (c, false) => Some (c, Some h, -1)
        | Some (c, true) =>
            match write_loop (Z.to_nat size_) c (inode_table c (inode h)) size_
                    (position h) (position h / BLOCK_SIZE)
                    (position h mod BLOCK_SIZE) 0 buffer with
            | None => None
            | Some (c, pos, bytes_written) =>
                let n := inode_table c (inode h) in
                let n := if size (attributes n) <? pos
                         then set_attributes n (set_size (attributes n) pos)
                         else n in
                Some (with_inode_table c (store_at (inode_table c) (inode h) n),
                      Some (mk_handle (inode h) pos (mode h) (is_open h)),
                      int_of_uint32 bytes_written)
            end
        end
      else None
  end.

End FileSystem.

(** * The game layer *)

(** The third part of the source, as far as it is pure: the registry
    search, the listing of the installed games and the checksum.  The
    manager enters through its [registry], of [MAX_GAMES] entries, and its
    [game_count]; an access outside the registry, undefined in C, makes
    the operation return [None]. *)
Module GameSystem.

Definition MAX_GAMES : Z := 256.

Inductive game_type_t : Set :=
  | GAME_TYPE_ARCADE
  | GAME_TYPE_PUZZLE
  | GAME_TYPE_PLATFORM
  | GAME_TYPE_SHOOTER
  | GAME_TYPE_RPG
  | GAME_TYPE_HOMEBREW.

Record game_registry_entry_t : Set := mk_entry {
  name : String.string;
  path : String.string;
  type : game_type_t;
  size : Z;
  last_played : Z;
  is_installed : bool
}.

(** The loop of [game_find_by_name], [n] iterations being left from index
    [i]; [strcmp(a, b) == 0] is the equality of the two strings. *)
Fixpoint find_loop (registry : Z -> game_registry_entry_t) (n : nat) (i : Z)
    (nm : String.string) : option (option Z) :=
  match n with
  | O => Some None
  | S n' =>
      if FileSystem.in_array MAX_GAMES i then
        if String.eqb (name (registry i)) nm then Some (Some i)
        else find_loop registry n' (i + 1) nm
      else None
  end.

(** [game_find_by_name]: the index of the entry whose address is returned,
    [Some None] for the null pointer. *)
Definition game_find_by_name (registry : Z -> game_registry_entry_t)
    (game_count : Z) (nm : String.string) : option (option Z) :=
  find_loop registry (Z.to_nat game_count) 0 nm.

(** The loop of [game_list_installed]; [games] is the caller's array. *)
Fixpoint list_loop (registry : Z -> game_registry_entry_t) (n : nat) (i : Z)
    (max_games : Z) (games : Z -> game_registry_entry_t) (count : Z)
  : option ((Z -> game_registry_entry_t) * Z) :=
  match n with
  | O => Some (games, count)
  | S n' =>
      if count <? max_games then
        if FileSystem.in_array MAX_GAMES i then
          if is_installed (registry i) then
            list_loop registry n' (i + 1) max_games
              (FileSystem.store_at games count (registry i)) (count + 1)
          else list_loop registry n' (i + 1) max_games games count
        else None
      else Some (games, count)
  end.

Definition game_list_installed (registry : Z -> game_registry_entry_t)
    (game_count : Z) (games : Z -> game_registry_entry_t) (max_games : Z)
  : option ((Z -> game_registry_entry_t) * Z) :=
  list_loop registry (Z.to_nat game_count) 0 max_games games 0.

(** [(checksum << 1) | (checksum >> 31)] on a [uint32_t] *)
Definition rotate_left (checksum : Z) : Z :=
  Z.lor (wrap (Z.shiftl checksum 1)) (Z.shiftr checksum 31).

(** The loop of [calculate_checksum], [n] iterations being left from index
    [i]. *)
Fixpoint checksum_loop (bytes : Z -> Z) (n : nat) (i : Z) (checksum : Z) : Z :=
  match n with
  | O => checksum
  | S n' => checksum_loop bytes n' (i + 1) (rotate_left (add32 checksum (bytes i)))
  end.

Definition calculate_checksum (data : Z -> Z) (size_ : Z) : Z :=
  checksum_loop data (Z.to_nat size_) 0 0.

End GameSystem.

(** ** Example stores *)

(** The context a call leaves, [d] when the call is undefined. *)
Definition context_of {A : Type} (o : option (FileSystem.fs_context_t * A))
    (d : FileSystem.fs_context_t) : FileSystem.fs_context_t :=
  match o with
  | Some (c, _) => c
  | None => d
  end.

(** A store of 200 blocks with inodes of 84 bytes, before and after
    [fs_format]. *)
Definition small_store : FileSystem.fs_context_t :=
  fst (FileSystem.fs_init 84 200 true).

Definition formatted_store : FileSystem.fs_context_t :=
  context_of (FileSystem.fs_format small_store "GameOS"%string) small_store.

(** ** Predicates of the file store's properties *)

(** The byte of the data area that holds offset [q] of a file. *)
Definition byte_address (n : FileSystem.inode_t) (q : Z) : Z :=
  FileSystem.blocks n (q / FileSystem.BLOCK_SIZE) * FileSystem.BLOCK_SIZE
  + q mod FileSystem.BLOCK_SIZE.

(** The direct blocks an inode counts are blocks of the store, marked in
    use and pairwise distinct. *)
Definition file_blocks_ok (c : FileSystem.fs_context_t) (n : FileSystem.inode_t)
  : Prop :=
  0 <= FileSystem.block_count n
  /\ forall i, 0 <= i < FileSystem.block_count n -> i < 12 ->
       0 <= FileSystem.blocks n i < FileSystem.total_blocks (FileSystem.sb c)
       /\ FileSystem.bit_test (FileSystem.block_bitmap c) (FileSystem.blocks n i)
          = true
       /\ forall j, 0 <= j < FileSystem.block_count n -> j < 12 ->
            FileSystem.blocks n j = FileSystem.blocks n i -> j = i.

(** A buffer, and the store after 1000 of its bytes have been written
    through a handle of [fs_open]. *)
Definition sample_bytes (a : Z) : Z := (7 * a + 3) mod 256.

Definition written_store : FileSystem.fs_context_t :=
  match FileSystem.fs_write formatted_store
          (FileSystem.fs_open formatted_store "save"%string 2 true)
          sample_bytes 1000 with
  | Some (c, _, _) => c
  | None => formatted_store
  end.

(** ** Predicates of the game layer's properties *)

(** The entries [i .. i+n-1] of the registry, in order. *)
Fixpoint registry_entries (registry : Z -> GameSystem.game_registry_entry_t)
    (n : nat) (i : Z) : list GameSystem.game_registry_entry_t :=
  match n with
  | O => []
  | S n' => registry i :: registry_entries registry n' (i + 1)
  end.

(** A registry with the three built-in games that [game_system_init]
    enters, the other entries being zero. *)
Definition builtin_registry (i : Z) : GameSystem.game_registry_entry_t :=
  if i =? 0 then
    GameSystem.mk_entry "Pong"%string "builtin://pong"%string
      GameSystem.GAME_TYPE_ARCADE 0 0 true
  else if i =? 1 then
    GameSystem.mk_entry "Tetris"%string "builtin://tetris"%string
      GameSystem.GAME_TYPE_PUZZLE 0 0 true
  else if i =? 2 then
    GameSystem.mk_entry "Snake"%string "builtin://snake"%string
      GameSystem.GAME_TYPE_ARCADE 0 0 true
  else
    GameSystem.mk_entry String.EmptyString String.EmptyString
      GameSystem.GAME_TYPE_ARCADE 0 0 false.

(** [k] rotations of a checksum. *)
Fixpoint rotations (k : nat) (x : Z) : Z :=
  match k with
  | O => x
  | S k' => rotations k' (GameSystem.rotate_left x)
  end.

(** * Properties *)

(** ** Machine arithmetic *)

Lemma wrap_range x : 0 <= wrap x < 2 ^ 32.
Proof. unfold wrap. apply Z.mod_pos_bound. reflexivity. Qed.

Lemma wrap_small x : 0 <= x < 2 ^ 32 -> wrap x = x.
Proof. intros H. unfold wrap. apply Z.mod_small. exact H. Qed.

Lemma add32_small a b : 0 <= a + b < 2 ^ 32 -> add32 a b = a + b.
Proof. apply wrap_small. Qed.

Lemma sub32_small a b : 0 <= a - b < 2 ^ 32 -> sub32 a b = a - b.
Proof. apply wrap_small. Qed.

Lemma pow2_le_32 k : 0 <= k <= 31 -> 0 < 2 ^ k < 2 ^ 32.
Proof.
  intros Hk. split.
  - apply Z.pow_pos_nonneg; lia.
  - apply Z.pow_lt_mono_r; lia.
Qed.

(** Masking with [~(2^k - 1)] clears the [k] low bits. *)
Lemma land_not32_ones x k :
  0 <= x < 2 ^ 32 -> 0 <= k <= 31 ->
  Z.land x (not32 (sub32 (2 ^ k) 1)) = x / 2 ^ k * 2 ^ k.
Proof.
  intros Hx Hk.
  pose proof (pow2_le_32 k Hk) as Hp.
  rewrite sub32_small by lia.
  replace (2 ^ k - 1) with (Z.ones k) by (rewrite Z.ones_equiv; lia).
  unfold not32, wrap.
  rewrite <- (Z.land_ones (Z.lnot (Z.ones k)) 32) by lia.
  rewrite (Z.land_comm (Z.lnot (Z.ones k))), Z.land_assoc.
  rewrite (Z.land_ones x 32) by lia.
  rewrite (Z.mod_small x) by exact Hx.
  rewrite <- Z.ldiff_land, Z.ldiff_ones_r by lia.
  rewrite Z.shiftl_mul_pow2, Z.shiftr_div_pow2 by lia.
  reflexivity.
Qed.

Lemma aligned_address_eq addr k :
  0 <= k <= 31 ->
  aligned_address addr (2 ^ k)
  = sub32 (add32 addr (2 ^ k)) 1 / 2 ^ k * 2 ^ k.
Proof.
  intros Hk. unfold aligned_address.
  apply land_not32_ones; [apply wrap_range | exact Hk].
Qed.

Lemma aligned_address_divide addr k :
  0 <= k <= 31 -> (2 ^ k | aligned_address addr (2 ^ k)).
Proof.
  intros Hk. rewrite aligned_address_eq by exact Hk.
  apply Z.divide_factor_r.
Qed.

Lemma aligned_address_range addr alignment :
  0 <= aligned_address addr alignment < 2 ^ 32.
Proof.
  unfold aligned_address.
  pose proof (wrap_range (add32 addr alignment - 1)) as H1.
  fold (sub32 (add32 addr alignment) 1) in H1.
  set (x := sub32 (add32 addr alignment) 1) in *.
  rewrite <- (Z.mod_small x (2 ^ 32)) by exact H1.
  rewrite <- (Z.land_ones x 32) by lia.
  rewrite <- Z.land_assoc, (Z.land_comm (Z.ones 32)), Z.land_assoc.
  rewrite Z.land_ones by lia.
  apply Z.mod_pos_bound. reflexivity.
Qed.

(** The padding is the distance to the next multiple of the alignment. *)
Lemma padding_of_eq addr k :
  0 <= addr < 2 ^ 32 -> 0 <= k <= 31 ->
  padding_of addr (2 ^ k) = (- addr) mod 2 ^ k.
Proof.
  intros Ha Hk.
  pose proof (pow2_le_32 k Hk) as Hp.
  unfold padding_of. rewrite aligned_address_eq by exact Hk.
  assert (Hdiv : (2 ^ k | 2 ^ 32)).
  { exists (2 ^ (32 - k)). rewrite <- Z.pow_add_r by lia.
    replace (32 - k + k) with 32 by lia. reflexivity. }
  destruct Hdiv as [c Hc].
  assert (Hm : 0 <= (- addr) mod 2 ^ k < 2 ^ k) by (apply Z.mod_pos_bound; lia).
  assert (Hsum : (addr + (- addr) mod 2 ^ k) mod 2 ^ k = 0).
  { rewrite Zplus_mod_idemp_r. replace (addr + - addr) with 0 by lia.
    apply Z.mod_0_l. lia. }
  apply Z.mod_divide in Hsum; [|lia]. destruct Hsum as [d Hd].
  assert (Hw : sub32 (add32 addr (2 ^ k)) 1 = wrap (addr + 2 ^ k - 1)).
  { unfold sub32, add32, wrap. apply Zminus_mod_idemp_l. }
  rewrite Hw.
  destruct (Z_lt_le_dec (addr + 2 ^ k - 1) (2 ^ 32)) as [Hlt | Hge].
  - rewrite (wrap_small (addr + 2 ^ k - 1)) by lia.
    assert (Hq : (addr + 2 ^ k - 1) / 2 ^ k = d).
    { symmetry. apply (Z.div_unique _ _ d (2 ^ k - 1 - (- addr) mod 2 ^ k)); lia. }
    rewrite Hq.
    destruct (Z.eq_dec (d * 2 ^ k) (2 ^ 32)) as [He | Hne].
    + assert (Ha0 : addr = 0) by lia. subst addr. rewrite He. reflexivity.
    + rewrite sub32_small by nia. lia.
  - assert (Hc0 : 0 < c) by nia.
    assert (Hr : wrap (addr + 2 ^ k - 1) = addr + 2 ^ k - 1 - 2 ^ 32).
    { unfold wrap. symmetry. apply (Z.mod_unique _ _ 1); lia. }
    rewrite Hr.
    rewrite Z.div_small by lia. simpl (0 * _).
    assert (Hd' : d = c) by nia.
    unfold sub32, wrap. symmetry.
    rewrite <- (Z.mod_unique (0 - addr) (2 ^ 32) (-1) (2 ^ 32 - addr)) by lia.
    nia.
Qed.

Lemma padding_of_lt addr k :
  0 <= addr < 2 ^ 32 -> 0 <= k <= 31 -> 0 <= padding_of addr (2 ^ k) < 2 ^ k.
Proof.
  intros Ha Hk. rewrite padding_of_eq by assumption.
  apply Z.mod_pos_bound. apply pow2_le_32. exact Hk.
Qed.

(** ** The store *)

Lemma upd_same h p b : upd h p b p = b.
Proof. unfold upd. rewrite Z.eqb_refl. reflexivity. Qed.

Lemma upd_other h p b q : q <> p -> upd h p b q = h q.
Proof. intros H. unfold upd. apply Z.eqb_neq in H. rewrite H. reflexivity. Qed.

Ltac unfold_st :=
  unfold st_address, st_size, st_type, st_process_id, st_is_free, st_next, st_prev.

(** Reads through a sequence of writes, the pointer comparisons being
    settled from the context, innermost first. *)
Ltac eqb_free t :=
  lazymatch t with
  | context [Z.eqb _ _] => fail
  | _ => idtac
  end.

Ltac store_reads :=
  unfold_st; unfold upd; simpl;
  repeat match goal with
         | |- context [Z.eqb ?a ?b] =>
             eqb_free a; eqb_free b;
             destruct (Z.eqb_spec a b); try lia; try congruence; simpl
         end.

Ltac store_solve := store_reads; solve [reflexivity | congruence | lia].

(** ** Lists in the store *)

Lemma lseg_frame h h' l : forall p q,
  (forall x, In x l -> next (h' x) = next (h x)) ->
  lseg h p l q -> lseg h' p l q.
Proof.
  induction l as [|x l IH]; intros p q Hn Hl; simpl in *.
  - exact Hl.
  - destruct Hl as (Hp & Hx & Hl). repeat split; try assumption.
    rewrite (Hn x) by (left; reflexivity).
    apply IH; [|exact Hl]. intros y Hy. apply Hn. right. exact Hy.
Qed.

Lemma lseg_app h l1 l2 : forall p q,
  lseg h p (l1 ++ l2) q <-> exists m, lseg h p l1 m /\ lseg h m l2 q.
Proof.
  induction l1 as [|x l1 IH]; intros p q; simpl.
  - split.
    + intros H. exists p. split; [reflexivity | exact H].
    + intros (m & Hm & H). subst m. exact H.
  - split.
    + intros (Hp & Hx & H). apply IH in H. destruct H as (m & H1 & H2).
      exists m. repeat split; assumption.
    + intros (m & (Hp & Hx & H1) & H2). repeat split; try assumption.
      apply IH. exists m. split; assumption.
Qed.

Lemma lseg_not_null h l p q : lseg h p l q -> ~ In 0 l.
Proof.
  revert p. induction l as [|x l IH]; intros p H; simpl in *.
  - tauto.
  - destruct H as (Hp & Hx & H). intros [H0 | H0].
    + congruence.
    + exact (IH _ H H0).
Qed.

(** A null-terminated list is determined by its head. *)
Lemma llist_functional h l1 : forall l2 p,
  llist h p l1 -> llist h p l2 -> l1 = l2.
Proof.
  unfold llist.
  induction l1 as [|x l1 IH]; intros l2 p H1 H2; destruct l2 as [|y l2]; simpl in *.
  - reflexivity.
  - destruct H2 as (Hp & Hy & _). congruence.
  - destruct H1 as (Hp & Hx & _). congruence.
  - destruct H1 as (Hp1 & Hx & H1). destruct H2 as (Hp2 & Hy & H2).
    assert (Hxy : x = y) by congruence. rewrite <- Hxy in H2 |- *.
    f_equal. exact (IH _ _ H1 H2).
Qed.

Lemma llist_NoDup h l : forall p, llist h p l -> NoDup l.
Proof.
  unfold llist.
  induction l as [|x l IH]; intros p H.
  - constructor.
  - simpl in H. destruct H as (Hp & Hx & H).
    constructor; [|exact (IH _ H)].
    intros Hin. apply in_split in Hin. destruct Hin as (l1 & l2 & Hl).
    assert (Hall := H). rewrite Hl in H.
    apply lseg_app in H. destruct H as (m & _ & H).
    simpl in H. destruct H as (Hm & _ & H).
    assert (Heq : l = l2) by (apply (llist_functional h l l2 (next (h x))); assumption).
    apply (f_equal (@length Z)) in Hl. rewrite Heq in Hl at 1.
    rewrite length_app in Hl. simpl in Hl. lia.
Qed.

Lemma dlseg_lseg h l : forall pv p q, dlseg h pv p l q -> lseg h p l q.
Proof.
  induction l as [|x l IH]; intros pv p q H; simpl in *.
  - exact H.
  - destruct H as (Hp & Hx & _ & H). repeat split; try assumption.
    exact (IH _ _ _ H).
Qed.



(** ** Release of an address that is not allocated *)

Lemma find_allocated_absent h addr l : forall fuel p,
  llist h p l -> (length l <= fuel)%nat ->
  (forall x, In x l -> address (h x) <> addr) ->
  find_allocated fuel h p addr = Some 0.
Proof.
  unfold llist.
  induction l as [|x l IH]; intros fuel p Hl Hf Ha; simpl in *.
  - subst p. destruct fuel; reflexivity.
  - destruct Hl as (Hp & Hx & Hl). subst p.
    destruct fuel as [|fuel]; [lia|]. simpl.
    apply Z.eqb_neq in Hx. rewrite Hx.
    assert (Hax : address (h x) <> addr) by (apply Ha; left; reflexivity).
    apply Z.eqb_neq in Hax. rewrite Hax.
    apply IH; [exact Hl | lia |]. intros y Hy. apply Ha. right. exact Hy.
Qed.

(** C6. Releasing an address that is the [address] of no block of the
    allocated list returns the error status -1 (NOT_FOUND) and hands the
    manager back as it was: counters, lists, [available_memory] and
    headers are those of the state before the call. *)
Theorem memory_free_not_found (fuel : nat) (s : memory_manager_t) (ptr : Z)
    (l : list Z) :
  llist (blocks s) (allocated_blocks s) l ->
  (length l <= fuel)%nat ->
  (forall x, In x l -> address (blocks s x) <> ptr) ->
  memory_free fuel s ptr = Some (s, -1).
Proof.
  intros Hl Hf Ha. unfold memory_free.
  destruct (ptr =? 0); [reflexivity|].
  rewrite (find_allocated_absent _ _ l) by assumption.
  reflexivity.
Qed.

(** C10. Releasing the null pointer returns the error status -1 at once:
    whatever the bound on the search and whatever the lists look like, the
    manager comes back unchanged. *)
Theorem memory_free_null (fuel : nat) (s : memory_manager_t) :
  memory_free fuel s 0 = Some (s, -1).
Proof. reflexivity. Qed.

(** ** Alignment of the returned address *)



(** ** The page-frame allocator *)

Lemma alloc_page_scan_none s n : forall i,
  (forall j, i <= j < i + Z.of_nat n -> page_frames s j <> 0) ->
  alloc_page_scan n i s = (s, 0).
Proof.
  induction n as [|n IH]; intros i H; simpl.
  - reflexivity.
  - assert (Hi : page_frames s i <> 0) by (apply H; lia).
    apply Z.eqb_neq in Hi. rewrite Hi.
    apply IH. intros j Hj. apply H. lia.
Qed.

Lemma alloc_page_scan_found s t n : forall i,
  i <= t < i + Z.of_nat n ->
  page_frames s t = 0 ->
  (forall j, i <= j < t -> page_frames s j <> 0) ->
  alloc_page_scan n i s
  = (with_free_pages
       (with_page_frames s (fun j => if j =? t then 1 else page_frames s j))
       (sub32 (free_pages s) 1),
     mul32 t PAGE_SIZE).
Proof.
  induction n as [|n IH]; intros i Hi Ht Hb; simpl.
  - lia.
  - destruct (Z.eq_dec i t) as [-> | Hne].
    + rewrite Ht. simpl. reflexivity.
    + assert (Hpi : page_frames s i <> 0) by (apply Hb; lia).
      apply Z.eqb_neq in Hpi. rewrite Hpi.
      apply IH; [lia | exact Ht |]. intros j Hj. apply Hb. lia.
Qed.

(** [memory_init] counts at most 2^20 pages and marks them all free. *)
Lemma memory_init_pages hdr s total kernel_start :
  0 <= total < 2 ^ 32 ->
  0 <= total_pages (fst (memory_init hdr s total kernel_start)) <= 2 ^ 20
  /\ free_pages (fst (memory_init hdr s total kernel_start))
     = total_pages (fst (memory_init hdr s total kernel_start))
  /\ forall i, 0 <= i < total_pages (fst (memory_init hdr s total kernel_start)) ->
       page_frames (fst (memory_init hdr s total kernel_start)) i = 0.
Proof.
  intros Ht. simpl. unfold PAGE_SIZE.
  split; [|split; [reflexivity|]].
  - split.
    + apply Z.div_pos; lia.
    + apply Z.div_le_upper_bound; [lia|]. change (4096 * 2 ^ 20) with (2 ^ 32). lia.
  - intros i Hi.
    destruct (Z.leb_spec 0 i); [|lia].
    destruct (Z.ltb_spec i (total / 4096)); [reflexivity | lia].
Qed.

(** C9. [alloc_page] is first-fit from index 0: for the first free page
    [t] it returns [t * PAGE_SIZE], marks that entry and takes one off the
    free-page count; when no page is free it returns 0 and changes
    nothing.  A call that takes page 0 returns 0 as well, the value of the
    failing call. *)
Theorem alloc_page_first_fit_sentinel (s : memory_manager_t) :
  total_pages s <= 2 ^ 20 ->
  (forall t, 0 <= t < total_pages s ->
     page_frames s t = 0 ->
     (forall j, 0 <= j < t -> page_frames s j <> 0) ->
     snd (alloc_page s) = t * PAGE_SIZE
     /\ page_frames (fst (alloc_page s)) t = 1
     /\ (forall j, j <> t -> page_frames (fst (alloc_page s)) j = page_frames s j)
     /\ free_pages (fst (alloc_page s)) = sub32 (free_pages s) 1)
  /\ ((forall j, 0 <= j < total_pages s -> page_frames s j <> 0) ->
      alloc_page s = (s, 0))
  /\ (0 < total_pages s -> page_frames s 0 = 0 ->
      snd (alloc_page s) = 0 /\ page_frames (fst (alloc_page s)) 0 = 1).
Proof.
  intros Hn.
  assert (Hfound : forall t, 0 <= t < total_pages s ->
     page_frames s t = 0 ->
     (forall j, 0 <= j < t -> page_frames s j <> 0) ->
     alloc_page s
     = (with_free_pages
          (with_page_frames s (fun j => if j =? t then 1 else page_frames s j))
          (sub32 (free_pages s) 1),
        mul32 t PAGE_SIZE)).
  { intros t Ht H0 Hb. unfold alloc_page.
    apply alloc_page_scan_found; [lia | exact H0 | exact Hb]. }
  split; [|split].
  - intros t Ht H0 Hb. rewrite (Hfound t Ht H0 Hb). simpl.
    repeat split.
    + unfold mul32, PAGE_SIZE. apply wrap_small.
      change (2 ^ 32) with (2 ^ 20 * 4096). nia.
    + rewrite Z.eqb_refl. reflexivity.
    + intros j Hj. apply Z.eqb_neq in Hj. rewrite Hj. reflexivity.
  - intros Hfull. unfold alloc_page. apply alloc_page_scan_none.
    intros j Hj. apply Hfull. lia.
  - intros Hpos H0.
    rewrite (Hfound 0) by (try assumption; lia). simpl. split; reflexivity.
Qed.

(** ** Best-fit search *)

Lemma padding_of_nonneg addr alignment : 0 <= padding_of addr alignment.
Proof. unfold padding_of, sub32. apply wrap_range. Qed.

Lemma fits_candidate h nbytes alignment x :
  0 <= nbytes ->
  nbytes + padding_of (address (h x)) alignment < 2 ^ 32 ->
  fits (h x) nbytes alignment = true <-> candidate h nbytes alignment x.
Proof.
  intros Hn Hov. unfold fits, candidate.
  pose proof (padding_of_nonneg (address (h x)) alignment) as Hp.
  rewrite add32_small by lia.
  rewrite !andb_true_iff, !Z.leb_le. split.
  - intros ((Hf & _) & Hs). split; assumption.
  - intros (Hf & Hs). repeat split; [exact Hf | lia | exact Hs].
Qed.

Lemma find_free_loop_spec h nbytes alignment l : forall fuel p best_fit best_size,
  llist h p l -> (length l <= fuel)%nat ->
  0 <= nbytes ->
  (forall x, In x l -> nbytes + padding_of (address (h x)) alignment < 2 ^ 32) ->
  exists r,
    find_free_loop fuel h nbytes alignment p best_fit best_size = Some r
    /\ ((r = best_fit
         /\ forall x, In x l -> candidate h nbytes alignment x ->
                      best_size <= size (h x))
        \/ exists l1 l2,
             l = l1 ++ r :: l2
             /\ candidate h nbytes alignment r
             /\ size (h r) < best_size
             /\ (forall x, In x l1 -> candidate h nbytes alignment x ->
                           size (h r) < size (h x))
             /\ (forall x, In x l2 -> candidate h nbytes alignment x ->
                           size (h r) <= size (h x))).
Proof.
  unfold llist.
  induction l as [|x l IH]; intros fuel p bf bs Hl Hf Hn Hov; simpl in Hl.
  - subst p. exists bf. split.
    + destruct fuel; reflexivity.
    + left. split; [reflexivity|]. intros x [].
  - destruct Hl as (Hp & Hx & Hl). subst p.
    destruct fuel as [|fuel]; [simpl in Hf; lia|].
    simpl find_free_loop.
    apply Z.eqb_neq in Hx. rewrite Hx.
    assert (Hovx : nbytes + padding_of (address (h x)) alignment < 2 ^ 32)
      by (apply Hov; left; reflexivity).
    assert (Hovl : forall y, In y l ->
              nbytes + padding_of (address (h y)) alignment < 2 ^ 32)
      by (intros y Hy; apply Hov; right; exact Hy).
    assert (Hfl : (length l <= fuel)%nat) by (simpl in Hf; lia).
    pose proof (fits_candidate h nbytes alignment x Hn Hovx) as Hfc.
    destruct (fits (h x) nbytes alignment) eqn:Hfit; simpl.
    + destruct (Z.ltb_spec (size (h x)) bs) as [Hlt | Hge].
      * destruct (IH fuel (next (h x)) x (size (h x)) Hl Hfl Hn Hovl)
          as (r & Hr & [(Hrx & Hall) | (l1 & l2 & Hsplit & Hc & Hs & H1 & H2)]).
        -- exists r. split; [exact Hr|]. right. subst r.
           exists [], l. repeat split.
           ++ apply Hfc. reflexivity.
           ++ apply Hfc. reflexivity.
           ++ exact Hlt.
           ++ intros y [].
           ++ exact Hall.
        -- exists r. split; [exact Hr|]. right.
           exists (x :: l1), l2. repeat split.
           ++ simpl. rewrite Hsplit. reflexivity.
           ++ apply Hc.
           ++ apply Hc.
           ++ lia.
           ++ intros y [Hy | Hy] Hcy; [subst y; exact Hs | exact (H1 y Hy Hcy)].
           ++ exact H2.
      * destruct (IH fuel (next (h x)) bf bs Hl Hfl Hn Hovl)
          as (r & Hr & [(Hrx & Hall) | (l1 & l2 & Hsplit & Hc & Hs & H1 & H2)]).
        -- exists r. split; [exact Hr|]. left. split; [exact Hrx|].
           intros y [Hy | Hy] Hcy; [subst y; exact Hge | exact (Hall y Hy Hcy)].
        -- exists r. split; [exact Hr|]. right.
           exists (x :: l1), l2. repeat split.
           ++ simpl. rewrite Hsplit. reflexivity.
           ++ apply Hc.
           ++ apply Hc.
           ++ exact Hs.
           ++ intros y [Hy | Hy] Hcy; [subst y; lia | exact (H1 y Hy Hcy)].
           ++ exact H2.
    + assert (Hnc : ~ candidate h nbytes alignment x).
      { intros Hc. apply Hfc in Hc. discriminate. }
      destruct (IH fuel (next (h x)) bf bs Hl Hfl Hn Hovl)
        as (r & Hr & [(Hrx & Hall) | (l1 & l2 & Hsplit & Hc & Hs & H1 & H2)]).
      * exists r. split; [exact Hr|]. left. split; [exact Hrx|].
        intros y [Hy | Hy] Hcy; [subst y; contradiction | exact (Hall y Hy Hcy)].
      * exists r. split; [exact Hr|]. right.
        exists (x :: l1), l2. repeat split.
        -- simpl. rewrite Hsplit. reflexivity.
        -- apply Hc.
        -- apply Hc.
        -- exact Hs.
        -- intros y [Hy | Hy] Hcy; [subst y; contradiction | exact (H1 y Hy Hcy)].
        -- exact H2.
Qed.

(** C2 (amended). Over a null-terminated free list, and for a request
    whose size plus padding stays below 2^32 on every block, the search
    returns null when no free block of size below [UINT32_MAX] fits, and
    otherwise the block [b] that fits with the smallest size among those:
    blocks before [b] in the list that fit are strictly larger, blocks
    after it are at least as large, so the first one met wins a tie.  A
    block of size exactly [UINT32_MAX] is never returned. *)
Theorem find_free_block_best_fit (fuel : nat) (s : memory_manager_t)
    (nbytes alignment : Z) (l : list Z) :
  llist (blocks s) (free_blocks s) l ->
  (length l <= fuel)%nat ->
  0 < nbytes ->
  (forall x, In x l ->
     nbytes + padding_of (address (blocks s x)) alignment < 2 ^ 32) ->
  (find_free_block fuel s nbytes alignment = Some 0
   /\ forall x, In x l -> ~ eligible (blocks s) nbytes alignment x)
  \/ exists l1 b l2,
       l = l1 ++ b :: l2
       /\ find_free_block fuel s nbytes alignment = Some b
       /\ eligible (blocks s) nbytes alignment b
       /\ (forall x, In x l1 -> eligible (blocks s) nbytes alignment x ->
                     size (blocks s b) < size (blocks s x))
       /\ (forall x, In x l2 -> eligible (blocks s) nbytes alignment x ->
                     size (blocks s b) <= size (blocks s x)).
Proof.
  intros Hl Hf Hn Hov. unfold find_free_block.
  destruct (find_free_loop_spec (blocks s) nbytes alignment l fuel
              (free_blocks s) 0 UINT32_MAX Hl Hf ltac:(lia) Hov)
    as (r & Hr & [(Hr0 & Hall) | (l1 & l2 & Hsplit & Hc & Hs & H1 & H2)]).
  - left. subst r. split; [exact Hr|].
    intros x Hx (Hc & Hlt). specialize (Hall x Hx Hc). lia.
  - right. exists l1, r, l2. repeat split; try assumption.
    + apply Hc.
    + apply Hc.
    + intros x Hx (Hcx & _). exact (H1 x Hx Hcx).
    + intros x Hx (Hcx & _). exact (H2 x Hx Hcx).
Qed.

(** ** Coalescing *)











Lemma llist_head h p l : llist h p l -> p = 0 \/ In p l.
Proof.
  unfold llist. destruct l as [|x l]; simpl.
  - intros H. left. exact H.
  - intros (H & _). right. left. symmetry. exact H.
Qed.




(** ** Arithmetic modulo 2^32 *)


(** ** Doubly-linked lists: removal and insertion *)

Lemma last_cons (x : Z) l d : last (x :: l) d = last l x.
Proof.
  revert x d. induction l as [|y l IH]; intros x d; [reflexivity|].
  change (last (x :: y :: l) d) with (last (y :: l) d).
  rewrite (IH y d), (IH y x). reflexivity.
Qed.

Lemma last_in (l : list Z) d : l <> [] -> In (last l d) l.
Proof.
  induction l as [|x l IH]; intros H; [congruence|].
  destruct l as [|y l]; [left; reflexivity|].
  right. apply IH. discriminate.
Qed.

Lemma dlseg_app h l1 l2 : forall pv p q,
  dlseg h pv p (l1 ++ l2) q
  <-> exists m, dlseg h pv p l1 m /\ dlseg h (last l1 pv) m l2 q.
Proof.
  induction l1 as [|x l1 IH]; intros pv p q.
  - simpl. split.
    + intros H. exists p. split; [reflexivity | exact H].
    + intros (m & Hm & H). subst m. exact H.
  - rewrite last_cons. simpl. split.
    + intros (Hp & Hx & Hpv & H). apply IH in H. destruct H as (m & H1 & H2).
      exists m. repeat split; assumption.
    + intros (m & (Hp & Hx & Hpv & H1) & H2).
      split; [exact Hp|]. split; [exact Hx|]. split; [exact Hpv|].
      apply IH. exists m. split; assumption.
Qed.

Lemma dlseg_frame h h' l : forall pv p q,
  (forall x, In x l -> next (h' x) = next (h x) /\ prev (h' x) = prev (h x)) ->
  dlseg h pv p l q -> dlseg h' pv p l q.
Proof.
  induction l as [|x l IH]; intros pv p q Hfr H; simpl in *.
  - exact H.
  - destruct H as (Hp & Hx & Hpv & H).
    destruct (Hfr x (or_introl eq_refl)) as (Hn & Hpr).
    split; [exact Hp|]. split; [exact Hx|]. split; [congruence|].
    rewrite Hn. apply IH; [|exact H].
    intros y Hy. apply Hfr. right. exact Hy.
Qed.

(** The first header of a segment gets a new predecessor. *)
Lemma dlseg_new_prev h h' l : forall pv pv' p q,
  NoDup l ->
  (forall x, In x l -> next (h' x) = next (h x)) ->
  (forall x, In x l -> x <> p -> prev (h' x) = prev (h x)) ->
  (l <> [] -> prev (h' p) = pv') ->
  dlseg h pv p l q -> dlseg h' pv' p l q.
Proof.
  intros pv pv' p q Hnd Hn Hpr Hfirst H.
  destruct l as [|x l]; simpl in *; [exact H|].
  destruct H as (Hp & Hx & Hpv & H). subst p.
  apply NoDup_cons_iff in Hnd. destruct Hnd as (Hxl & _).
  split; [reflexivity|]. split; [exact Hx|].
  split; [apply Hfirst; discriminate|].
  rewrite Hn by (left; reflexivity).
  apply (dlseg_frame h); [|exact H].
  intros y Hy. split.
  - apply Hn. right. exact Hy.
  - apply Hpr; [right; exact Hy|]. intros E. subst y. contradiction.
Qed.

(** The last header of a segment gets a new successor. *)
Lemma dlseg_new_next h h' m' l : forall pv p q,
  NoDup l -> l <> [] ->
  (forall x, In x l -> prev (h' x) = prev (h x)) ->
  (forall x, In x l -> x <> last l 0 -> next (h' x) = next (h x)) ->
  next (h' (last l 0)) = m' ->
  dlseg h pv p l q -> dlseg h' pv p l m'.
Proof.
  induction l as [|x l IH]; intros pv p q Hnd Hne Hpr Hn Hlast H; [congruence|].
  simpl in H. destruct H as (Hp & Hx & Hpv & H).
  apply NoDup_cons_iff in Hnd. destruct Hnd as (Hxl & Hnd).
  simpl. split; [exact Hp|]. split; [exact Hx|].
  split; [rewrite Hpr by (left; reflexivity); exact Hpv|].
  destruct l as [|y l].
  - simpl in *. exact Hlast.
  - assert (Hl : last (x :: y :: l) 0 = last (y :: l) 0) by reflexivity.
    rewrite Hl in *.
    assert (Hxne : x <> last (y :: l) 0).
    { intros E. apply Hxl. rewrite E. apply last_in. discriminate. }
    rewrite Hn by (try (left; reflexivity); exact Hxne).
    apply (IH x (next (h x)) q); try assumption.
    + discriminate.
    + intros z Hz. apply Hpr. right. exact Hz.
    + intros z Hz Hzl. apply Hn; [right; exact Hz | exact Hzl].
Qed.

Lemma dllist_llist h p l : dllist h p l -> llist h p l.
Proof. apply dlseg_lseg. Qed.

(** *** [unlink] *)

Lemma unlink_next_other h b q :
  prev (h b) = 0 \/ q <> prev (h b) -> next (unlink h b q) = next (h q).
Proof.
  intros H. unfold unlink.
  destruct (Z.eqb_spec (prev (h b)) 0) as [E | E];
    [|destruct H as [H | H]; [contradiction|]];
    cbv zeta;
    match goal with
    | |- context [if ?c then _ else _] => destruct c
    end; store_solve.
Qed.

Lemma unlink_next_prev h b :
  prev (h b) <> 0 -> prev (h b) <> b ->
  next (unlink h b (prev (h b))) = next (h b).
Proof.
  intros H0 Hb. unfold unlink.
  apply Z.eqb_neq in H0. rewrite H0. cbv zeta.
  match goal with
  | |- context [if ?c then _ else _] => destruct c
  end; store_solve.
Qed.

Lemma unlink_next_of_block h b :
  prev (h b) <> b -> next (st_next h (prev (h b)) (next (h b)) b) = next (h b).
Proof. intros Hb. store_solve. Qed.

Lemma unlink_unfold h b :
  prev (h b) <> b ->
  unlink h b
  = if next (h b) =? 0
    then (if prev (h b) =? 0 then h
          else st_next h (prev (h b)) (next (h b)))
    else st_prev (if prev (h b) =? 0 then h
                  else st_next h (prev (h b)) (next (h b)))
           (next (h b)) (prev (h b)).
Proof.
  intros Hb. unfold unlink. cbv zeta.
  destruct (prev (h b) =? 0); [reflexivity|].
  rewrite unlink_next_of_block by exact Hb.
  assert (E : prev (st_next h (prev (h b)) (next (h b)) b) = prev (h b))
    by store_solve.
  rewrite E. reflexivity.
Qed.

Lemma unlink_prev_other h b q :
  prev (h b) <> b ->
  next (h b) = 0 \/ q <> next (h b) -> prev (unlink h b q) = prev (h q).
Proof.
  intros Hb H. rewrite unlink_unfold by exact Hb.
  destruct (Z.eqb_spec (next (h b)) 0) as [E | E];
    [|destruct H as [H | H]; [contradiction|]];
    destruct (prev (h b) =? 0); store_solve.
Qed.

Lemma unlink_prev_next h b :
  prev (h b) <> b -> next (h b) <> 0 ->
  prev (unlink h b (next (h b))) = prev (h b).
Proof.
  intros Hb H0. rewrite unlink_unfold by exact Hb.
  apply Z.eqb_neq in H0. rewrite H0.
  destruct (prev (h b) =? 0); store_solve.
Qed.

Lemma unlink_fields h b q :
  prev (h b) <> b ->
  address (unlink h b q) = address (h q)
  /\ size (unlink h b q) = size (h q)
  /\ type (unlink h b q) = type (h q)
  /\ process_id (unlink h b q) = process_id (h q)
  /\ is_free (unlink h b q) = is_free (h q).
Proof.
  intros Hb. rewrite unlink_unfold by exact Hb.
  destruct (next (h b) =? 0); destruct (prev (h b) =? 0);
    repeat split; store_solve.
Qed.

Lemma unlink_frame h b q :
  prev (h b) <> b ->
  prev (h b) = 0 \/ q <> prev (h b) ->
  next (h b) = 0 \/ q <> next (h b) ->
  unlink h b q = h q.
Proof.
  intros Hb Hp Hn. rewrite unlink_unfold by exact Hb.
  destruct (Z.eqb_spec (next (h b)) 0) as [E | E];
    [|destruct Hn as [Hn | Hn]; [contradiction|]];
    (destruct (Z.eqb_spec (prev (h b)) 0) as [E' | E'];
     [|destruct Hp as [Hp | Hp]; [contradiction|]]);
    store_solve.
Qed.

(** What a doubly-linked list says about one of its blocks. *)
Lemma dllist_at h p l1 b l2 :
  dllist h p (l1 ++ b :: l2) ->
  dlseg h 0 p l1 b /\ b <> 0 /\ prev (h b) = last l1 0
  /\ dlseg h b (next (h b)) l2 0
  /\ NoDup (l1 ++ b :: l2)
  /\ ~ In 0 (l1 ++ b :: l2).
Proof.
  intros H.
  assert (Hll : llist h p (l1 ++ b :: l2)) by (apply dllist_llist; exact H).
  pose proof (llist_NoDup _ _ _ Hll) as Hnd.
  pose proof (lseg_not_null _ _ _ _ Hll) as Hnn.
  unfold dllist in H. apply dlseg_app in H. destruct H as (m & H1 & H2).
  simpl in H2. destruct H2 as (Hm & Hb & Hpv & H2). subst m.
  repeat split; assumption.
Qed.

Lemma dllist_prev_cases h p l1 b l2 :
  dllist h p (l1 ++ b :: l2) ->
  (l1 = [] /\ prev (h b) = 0 /\ p = b)
  \/ (l1 <> [] /\ prev (h b) <> 0 /\ In (prev (h b)) l1 /\ prev (h b) <> b).
Proof.
  intros H. destruct (dllist_at _ _ _ _ _ H) as (H1 & Hb & Hpv & H2 & Hnd & Hnn).
  destruct l1 as [|x l1].
  - left. simpl in *. repeat split; assumption.
  - right. assert (Hin : In (prev (h b)) (x :: l1)).
    { rewrite Hpv. apply last_in. discriminate. }
    split; [discriminate|]. split.
    + intros E. apply Hnn. rewrite <- E. apply in_or_app. left. exact Hin.
    + split; [exact Hin|]. intros E.
      apply NoDup_remove_2 in Hnd. apply Hnd.
      apply in_or_app. left. rewrite <- E. exact Hin.
Qed.

Lemma dllist_next_cases h p l1 b l2 :
  dllist h p (l1 ++ b :: l2) ->
  next (h b) = 0 \/ In (next (h b)) l2.
Proof.
  intros H. destruct (dllist_at _ _ _ _ _ H) as (_ & _ & _ & H2 & _).
  apply dlseg_lseg in H2. exact (llist_head _ _ _ H2).
Qed.

(** Removing [b] from a doubly-linked list leaves the doubly-linked list
    of the other blocks. *)
Lemma unlink_dllist h p l1 b l2 :
  dllist h p (l1 ++ b :: l2) ->
  dllist (unlink h b) (unlinked_head h b p) (l1 ++ l2).
Proof.
  intros H.
  destruct (dllist_at _ _ _ _ _ H) as (H1 & Hb & Hpv & H2 & Hnd & Hnn).
  pose proof (dllist_next_cases _ _ _ _ _ H) as Hnx.
  assert (Hnd1 : NoDup l1) by (apply NoDup_app_remove_r in Hnd; exact Hnd).
  assert (Hnd2 : NoDup l2).
  { apply NoDup_app_remove_l in Hnd. apply NoDup_cons_iff in Hnd. apply Hnd. }
  assert (Hsep : forall x, In x l1 -> In x l2 -> False).
  { intros x Hx1 Hx2. apply in_split in Hx1. destruct Hx1 as (la & lb & E).
    subst l1. rewrite <- app_assoc in Hnd. simpl in Hnd.
    apply NoDup_remove_2 in Hnd. apply Hnd.
    apply in_or_app. right. apply in_or_app. right. right. exact Hx2. }
  assert (Hb1 : ~ In b l1).
  { intros Hi. apply NoDup_remove_2 in Hnd. apply Hnd. apply in_or_app. left. exact Hi. }
  assert (Hb2 : ~ In b l2).
  { intros Hi. apply NoDup_remove_2 in Hnd. apply Hnd. apply in_or_app. right. exact Hi. }
  assert (Hnn1 : forall x, In x l1 -> x <> 0).
  { intros x Hx E. subst x. apply Hnn. apply in_or_app. left. exact Hx. }
  assert (Hnn2 : forall x, In x l2 -> x <> 0).
  { intros x Hx E. subst x. apply Hnn. apply in_or_app. right. right. exact Hx. }
  assert (Hnext_not_l1 : forall x, In x l1 -> next (h b) = 0 \/ x <> next (h b)).
  { intros x Hx. destruct Hnx as [E | Hi]; [left; exact E|].
    right. intros E. subst x. exact (Hsep _ Hx Hi). }
  unfold dllist. apply dlseg_app.
  exists (next (h b)).
  destruct (dllist_prev_cases _ _ _ _ _ H)
    as [(El & Hp0 & Hpb) | (Hne & Hp0 & Hpin & Hpb)].
  - (* [b] is the head *)
    subst l1. simpl in *. unfold unlinked_head. rewrite Hp0. simpl.
    split; [reflexivity|].
    assert (Hpb' : prev (h b) <> b) by congruence.
    apply (dlseg_new_prev h _ l2 b 0); [exact Hnd2 | | | | exact H2].
    + intros x Hx. apply unlink_next_other. left. exact Hp0.
    + intros x Hx Hxn. apply unlink_prev_other; [exact Hpb' | right; exact Hxn].
    + intros Hl2. rewrite unlink_prev_next; [exact Hp0 | exact Hpb' |].
      destruct Hnx as [E | Hi]; [|apply Hnn2; exact Hi].
      destruct l2; [congruence|]. simpl in H2. destruct H2 as (E' & Hz & _).
      congruence.
  - unfold unlinked_head. apply Z.eqb_neq in Hp0. rewrite Hp0.
    apply Z.eqb_neq in Hp0.
    split.
    + apply (dlseg_new_next h _ _ l1 0 p b); try assumption.
      * intros x Hx. apply unlink_prev_other; [exact Hpb|].
        apply Hnext_not_l1. exact Hx.
      * intros x Hx Hxl. apply unlink_next_other. right. rewrite Hpv. exact Hxl.
      * rewrite <- Hpv. apply unlink_next_prev; assumption.
    + rewrite <- Hpv.
      apply (dlseg_new_prev h _ l2 b (prev (h b))); [exact Hnd2 | | | | exact H2].
      * intros x Hx. apply unlink_next_other. right.
        intros E. subst x. exact (Hsep _ Hpin Hx).
      * intros x Hx Hxn. apply unlink_prev_other; [exact Hpb | right; exact Hxn].
      * intros Hl2. apply unlink_prev_next; [exact Hpb|].
        destruct Hnx as [E | Hi]; [|apply Hnn2; exact Hi].
        destruct l2; [congruence|]. simpl in H2. destruct H2 as (E' & Hz & _).
        congruence.
Qed.

Lemma unlink_block_itself h p l1 b l2 :
  dllist h p (l1 ++ b :: l2) -> unlink h b b = h b.
Proof.
  intros H.
  destruct (dllist_at _ _ _ _ _ H) as (_ & Hb & _ & _ & Hnd & _).
  pose proof (dllist_next_cases _ _ _ _ _ H) as Hnx.
  assert (Hb2 : ~ In b l2).
  { intros Hi. apply NoDup_remove_2 in Hnd. apply Hnd. apply in_or_app. right. exact Hi. }
  destruct (dllist_prev_cases _ _ _ _ _ H)
    as [(El & Hp0 & Hpb) | (Hne & Hp0 & Hpin & Hpb)].
  - apply unlink_frame.
    + congruence.
    + left. exact Hp0.
    + destruct Hnx as [E | Hi]; [left; exact E | right; intros E; rewrite <- E in Hi; contradiction].
  - apply unlink_frame.
    + exact Hpb.
    + right. congruence.
    + destruct Hnx as [E | Hi]; [left; exact E | right; intros E; rewrite <- E in Hi; contradiction].
Qed.


(** *** [push_front] *)


Lemma push_front_next_other h b hd q :
  q <> b -> next (push_front h b hd q) = next (h q).
Proof. intros Hq. unfold push_front. cbv zeta. destruct (hd =? 0); store_solve. Qed.

Lemma push_front_fields h b hd q :
  address (push_front h b hd q) = address (h q)
  /\ size (push_front h b hd q) = size (h q)
  /\ type (push_front h b hd q) = type (h q)
  /\ process_id (push_front h b hd q) = process_id (h q)
  /\ is_free (push_front h b hd q) = is_free (h q).
Proof.
  unfold push_front. cbv zeta. destruct (hd =? 0); repeat split; store_solve.
Qed.



(** ** Release of an allocated block *)



Lemma wrap_add_r a b : wrap (a + wrap b) = wrap (a + b).
Proof. unfold wrap. apply Zplus_mod_idemp_r. Qed.


(** ** Splitting on allocation *)

Section Split.

Variables (hdr : Z) (h : store) (b nbytes al pad : Z).

Let nb := add32 al nbytes.

Hypothesis Hcond : (add32 (add32 nbytes pad) hdr <? size (h b)) = true.
Hypothesis Hnb : nb <> b.

Lemma split_block_new :
  nb <> next (h b) ->
  split_block hdr h b nbytes al pad nb
  = mk_block (add32 al nbytes) (sub32 (sub32 (size (h b)) nbytes) pad)
      MEM_TYPE_FREE 0 true (next (h b)) b.
Proof.
  intros Hc. unfold split_block. rewrite Hcond. cbv zeta. fold nb.
  store_reads; reflexivity.
Qed.

Lemma split_block_old :
  b <> next (h b) ->
  split_block hdr h b nbytes al pad b
  = set_size (set_next (h b) nb) (add32 nbytes pad).
Proof.
  intros Hc. unfold split_block. rewrite Hcond. cbv zeta. fold nb.
  store_reads; reflexivity.
Qed.

Lemma split_block_succ :
  nb <> next (h b) -> b <> next (h b) -> next (h b) <> 0 ->
  split_block hdr h b nbytes al pad (next (h b))
  = set_prev (h (next (h b))) nb.
Proof.
  intros Hc Hcb Hc0. unfold split_block. rewrite Hcond. cbv zeta. fold nb.
  store_reads; reflexivity.
Qed.

Lemma split_block_frame q :
  q <> nb -> q <> b -> next (h b) = 0 \/ q <> next (h b) ->
  split_block hdr h b nbytes al pad q = h q.
Proof.
  intros Hq1 Hq2 Hq3. unfold split_block. rewrite Hcond. cbv zeta. fold nb.
  destruct Hq3 as [Hq3 | Hq3]; store_reads; reflexivity.
Qed.

End Split.

(** The end of [memory_alloc_aligned]: [b] is marked, taken out of the
    free list and put in front of the allocated list. *)
Lemma finish_allocation_spec h1 p l1 b lr ty pid al ah :
  dllist h1 p (l1 ++ b :: lr) ->
  let h2 := st_address (st_is_free (st_process_id (st_type h1 b ty) b pid) b false)
              b al in
  let h' := push_front (unlink h2 b) b ah in
  llist h' (unlinked_head h2 b p) (l1 ++ lr)
  /\ (forall q, q <> b ->
        address (h' q) = address (h1 q) /\ size (h' q) = size (h1 q)
        /\ type (h' q) = type (h1 q) /\ is_free (h' q) = is_free (h1 q))
  /\ size (h' b) = size (h1 b) /\ address (h' b) = al
  /\ is_free (h' b) = false /\ type (h' b) = ty /\ process_id (h' b) = pid.
Proof.
  intros Hd h2 h'.
  assert (Hlinks : forall q, next (h2 q) = next (h1 q) /\ prev (h2 q) = prev (h1 q)).
  { intros q. unfold h2. split; store_solve. }
  assert (Hd2 : dllist h2 p (l1 ++ b :: lr)).
  { apply (dlseg_frame h1); [|exact Hd]. intros q _. apply Hlinks. }
  destruct (dllist_at _ _ _ _ _ Hd2) as (_ & Hb & _ & _ & Hnd & _).
  assert (Hbnot : ~ In b (l1 ++ lr)) by (apply NoDup_remove_2; exact Hnd).
  assert (Hpb : prev (h2 b) <> b).
  { destruct (dllist_prev_cases _ _ _ _ _ Hd2) as [(_ & E & _) | (_ & _ & _ & E)];
      congruence. }
  split.
  { apply (lseg_frame (unlink h2 b)).
    - intros q Hq. unfold h'. apply push_front_next_other.
      intros E. subst q. contradiction.
    - apply dllist_llist. apply unlink_dllist. exact Hd2. }
  split.
  { intros q Hq. unfold h'.
    destruct (push_front_fields (unlink h2 b) b ah q) as (-> & -> & -> & _ & ->).
    destruct (unlink_fields h2 b q Hpb) as (-> & -> & -> & _ & ->).
    unfold h2. repeat split; store_solve. }
  unfold h'.
  destruct (push_front_fields (unlink h2 b) b ah b) as (-> & -> & -> & -> & ->).
  destruct (unlink_fields h2 b b Hpb) as (-> & -> & -> & -> & ->).
  unfold h2. repeat split; store_solve.
Qed.


Lemma NoDup_middle_disjoint (l1 : list Z) b l2 x :
  NoDup (l1 ++ b :: l2) -> In x l1 -> In x l2 -> False.
Proof.
  intros Hnd H1 H2. apply in_split in H1. destruct H1 as (la & lb & E). subst l1.
  rewrite <- app_assoc in Hnd. simpl in Hnd.
  apply NoDup_remove_2 in Hnd. apply Hnd.
  apply in_or_app. right. apply in_or_app. right. right. exact H2.
Qed.

(** The split inserts the new block after [b] in the free list. *)
Lemma split_block_dllist hdr h p l1 b l2 nbytes al pad :
  dllist h p (l1 ++ b :: l2) ->
  (add32 (add32 nbytes pad) hdr <? size (h b)) = true ->
  add32 al nbytes <> 0 -> ~ In (add32 al nbytes) (l1 ++ b :: l2) ->
  dllist (split_block hdr h b nbytes al pad) p (l1 ++ b :: add32 al nbytes :: l2)
  /\ split_block hdr h b nbytes al pad (add32 al nbytes)
     = mk_block (add32 al nbytes) (sub32 (sub32 (size (h b)) nbytes) pad)
         MEM_TYPE_FREE 0 true (next (h b)) b
  /\ size (split_block hdr h b nbytes al pad b) = add32 nbytes pad
  /\ (forall q, In q (l1 ++ l2) ->
        address (split_block hdr h b nbytes al pad q) = address (h q)
        /\ size (split_block hdr h b nbytes al pad q) = size (h q)).
Proof.
  intros Hd Hcond Hnb0 Hfresh.
  set (nb := add32 al nbytes) in *.
  set (h1 := split_block hdr h b nbytes al pad).
  destruct (dllist_at _ _ _ _ _ Hd) as (Hd1 & Hb & Hpv & Hd2 & Hnd & Hnn).
  pose proof (dllist_next_cases _ _ _ _ _ Hd) as Hnx.
  assert (Hb2 : ~ In b l2).
  { intros Hi. apply NoDup_remove_2 in Hnd. apply Hnd. apply in_or_app. right. exact Hi. }
  assert (Hb1 : ~ In b l1).
  { intros Hi. apply NoDup_remove_2 in Hnd. apply Hnd. apply in_or_app. left. exact Hi. }
  assert (Hbc : b <> next (h b)).
  { destruct Hnx as [E | Hi]; [congruence|]. intros E. rewrite <- E in Hi. contradiction. }
  assert (Hnbb : nb <> b) by (intros E; apply Hfresh; rewrite E; apply in_elt).
  assert (Hnb1 : ~ In nb l1)
    by (intros Hi; apply Hfresh; apply in_or_app; left; exact Hi).
  assert (Hnb2 : ~ In nb l2)
    by (intros Hi; apply Hfresh; apply in_or_app; right; right; exact Hi).
  assert (Hnbc : nb <> next (h b)).
  { destruct Hnx as [E | Hi]; [congruence|].
    intros E. rewrite <- E in Hi. contradiction. }
  assert (Enew : h1 nb = mk_block nb (sub32 (sub32 (size (h b)) nbytes) pad)
                           MEM_TYPE_FREE 0 true (next (h b)) b)
    by exact (split_block_new hdr h b nbytes al pad Hcond Hnbb Hnbc).
  assert (Eold : h1 b = set_size (set_next (h b) nb) (add32 nbytes pad))
    by exact (split_block_old hdr h b nbytes al pad Hcond Hnbb Hbc).
  assert (Esucc : next (h b) <> 0 ->
            h1 (next (h b)) = set_prev (h (next (h b))) nb)
    by exact (split_block_succ hdr h b nbytes al pad Hcond Hnbb Hnbc Hbc).
  assert (Hfr : forall q, q <> nb -> q <> b ->
            next (h b) = 0 \/ q <> next (h b) -> h1 q = h q).
  { intros q H1 H2 H3.
    exact (split_block_frame hdr h b nbytes al pad Hcond Hnbb q H1 H2 H3). }
  assert (Hnn2 : forall x, In x l2 -> x <> 0).
  { intros x Hx E. subst x. apply Hnn. apply in_or_app. right. right. exact Hx. }
  assert (Hc0 : l2 <> [] -> next (h b) <> 0).
  { intros Hl2. destruct l2 as [|c l2']; [congruence|].
    simpl in Hd2. destruct Hd2 as (E' & Hz & _). congruence. }
  assert (Hl2 : forall x, In x l2 ->
            next (h1 x) = next (h x) /\ address (h1 x) = address (h x)
            /\ size (h1 x) = size (h x)
            /\ (x <> next (h b) -> prev (h1 x) = prev (h x))).
  { intros x Hx.
    assert (Hxnb : x <> nb) by (intros E; subst x; contradiction).
    assert (Hxb : x <> b) by (intros E; subst x; contradiction).
    destruct (Z.eq_dec x (next (h b))) as [E | E].
    - rewrite E, Esucc by (rewrite <- E; apply Hnn2; exact Hx).
      repeat split. congruence.
    - rewrite Hfr by (try assumption; right; exact E). repeat split. }
  split; [|split; [exact Enew | split; [rewrite Eold; reflexivity|]]].
  - unfold dllist. apply dlseg_app. exists b. split.
    + apply (dlseg_frame h); [|exact Hd1].
      intros q Hq. rewrite Hfr; [split; reflexivity | | |].
      * intros E. subst q. contradiction.
      * intros E. subst q. contradiction.
      * destruct Hnx as [E | Hi]; [left; exact E|]. right.
        intros E. subst q. exact (NoDup_middle_disjoint _ _ _ _ Hnd Hq Hi).
    + simpl. split; [reflexivity|]. split; [exact Hb|].
      split; [rewrite Eold; simpl; exact Hpv|].
      rewrite Eold. simpl next.
      split; [reflexivity|]. split; [exact Hnb0|].
      split; [rewrite Enew; reflexivity|].
      rewrite Enew. simpl next.
      assert (Hnd2 : NoDup l2).
      { apply NoDup_app_remove_l in Hnd. apply NoDup_cons_iff in Hnd. apply Hnd. }
      apply (dlseg_new_prev h _ l2 b nb); [exact Hnd2 | | | | exact Hd2].
      * intros x Hx. apply (Hl2 x Hx).
      * intros x Hx Hxn. apply (Hl2 x Hx). exact Hxn.
      * intros Hne. rewrite Esucc by (apply Hc0; exact Hne). reflexivity.
  - intros q Hq. apply in_app_or in Hq. destruct Hq as [Hq | Hq].
    + rewrite Hfr; [split; reflexivity | | |].
      * intros E. subst q. contradiction.
      * intros E. subst q. contradiction.
      * destruct Hnx as [E | Hi]; [left; exact E|]. right.
        intros E. subst q. exact (NoDup_middle_disjoint _ _ _ _ Hnd Hq Hi).
    + destruct (Hl2 q Hq) as (_ & Ha & Hs & _). split; assumption.
Qed.

(** What [allocate_block] makes of the free list, a doubly-linked list
    [l1 ++ b :: l2], on the header store. *)
Lemma allocate_block_split (hdr : Z) (s1 : memory_manager_t)
    (b nbytes alignment : Z) (ty : memory_type_t) (l1 l2 : list Z) :
  let al := aligned_address (address (blocks s1 b)) alignment in
  let pad := sub32 al (address (blocks s1 b)) in
  let S := size (blocks s1 b) in
  let nb := add32 al nbytes in
  let s' := fst (allocate_block hdr s1 b nbytes alignment ty) in
  dllist (blocks s1) (free_blocks s1) (l1 ++ b :: l2) ->
  0 <= nbytes -> 0 <= hdr -> nbytes + pad + hdr < 2 ^ 32 -> 0 <= S < 2 ^ 32 ->
  (hdr < S - nbytes - pad -> nb <> 0 -> ~ In nb (l1 ++ b :: l2) ->
   llist (blocks s') (free_blocks s') (l1 ++ nb :: l2)
   /\ address (blocks s' nb) = nb
   /\ size (blocks s' nb) = S - nbytes - pad
   /\ is_free (blocks s' nb) = true
   /\ type (blocks s' nb) = MEM_TYPE_FREE
   /\ size (blocks s' b) = nbytes + pad
   /\ address (blocks s' b) = al
   /\ is_free (blocks s' b) = false)
  /\ (S - nbytes - pad <= hdr ->
      llist (blocks s') (free_blocks s') (l1 ++ l2)
      /\ size (blocks s' b) = S
      /\ address (blocks s' b) = al
      /\ is_free (blocks s' b) = false
      /\ forall q, In q (l1 ++ l2) ->
           address (blocks s' q) = address (blocks s1 q)
           /\ size (blocks s' q) = size (blocks s1 q)).
Proof.
  intros al pad S nb s' Hd Hn Hhdr Hov HS.
  assert (Hpad : 0 <= pad) by (unfold pad, sub32; apply wrap_range).
  set (h1 := split_block hdr (blocks s1) b nbytes al pad).
  set (h2 := st_address
               (st_is_free (st_process_id (st_type h1 b ty) b (current_process s1))
                  b false) b al).
  set (h' := push_front (unlink h2 b) b (allocated_blocks s1)).
  assert (Eh : blocks s' = h') by reflexivity.
  assert (Ef : free_blocks s' = unlinked_head h2 b (free_blocks s1)) by reflexivity.
  rewrite Eh, Ef.
  assert (Hsum : add32 (add32 nbytes pad) hdr = nbytes + pad + hdr).
  { rewrite (add32_small nbytes pad) by lia. apply add32_small. lia. }
  destruct (dllist_at _ _ _ _ _ Hd) as (_ & _ & _ & _ & Hnd & _).
  split.
  - (* the block is split *)
    intros Hleft Hnb0 Hfresh.
    assert (Hcond : (add32 (add32 nbytes pad) hdr <? size (blocks s1 b)) = true).
    { apply Z.ltb_lt. rewrite Hsum. fold S. lia. }
    destruct (split_block_dllist hdr (blocks s1) (free_blocks s1) l1 b l2 nbytes
                al pad Hd Hcond Hnb0 Hfresh)
      as (Hd1 & Enew & Esize & _).
    fold h1 nb in Hd1, Enew, Esize.
    destruct (finish_allocation_spec h1 (free_blocks s1) l1 b (nb :: l2) ty
                (current_process s1) al (allocated_blocks s1) Hd1)
      as (Hl & Hq & Hsb & Hab & Hfb & _).
    fold h2 h' in Hl, Hq, Hsb, Hab, Hfb.
    assert (Hnbb : nb <> b) by (intros E; apply Hfresh; rewrite E; apply in_elt).
    destruct (Hq nb Hnbb) as (Ha & Hs & Ht & Hf).
    split; [exact Hl|].
    split; [rewrite Ha, Enew; reflexivity|].
    split.
    { rewrite Hs, Enew. simpl size. fold S.
      rewrite (sub32_small S nbytes) by lia. apply sub32_small. lia. }
    split; [rewrite Hf, Enew; reflexivity|].
    split; [rewrite Ht, Enew; reflexivity|].
    split; [rewrite Hsb, Esize; apply add32_small; lia|].
    split; assumption.
  - (* the whole block is allocated *)
    intros Hleft.
    assert (Hcond : (add32 (add32 nbytes pad) hdr <? size (blocks s1 b)) = false).
    { apply Z.ltb_ge. rewrite Hsum. fold S. lia. }
    assert (E1 : h1 = blocks s1).
    { unfold h1, split_block. rewrite Hcond. reflexivity. }
    destruct (finish_allocation_spec h1 (free_blocks s1) l1 b l2 ty
                (current_process s1) al (allocated_blocks s1))
      as (Hl & Hq & Hsb & Hab & Hfb & _).
    { rewrite E1. exact Hd. }
    fold h2 h' in Hl, Hq, Hsb, Hab, Hfb.
    split; [exact Hl|].
    split; [rewrite Hsb, E1; reflexivity|].
    split; [exact Hab|]. split; [exact Hfb|].
    intros q Hin.
    assert (Hqb : q <> b).
    { intros E. subst q. apply NoDup_remove_2 in Hnd. contradiction. }
    destruct (Hq q Hqb) as (Ha & Hs & _). rewrite Ha, Hs, E1. split; reflexivity.
Qed.

(** ** Accounting of [available_memory] *)




(** * Counterexamples, evaluations and instances *)

Ltac shape := vm_compute; repeat split; solve [reflexivity | intro; discriminate].

Ltac in_cases :=
  repeat match goal with
         | H : In _ _ |- _ => simpl in H
         | H : _ \/ _ |- _ => destruct H as [H | H]
         | H : False |- _ => destruct H
         | H : ?a = ?b |- _ => discriminate H
         | H : ?a = ?x |- _ => is_var x; subst x
         end.


(** C2, counterexample. The initial block of [tiny] is free and of size
    [UINT32_MAX], far above the 20 bytes asked for with no padding, and
    the search returns null. *)
Lemma find_free_block_misses_largest :
  llist (blocks tiny) (free_blocks tiny) [8388608]
  /\ size (blocks tiny 8388608) = UINT32_MAX
  /\ padding_of (address (blocks tiny 8388608)) 4 = 0
  /\ candidate (blocks tiny) 20 4 8388608
  /\ find_free_block 1 tiny 20 4 = Some 0.
Proof.
  split; [shape|]. split; [reflexivity|]. split; [reflexivity|].
  split; [|reflexivity].
  split; [reflexivity|]. vm_compute. intro H. discriminate H.
Qed.

(** The example of the specification: with free blocks of sizes 100, 50
    and 30, a request of 20 bytes is served from the 30-byte block. *)
Example best_fit_100_50_30 :
  find_free_block 3 three_free 20 4 = Some 3000
  /\ size (blocks three_free 3000) = 30.
Proof. split; reflexivity. Qed.

Lemma find_free_block_best_fit_witness :
  (find_free_block 3 three_free 20 4 = Some 0
   /\ forall x, In x [1000; 2000; 3000] -> ~ eligible (blocks three_free) 20 4 x)
  \/ exists l1 b l2,
       [1000; 2000; 3000] = l1 ++ b :: l2
       /\ find_free_block 3 three_free 20 4 = Some b
       /\ eligible (blocks three_free) 20 4 b
       /\ (forall x, In x l1 -> eligible (blocks three_free) 20 4 x ->
                     size (blocks three_free b) < size (blocks three_free x))
       /\ (forall x, In x l2 -> eligible (blocks three_free) 20 4 x ->
                     size (blocks three_free b) <= size (blocks three_free x)).
Proof.
  apply (find_free_block_best_fit 3 three_free 20 4 [1000; 2000; 3000]).
  - shape.
  - simpl. lia.
  - lia.
  - intros x Hx. in_cases; vm_compute; reflexivity.
Defined.

(** Runs on the bytes are evaluated: the result of a call is read off
    its run, the state it leaves being [Bytes.state_of] of the run. *)
Lemma bytes_run_result {A : Type} (o : option (Bytes.memory_manager_t * A)) (r : A) :
  option_map snd o = Some r -> o = Some (Bytes.state_of o, r).
Proof.
  destruct o as [[s a]|]; simpl; intros H; [|discriminate H].
  inversion H. reflexivity.
Qed.

Lemma bytes_pass_result (o : option Bytes.memory_manager_t) :
  option_map (fun _ => 0) o = Some 0 ->
  o = Some (Bytes.state_of (option_map (fun s => (s, 0)) o)).
Proof.
  destruct o as [s|]; simpl; intros H; [reflexivity | discriminate H].
Qed.

Ltac run := vm_compute; reflexivity.

(** C3. Three blocks of 100 bytes are allocated on a fresh 64 MB machine
    whose memory is zero, and the first is released: the allocated list
    is [8388836; 8388736], two blocks of 100 bytes, and the free list is
    [8388608; 8388936].  The pass copies the 100 bytes of the first block
    of the list, which begin with that block's own header, to the start
    of the user zone, over the header of the free block at 8388608.  It
    then copies the second block 28 bytes down, over that block's own
    header, which is left with what the payload held: zero, so size 0 and
    no successor.  Afterwards the second allocated block has the size 0
    and not 100; the header at the head of the free list is a copy of an
    allocated header, not free, of type [MEM_TYPE_USER], with the address
    8388708, inside the 200 bytes that two compacted blocks of 100 bytes
    would occupy, and its successor is the second allocated block; the
    free block at 8388936 is in no list any more. *)
Theorem memory_defragment_overwrites_headers :
  llist (Bytes.decode (Bytes.mem Bytes.fragmented)) (Bytes.allocated_blocks Bytes.fragmented)
    [8388836; 8388736]
  /\ llist (Bytes.decode (Bytes.mem Bytes.fragmented)) (Bytes.free_blocks Bytes.fragmented)
       [8388608; 8388936]
  /\ Bytes.decode (Bytes.mem Bytes.fragmented) 8388836
     = mk_block 8388836 100 MEM_TYPE_USER 0 false 8388736 0
  /\ Bytes.decode (Bytes.mem Bytes.fragmented) 8388736
     = mk_block 8388736 100 MEM_TYPE_USER 0 false 0 8388836
  /\ Bytes.decode (Bytes.mem Bytes.fragmented) 8388608
     = mk_block 8388636 100 MEM_TYPE_FREE 0 true 8388936 0
  /\ Bytes.decode (Bytes.mem Bytes.fragmented) 8388936
     = mk_block 8388936 58719928 MEM_TYPE_FREE 0 true 0 8388608
  /\ Bytes.user_memory_start Bytes.fragmented = 8388608
  /\ Bytes.user_memory_end Bytes.fragmented = 67108864
  /\ exists s',
       Bytes.memory_defragment 8 Bytes.fragmented = Some s'
       /\ llist (Bytes.decode (Bytes.mem s')) (Bytes.allocated_blocks s') [8388836; 8388736]
       /\ Bytes.decode (Bytes.mem s') 8388836
          = mk_block 8388608 100 MEM_TYPE_USER 0 false 8388736 0
       /\ Bytes.decode (Bytes.mem s') 8388736
          = mk_block 8388708 0 MEM_TYPE_FREE 0 false 0 0
       /\ llist (Bytes.decode (Bytes.mem s')) (Bytes.free_blocks s') [8388608; 8388736]
       /\ Bytes.decode (Bytes.mem s') 8388608
          = mk_block 8388708 58720156 MEM_TYPE_USER 0 false 8388736 0
       /\ Bytes.decode (Bytes.mem s') 8388936
          = mk_block 8388936 58719928 MEM_TYPE_FREE 0 true 0 8388608.
Proof.
  split; [shape|]. split; [shape|].
  split; [run|]. split; [run|]. split; [run|]. split; [run|].
  split; [run|]. split; [run|].
  exists (Bytes.state_of
            (option_map (fun s => (s, 0)) (Bytes.memory_defragment 8 Bytes.fragmented))).
  split; [apply bytes_pass_result; run|]. split; [shape|].
  split; [run|]. split; [run|]. split; [shape|].
  split; run.
Qed.

(** A single block of 100 bytes, the first allocation of a fresh machine:
    its payload begins 28 bytes after its header, the pass moves it down
    by 28 bytes over the header and leaves a block of size 0; the free
    block then covers the whole user zone, the allocated block included. *)
Example memory_defragment_single_block :
  llist (Bytes.decode (Bytes.mem Bytes.one_block)) (Bytes.allocated_blocks Bytes.one_block)
    [8388608]
  /\ llist (Bytes.decode (Bytes.mem Bytes.one_block)) (Bytes.free_blocks Bytes.one_block)
       [8388736]
  /\ Bytes.decode (Bytes.mem Bytes.one_block) 8388608
     = mk_block 8388636 100 MEM_TYPE_USER 0 false 0 0
  /\ exists s',
       Bytes.memory_defragment 8 Bytes.one_block = Some s'
       /\ Bytes.decode (Bytes.mem s') 8388608 = mk_block 8388608 0 MEM_TYPE_FREE 0 false 0 0
       /\ Bytes.decode (Bytes.mem s') 8388736
          = mk_block 8388608 58720256 MEM_TYPE_FREE 0 true 0 0.
Proof.
  split; [shape|]. split; [shape|]. split; [run|].
  exists (Bytes.state_of
            (option_map (fun s => (s, 0)) (Bytes.memory_defragment 8 Bytes.one_block))).
  split; [apply bytes_pass_result; run|]. split; run.
Qed.

(** A block that takes the whole initial block: the free list is empty,
    and the pass leaves the block with the size 0. *)
Example memory_defragment_full :
  llist (Bytes.decode (Bytes.mem Bytes.full)) (Bytes.allocated_blocks Bytes.full) [8388608]
  /\ Bytes.free_blocks Bytes.full = 0
  /\ Bytes.decode (Bytes.mem Bytes.full) 8388608
     = mk_block 8388636 58720228 MEM_TYPE_USER 0 false 0 0
  /\ exists s',
       Bytes.memory_defragment 8 Bytes.full = Some s'
       /\ Bytes.free_blocks s' = 0
       /\ Bytes.decode (Bytes.mem s') 8388608 = mk_block 8388608 0 MEM_TYPE_FREE 0 false 0 0.
Proof.
  split; [shape|]. split; [run|]. split; [run|].
  exists (Bytes.state_of
            (option_map (fun s => (s, 0)) (Bytes.memory_defragment 8 Bytes.full))).
  split; [apply bytes_pass_result; run|]. split; run.
Qed.

(** C4. Process 1, created with 16 bytes of code, allocates 30 and then
    32 bytes.  The second block starts at 9437258 and is aligned to
    9437260: it carries 2 bytes of padding and has the size 34.  The two
    allocations debit 30 + 32 = 62 bytes, the two releases of the
    destruction credit the sizes 30 + 34 = 64: destroying the process
    releases both blocks and leaves [available_memory] 2 above its value
    before the two allocations. *)
Theorem destroy_process_available_memory_drift :
  is_active (Bytes.processes Bytes.with_process 1) = true
  /\ Bytes.process_alloc 8 Bytes.with_process 1 30
     = Some (Bytes.process_first, 9437228)
  /\ Bytes.process_alloc 8 Bytes.process_first 1 32
     = Some (Bytes.process_heap, 9437260)
  /\ llist (Bytes.decode (Bytes.mem Bytes.process_heap))
       (Bytes.allocated_blocks Bytes.process_heap)
       [9437258; 9437228; 8388652; 8388608]
  /\ Bytes.decode (Bytes.mem Bytes.process_heap) 9437258
     = mk_block 9437260 34 MEM_TYPE_USER 1 false 9437228 0
  /\ Bytes.decode (Bytes.mem Bytes.process_heap) 9437228
     = mk_block 9437228 30 MEM_TYPE_USER 1 false 8388652 9437258
  /\ Bytes.process_id (Bytes.mem Bytes.process_heap) 8388652 = 0
  /\ Bytes.process_id (Bytes.mem Bytes.process_heap) 8388608 = 0
  /\ Bytes.available_memory Bytes.with_process = 66060272
  /\ Bytes.available_memory Bytes.process_heap
     = Bytes.available_memory Bytes.with_process - 62
  /\ exists s',
       Bytes.process_memory_destroy 8 Bytes.process_heap 1 = Some (s', 0)
       /\ llist (Bytes.decode (Bytes.mem s')) (Bytes.allocated_blocks s') [8388652; 8388608]
       /\ llist (Bytes.decode (Bytes.mem s')) (Bytes.free_blocks s')
            [9437228; 9437258; 9437292]
       /\ Bytes.is_free (Bytes.mem s') 9437228 = true
       /\ Bytes.is_free (Bytes.mem s') 9437258 = true
       /\ Bytes.available_memory s' = Bytes.available_memory Bytes.with_process + 2.
Proof.
  split; [run|].
  split; [unfold Bytes.process_first; apply bytes_run_result; run|].
  split; [unfold Bytes.process_heap; apply bytes_run_result; run|].
  split; [shape|].
  split; [run|]. split; [run|]. split; [run|]. split; [run|].
  split; [run|]. split; [run|].
  exists (Bytes.state_of (Bytes.process_memory_destroy 8 Bytes.process_heap 1)).
  split; [apply bytes_run_result; run|]. split; [shape|]. split; [shape|].
  split; [run|]. split; run.
Qed.

(** The header store gives the same run: no two headers of it share a
    byte. *)
Example destroy_process_drift_in_the_store :
  llist (blocks process_heap) (allocated_blocks process_heap)
    [9437258; 9437228; 8388652; 8388608]
  /\ llist (blocks process_heap) (free_blocks process_heap) [9437292]
  /\ headers_apart 28 [9437258; 9437228; 8388652; 8388608; 9437292]
  /\ size (blocks process_heap 9437258) = 34
  /\ size (blocks process_heap 9437228) = 30
  /\ available_memory process_heap = available_memory with_process - 62
  /\ exists s',
       process_memory_destroy 8 process_heap 1 = Some (s', 0)
       /\ llist (blocks s') (allocated_blocks s') [8388652; 8388608]
       /\ available_memory s' = available_memory with_process + 2.
Proof.
  split; [shape|]. split; [shape|].
  split.
  { simpl. unfold apart. repeat split; intros q Hq; in_cases; lia. }
  split; [reflexivity|]. split; [reflexivity|]. split; [reflexivity|].
  exists (state_of (process_memory_destroy 8 process_heap 1)).
  split; [vm_compute; reflexivity|]. split; [shape | reflexivity].
Qed.



(** In [neighbours] the head of the free list absorbs its neighbour. *)
Example merge_free_blocks_head_pair :
  exists s',
    merge_free_blocks 8 neighbours = Some s'
    /\ llist (blocks s') (free_blocks s') [8388708; 8389008]
    /\ size (blocks s' 8388708) = 200.
Proof.
  exists (state_of (option_map (fun s => (s, 0)) (merge_free_blocks 8 neighbours))).
  split; [vm_compute; reflexivity|]. split; [shape | reflexivity].
Qed.

(** In [scattered] the blocks at 8388708 and 8388808 are contiguous in
    address and apart in the list: the pass does not merge them. *)
Example merge_free_blocks_not_neighbours :
  llist (blocks scattered) (free_blocks scattered)
    [8388708; 8388608; 8388808; 8389008]
  /\ adjoining (blocks scattered) 8388708 8388808
  /\ exists s',
       merge_free_blocks 8 scattered = Some s'
       /\ llist (blocks s') (free_blocks s') [8388708; 8388608; 8388808; 8389008]
       /\ size (blocks s' 8388708) = 100
       /\ size (blocks s' 8388808) = 100.
Proof.
  split; [shape|]. split; [reflexivity|].
  exists (state_of (option_map (fun s => (s, 0)) (merge_free_blocks 8 scattered))).
  split; [vm_compute; reflexivity|]. split; [shape|]. split; reflexivity.
Qed.

Lemma memory_free_not_found_witness :
  memory_free 8 four_blocks 12345 = Some (four_blocks, -1).
Proof.
  apply (memory_free_not_found 8 four_blocks 12345
           [8388908; 8388808; 8388708; 8388608]).
  - shape.
  - simpl. lia.
  - intros x Hx. in_cases; vm_compute; intro H; discriminate H.
Defined.


Lemma alloc_page_first_fit_sentinel_witness :
  (forall t, 0 <= t < total_pages two_pages ->
     page_frames two_pages t = 0 ->
     (forall j, 0 <= j < t -> page_frames two_pages j <> 0) ->
     snd (alloc_page two_pages) = t * PAGE_SIZE
     /\ page_frames (fst (alloc_page two_pages)) t = 1
     /\ (forall j, j <> t ->
           page_frames (fst (alloc_page two_pages)) j = page_frames two_pages j)
     /\ free_pages (fst (alloc_page two_pages)) = sub32 (free_pages two_pages) 1)
  /\ ((forall j, 0 <= j < total_pages two_pages -> page_frames two_pages j <> 0) ->
      alloc_page two_pages = (two_pages, 0))
  /\ (0 < total_pages two_pages -> page_frames two_pages 0 = 0 ->
      snd (alloc_page two_pages) = 0
      /\ page_frames (fst (alloc_page two_pages)) 0 = 1).
Proof.
  apply (alloc_page_first_fit_sentinel two_pages).
  vm_compute. intro H. discriminate H.
Defined.

(** On a machine of two pages the calls return 0, 4096 and then 0 again:
    the first and the failing call return the same value. *)
Example alloc_page_until_exhaustion :
  snd (alloc_page two_pages) = 0
  /\ free_pages (fst (alloc_page two_pages)) = 1
  /\ snd (alloc_page (fst (alloc_page two_pages))) = 4096
  /\ free_pages (fst (alloc_page (fst (alloc_page two_pages)))) = 0
  /\ snd (alloc_page (fst (alloc_page (fst (alloc_page two_pages))))) = 0
  /\ free_pages (fst (alloc_page (fst (alloc_page (fst (alloc_page two_pages))))))
     = 0.
Proof. repeat split; reflexivity. Qed.

(** C8. After an allocation of 100 bytes aligned on 4096 and its release,
    the free list is [8388608; 8392804]; the first block has the address
    8392704 and the size 4168, padding included, so its range runs over
    the header of the second, at 8392804.  An allocation of 100 bytes takes
    the first block, whose 4068 bytes left exceed the header size, and
    writes the header of the split at 8392704 + 100 = 8392804, over the
    header of the second block: that block loses its size 58716060 for
    4068 and becomes its own successor, and the free list is no longer a
    null-terminated list. *)
Theorem split_overwrites_free_header :
  dllist (blocks padded_released) (free_blocks padded_released) [8388608; 8392804]
  /\ winning_block 8 padded_released 100 4 padded_released 8388608
  /\ address (blocks padded_released 8388608) = 8392704
  /\ size (blocks padded_released 8388608) = 4168
  /\ padding_of (address (blocks padded_released 8388608)) 4 = 0
  /\ size (blocks padded_released 8392804) = 58716060
  /\ exists s',
       memory_alloc 28 8 padded_released 100 MEM_TYPE_USER = Some (s', 8392704)
       /\ size (blocks s' 8388608) = 100
       /\ free_blocks s' = 8392804
       /\ size (blocks s' 8392804) = 4068
       /\ next (blocks s' 8392804) = 8392804
       /\ forall l, ~ llist (blocks s') (free_blocks s') l.
Proof.
  split; [shape|].
  split.
  { split; [intro H; discriminate H|]. left. split; reflexivity. }
  split; [reflexivity|]. split; [reflexivity|].
  split; [reflexivity|]. split; [reflexivity|].
  exists (state_of (memory_alloc 28 8 padded_released 100 MEM_TYPE_USER)).
  split; [vm_compute; reflexivity|].
  split; [reflexivity|]. split; [reflexivity|].
  split; [reflexivity|]. split; [reflexivity|].
  intros l Hl.
  set (s' := state_of (memory_alloc 28 8 padded_released 100 MEM_TYPE_USER)) in *.
  assert (Hf : free_blocks s' = 8392804) by reflexivity.
  assert (Hn : next (blocks s' 8392804) = 8392804) by reflexivity.
  rewrite Hf in Hl. clearbody s'.
  destruct l as [|x l]; [discriminate Hl|].
  assert (Hl' := Hl). unfold llist in Hl'. simpl in Hl'.
  destruct Hl' as (Hx & _ & Hrest). subst x. rewrite Hn in Hrest.
  assert (E : 8392804 :: l = l) by exact (llist_functional _ _ _ _ Hl Hrest).
  apply (f_equal (@length Z)) in E. simpl in E. lia.
Qed.


(** An allocation of 100 bytes aligned on 4096 on a fresh machine debits
    100 bytes, and the block it takes keeps the size 4168, the 4068 bytes
    of padding included: [available_memory] plus the sizes of the
    allocated blocks is 4068 above its value before the call. *)
Example allocation_debits_the_request_only :
  available_memory padded = available_memory boot - 100
  /\ llist (blocks padded) (allocated_blocks padded) [8388608]
  /\ address (blocks padded 8388608) = 8392704
  /\ size (blocks padded 8388608) = 4168
  /\ available_memory padded + sum_sizes (blocks padded) [8388608]
     = available_memory boot + sum_sizes (blocks boot) [] + 4068.
Proof.
  split; [reflexivity|]. split; [shape|]. split; [reflexivity|].
  split; reflexivity.
Qed.

(** * Further properties of the block allocator *)

(** ** Fields no list operation writes *)

Lemma unlink_tags h b q :
  address (unlink h b q) = address (h q)
  /\ size (unlink h b q) = size (h q)
  /\ type (unlink h b q) = type (h q)
  /\ process_id (unlink h b q) = process_id (h q)
  /\ is_free (unlink h b q) = is_free (h q).
Proof.
  unfold unlink. cbv zeta.
  destruct (prev (h b) =? 0);
    match goal with
    | |- context [if ?c then _ else _] => destruct c
    end; repeat split; store_solve.
Qed.




(** ** A successful release *)





(** ** Destruction of a process *)


(** ** The initial state *)

(** X1. [memory_init] returns 0 and leaves a well-formed manager, provided
    the user zone does not start at address 0: the allocated list is
    empty and the free list is the single block whose header is at
    [user_memory_start] and whose range starts one header further; no
    process is active and the counters are 0.  When the kernel zone, the
    header and the total fit without wrap-around, that range ends at
    [total_memory]. *)
Theorem memory_init_well_formed (hdr : Z) (s : memory_manager_t)
    (total kernel_start : Z) :
  add32 kernel_start KERNEL_HEAP_SIZE <> 0 ->
  let u := add32 kernel_start KERNEL_HEAP_SIZE in
  let s0 := fst (memory_init hdr s total kernel_start) in
  snd (memory_init hdr s total kernel_start) = 0
  /\ well_formed s0 [] [u]
  /\ dllist (blocks s0) (free_blocks s0) [u]
  /\ blocks s0 u
     = mk_block (add32 u hdr) (sub32 total (add32 u hdr)) MEM_TYPE_FREE 0 true 0 0
  /\ kernel_memory_end s0 = u /\ user_memory_start s0 = u
  /\ user_memory_end s0 = total
  /\ allocations s0 = 0 /\ deallocations s0 = 0 /\ fragmentation_count s0 = 0
  /\ current_process s0 = 0
  /\ (forall i, is_active (processes s0 i) = false)
  /\ (0 <= kernel_start -> 0 <= hdr ->
      kernel_start + KERNEL_HEAP_SIZE + hdr <= total < 2 ^ 32 ->
      address (blocks s0 u) = kernel_start + KERNEL_HEAP_SIZE + hdr
      /\ address (blocks s0 u) + size (blocks s0 u) = total).
Proof.
  intros Hu u s0.
  assert (Hblock : blocks s0 u
            = mk_block (add32 u hdr) (sub32 total (add32 u hdr)) MEM_TYPE_FREE 0
                true 0 0).
  { unfold s0, memory_init. cbv zeta. simpl blocks. fold u. store_reads; reflexivity. }
  split; [reflexivity|].
  split.
  { split; [exact eq_refl|]. split.
    - change (free_blocks s0 = u /\ u <> 0 /\ next (blocks s0 u) = 0).
      rewrite Hblock. repeat split. exact Hu.
    - intros x []. }
  split.
  { change (free_blocks s0 = u /\ u <> 0 /\ prev (blocks s0 u) = 0
            /\ next (blocks s0 u) = 0).
    rewrite Hblock. repeat split. exact Hu. }
  split; [exact Hblock|].
  repeat (split; [reflexivity|]).
  intros Hk Hh Hfit. rewrite Hblock. simpl address. simpl size.
  assert (Eu : u = kernel_start + KERNEL_HEAP_SIZE).
  { unfold u. apply add32_small. unfold KERNEL_HEAP_SIZE in *. lia. }
  rewrite Eu. rewrite (add32_small (kernel_start + KERNEL_HEAP_SIZE) hdr)
    by (unfold KERNEL_HEAP_SIZE in *; lia).
  rewrite sub32_small by (unfold KERNEL_HEAP_SIZE in *; lia).
  split; lia.
Qed.

Lemma memory_init_well_formed_witness :
  snd (memory_init 28 blank 67108864 0) = 0
  /\ well_formed boot [] [8388608]
  /\ dllist (blocks boot) (free_blocks boot) [8388608]
  /\ blocks boot 8388608
     = mk_block 8388636 58720228 MEM_TYPE_FREE 0 true 0 0
  /\ kernel_memory_end boot = 8388608 /\ user_memory_start boot = 8388608
  /\ user_memory_end boot = 67108864
  /\ allocations boot = 0 /\ deallocations boot = 0 /\ fragmentation_count boot = 0
  /\ current_process boot = 0
  /\ (forall i, is_active (processes boot i) = false)
  /\ (0 <= 0 -> 0 <= 28 ->
      0 + KERNEL_HEAP_SIZE + 28 <= 67108864 < 2 ^ 32 ->
      address (blocks boot 8388608) = 0 + KERNEL_HEAP_SIZE + 28
      /\ address (blocks boot 8388608) + size (blocks boot 8388608) = 67108864).
Proof.
  apply (memory_init_well_formed 28 blank 67108864 0).
  vm_compute. intro H. discriminate H.
Defined.

(** ** Release and double release *)








(** ** The block an allocation hands out *)

Lemma allocate_block_tags hdr s b nbytes alignment ty :
  allocated_blocks (fst (allocate_block hdr s b nbytes alignment ty)) = b
  /\ type (blocks (fst (allocate_block hdr s b nbytes alignment ty)) b) = ty
  /\ process_id (blocks (fst (allocate_block hdr s b nbytes alignment ty)) b)
     = current_process s
  /\ is_free (blocks (fst (allocate_block hdr s b nbytes alignment ty)) b) = false
  /\ address (blocks (fst (allocate_block hdr s b nbytes alignment ty)) b)
     = aligned_address (address (blocks s b)) alignment
  /\ snd (allocate_block hdr s b nbytes alignment ty)
     = aligned_address (address (blocks s b)) alignment.
Proof.
  unfold allocate_block. cbv zeta. simpl fst. simpl snd. simpl blocks.
  simpl allocated_blocks.
  split; [reflexivity|].
  match goal with
  | |- context [push_front ?h b ?hd] =>
      destruct (push_front_fields h b hd b) as (Ea & _ & Et & Ep & Ef);
      rewrite Ea, Et, Ep, Ef; clear Ea Et Ep Ef
  end.
  match goal with
  | |- context [unlink ?h b] =>
      destruct (unlink_tags h b b) as (Ea & _ & Et & Ep & Ef);
      rewrite Ea, Et, Ep, Ef; clear Ea Et Ep Ef
  end.
  repeat split; store_solve.
Qed.

(** ** The page-frame allocator *)

Lemma count_free_bounds pf n : forall i, 0 <= count_free pf i n <= Z.of_nat n.
Proof.
  induction n as [|n IH]; intros i.
  - simpl. lia.
  - change (count_free pf i (S n))
      with ((if pf i =? 0 then 1 else 0) + count_free pf (i + 1) n).
    specialize (IH (i + 1)). destruct (pf i =? 0); lia.
Qed.

Lemma count_free_outside pf t v n : forall i,
  t < i \/ i + Z.of_nat n <= t ->
  count_free (fun j => if j =? t then v else pf j) i n = count_free pf i n.
Proof.
  induction n as [|n IH]; intros i Hi.
  - reflexivity.
  - change (count_free ?f i (S n))
      with ((if f i =? 0 then 1 else 0) + count_free f (i + 1) n).
    cbv beta. rewrite IH by lia.
    destruct (Z.eqb_spec i t) as [E | E]; [lia | reflexivity].
Qed.

Lemma count_free_update pf t v n : forall i,
  i <= t < i + Z.of_nat n ->
  count_free (fun j => if j =? t then v else pf j) i n
  = count_free pf i n + (if v =? 0 then 1 else 0) - (if pf t =? 0 then 1 else 0).
Proof.
  induction n as [|n IH]; intros i Hi.
  - simpl in Hi. lia.
  - change (count_free ?f i (S n))
      with ((if f i =? 0 then 1 else 0) + count_free f (i + 1) n).
    cbv beta.
    destruct (Z.eqb_spec i t) as [E | E].
    + subst i. rewrite count_free_outside by lia. lia.
    + rewrite IH by lia. lia.
Qed.

(** A free entry in range keeps the count positive. *)
Lemma count_free_pos pf t n : forall i,
  i <= t < i + Z.of_nat n -> pf t = 0 -> 1 <= count_free pf i n.
Proof.
  induction n as [|n IH]; intros i Hi Ht.
  - simpl in Hi. lia.
  - change (count_free pf i (S n))
      with ((if pf i =? 0 then 1 else 0) + count_free pf (i + 1) n).
    destruct (Z.eqb_spec i t) as [E | E].
    + subst i. rewrite Ht. change (0 =? 0) with true. cbv iota.
      pose proof (count_free_bounds pf n (t + 1)). lia.
    + specialize (IH (i + 1) ltac:(lia) Ht).
      destruct (pf i =? 0); lia.
Qed.

(** An entry in use in range keeps the count below the number of entries. *)
Lemma count_free_below pf t n : forall i,
  i <= t < i + Z.of_nat n -> pf t <> 0 -> count_free pf i n <= Z.of_nat n - 1.
Proof.
  induction n as [|n IH]; intros i Hi Ht.
  - simpl in Hi. lia.
  - change (count_free pf i (S n))
      with ((if pf i =? 0 then 1 else 0) + count_free pf (i + 1) n).
    destruct (Z.eqb_spec i t) as [E | E].
    + subst i. apply Z.eqb_neq in Ht. rewrite Ht.
      pose proof (count_free_bounds pf n (t + 1)). lia.
    + specialize (IH (i + 1) ltac:(lia) Ht). destruct (pf i =? 0); lia.
Qed.

Lemma count_free_all pf n : forall i,
  (forall j, i <= j < i + Z.of_nat n -> pf j = 0) ->
  count_free pf i n = Z.of_nat n.
Proof.
  induction n as [|n IH]; intros i H.
  - reflexivity.
  - change (count_free pf i (S n))
      with ((if pf i =? 0 then 1 else 0) + count_free pf (i + 1) n).
    rewrite (H i) by lia. rewrite IH by (intros j Hj; apply H; lia).
    change (0 =? 0) with true. cbv iota. lia.
Qed.

(** The scan either finds nothing and changes nothing, or takes a free
    entry of its range. *)
Lemma alloc_page_scan_cases s n : forall i,
  alloc_page_scan n i s = (s, 0)
  \/ exists t, i <= t < i + Z.of_nat n /\ page_frames s t = 0
       /\ alloc_page_scan n i s
          = (with_free_pages
               (with_page_frames s (fun j => if j =? t then 1 else page_frames s j))
               (sub32 (free_pages s) 1),
             mul32 t PAGE_SIZE).
Proof.
  induction n as [|n IH]; intros i.
  - left. reflexivity.
  - change (alloc_page_scan (S n) i s)
      with (if page_frames s i =? 0 then
              (with_free_pages
                 (with_page_frames s (fun j => if j =? i then 1 else page_frames s j))
                 (sub32 (free_pages s) 1),
               mul32 i PAGE_SIZE)
            else alloc_page_scan n (i + 1) s).
    destruct (Z.eqb_spec (page_frames s i) 0) as [E | E].
    + right. exists i. split; [lia|]. split; [exact E | reflexivity].
    + destruct (IH (i + 1)) as [H | (t & Ht & Hz & H)].
      * left. exact H.
      * right. exists t. split; [lia|]. split; [exact Hz | exact H].
Qed.

Lemma alloc_page_consistent s :
  pages_consistent s -> pages_consistent (fst (alloc_page s)).
Proof.
  intros ((H0 & H20) & Hc). unfold alloc_page.
  destruct (alloc_page_scan_cases s (Z.to_nat (total_pages s)) 0)
    as [H | (t & Ht & Hz & H)]; rewrite H; simpl fst.
  - split; [split; assumption | exact Hc].
  - rewrite Z2Nat.id in Ht by exact H0.
    split; [split; assumption|]. simpl.
    rewrite count_free_update by (rewrite Z2Nat.id by exact H0; lia).
    rewrite Hz, Hc. simpl Z.eqb. cbv iota.
    pose proof (count_free_pos (page_frames s) t (Z.to_nat (total_pages s)) 0) as Hp.
    rewrite Z2Nat.id in Hp by exact H0. specialize (Hp ltac:(lia) Hz).
    pose proof (count_free_bounds (page_frames s) (Z.to_nat (total_pages s)) 0) as Hb.
    rewrite Z2Nat.id in Hb by exact H0.
    rewrite sub32_small by lia. lia.
Qed.

Lemma free_page_consistent s page :
  0 <= page -> pages_consistent s -> pages_consistent (free_page s page).
Proof.
  intros Hpg ((H0 & H20) & Hc). unfold free_page. cbv zeta.
  assert (Hidx : 0 <= page / PAGE_SIZE) by (apply Z.div_pos; unfold PAGE_SIZE; lia).
  destruct (Z.ltb_spec (page / PAGE_SIZE) (total_pages s)) as [Hlt | Hge];
    [|split; [split; assumption | exact Hc]].
  destruct (Z.eqb_spec (page_frames s (page / PAGE_SIZE)) 1) as [E | E];
    [|split; [split; assumption | exact Hc]].
  simpl andb. cbv iota.
  split; [split; assumption|]. simpl.
  rewrite count_free_update by (rewrite Z2Nat.id by exact H0; lia).
  rewrite E, Hc. simpl Z.eqb. cbv iota.
  pose proof (count_free_below (page_frames s) (page / PAGE_SIZE)
                (Z.to_nat (total_pages s)) 0) as Hp.
  rewrite Z2Nat.id in Hp by exact H0. specialize (Hp ltac:(lia) ltac:(lia)).
  pose proof (count_free_bounds (page_frames s) (Z.to_nat (total_pages s)) 0) as Hb.
  rewrite add32_small by lia. lia.
Qed.

Lemma memory_init_consistent hdr s total kernel_start :
  0 <= total < 2 ^ 32 ->
  pages_consistent (fst (memory_init hdr s total kernel_start)).
Proof.
  intros Ht.
  destruct (memory_init_pages hdr s total kernel_start Ht) as (Hr & Hf & Hz).
  split; [exact Hr|]. rewrite Hf.
  rewrite count_free_all.
  - rewrite Z2Nat.id by lia. reflexivity.
  - intros j Hj. apply Hz. rewrite Z2Nat.id in Hj by lia. lia.
Qed.

(** X7. After [memory_init], whatever calls of [alloc_page] and
    [free_page] follow, [free_pages] is the number of page entries
    [0 .. total_pages-1] that are free. *)
Theorem free_pages_counts_free_entries (hdr : Z) (s : memory_manager_t)
    (total kernel_start : Z) (ops : list page_op) :
  0 <= total < 2 ^ 32 ->
  Forall page_op_in_range ops ->
  pages_consistent
    (fold_left run_page_op ops (fst (memory_init hdr s total kernel_start))).
Proof.
  intros Ht Hops.
  pose proof (memory_init_consistent hdr s total kernel_start Ht) as Hc.
  generalize dependent (fst (memory_init hdr s total kernel_start)).
  induction Hops as [|op ops Hop Hops IH]; intros s0 Hc.
  - exact Hc.
  - simpl. apply IH. destruct op as [|page]; simpl.
    + apply alloc_page_consistent. exact Hc.
    + simpl in Hop. apply free_page_consistent; [lia | exact Hc].
Qed.

Lemma free_pages_counts_free_entries_witness :
  pages_consistent
    (fold_left run_page_op [AllocPage; AllocPage; FreePage 0; FreePage 0; AllocPage]
       (fst (memory_init 28 blank 8192 0))).
Proof.
  apply (free_pages_counts_free_entries 28 blank 8192 0).
  - lia.
  - repeat constructor; simpl; lia.
Defined.

(** X8. A page obtained from [alloc_page] and given back to [free_page]
    leaves the manager as it was: the free-page count, every page entry
    and every other field. *)
Theorem alloc_page_free_page_round_trip (s : memory_manager_t) (t : Z) :
  total_pages s <= 2 ^ 20 ->
  0 <= free_pages s < 2 ^ 32 ->
  0 <= t < total_pages s ->
  page_frames s t = 0 ->
  (forall j, page_frames (free_page (fst (alloc_page s)) (snd (alloc_page s))) j
             = page_frames s j)
  /\ with_page_frames (free_page (fst (alloc_page s)) (snd (alloc_page s)))
       (page_frames s) = s.
Proof.
  intros H20 Hf Ht Hz. unfold alloc_page.
  destruct (alloc_page_scan_cases s (Z.to_nat (total_pages s)) 0)
    as [H | (u & Hu & Hzu & H)].
  - exfalso.
    assert (Hnone : alloc_page s = (s, 0)) by exact H.
    pose proof (alloc_page_scan_found s) as Hfound.
    assert (Hex : exists n, (n <= Z.to_nat t)%nat /\ page_frames s (Z.of_nat n) = 0
                   /\ forall j, 0 <= j < Z.of_nat n -> page_frames s j <> 0).
    { clear - Ht Hz.
      assert (G : forall k : nat,
                 (exists n, (n < k)%nat /\ page_frames s (Z.of_nat n) = 0
                    /\ forall j, 0 <= j < Z.of_nat n -> page_frames s j <> 0)
                 \/ forall j, 0 <= j < Z.of_nat k -> page_frames s j <> 0).
      { induction k as [|k IH].
        - right. intros j Hj. lia.
        - destruct IH as [(n & Hn & Hzn & Hb) | Hall].
          + left. exists n. split; [lia|]. split; assumption.
          + destruct (Z.eq_dec (page_frames s (Z.of_nat k)) 0) as [E | E].
            * left. exists k. split; [lia|]. split; assumption.
            * right. intros j Hj.
              destruct (Z.eq_dec j (Z.of_nat k)) as [-> | Hne];
                [exact E | apply Hall; lia]. }
      destruct (G (S (Z.to_nat t))) as [(n & Hn & Hzn & Hb) | Hall].
      - exists n. split; [lia|]. split; assumption.
      - exfalso. apply (Hall t); [lia | exact Hz]. }
    destruct Hex as (n & Hn & Hzn & Hb).
    rewrite (Hfound (Z.of_nat n) (Z.to_nat (total_pages s)) 0) in H;
      [| lia | exact Hzn | exact Hb].
    assert (Hpf := f_equal (fun x => page_frames (fst x) (Z.of_nat n)) H).
    simpl in Hpf. rewrite Z.eqb_refl in Hpf. lia.
  - rewrite H. simpl fst. simpl snd.
    rewrite Z2Nat.id in Hu by lia.
    assert (Hm : mul32 u PAGE_SIZE / PAGE_SIZE = u).
    { unfold mul32, PAGE_SIZE. rewrite wrap_small.
      - apply Z.div_mul. lia.
      - change (2 ^ 32) with (2 ^ 20 * 4096). nia. }
    unfold free_page. cbv zeta. rewrite Hm. simpl total_pages. simpl page_frames.
    rewrite Z.eqb_refl.
    destruct (Z.ltb_spec u (total_pages s)) as [_ | Hge]; [|lia].
    simpl andb. cbv iota. simpl.
    assert (Hfp : add32 (sub32 (free_pages s) 1) 1 = free_pages s).
    { unfold add32, sub32, wrap.
      rewrite Zplus_mod_idemp_l. replace (free_pages s - 1 + 1) with (free_pages s) by lia.
      apply Z.mod_small. exact Hf. }
    split.
    + intros j. destruct (Z.eqb_spec j u) as [-> | _]; [symmetry; exact Hzu | reflexivity].
    + rewrite Hfp. destruct s; reflexivity.
Qed.

Lemma alloc_page_free_page_round_trip_witness :
  with_page_frames (free_page (fst (alloc_page boot)) (snd (alloc_page boot)))
    (page_frames boot) = boot.
Proof.
  apply (alloc_page_free_page_round_trip boot 5).
  - vm_compute. intro H. discriminate H.
  - split; vm_compute; [intro H; discriminate H | reflexivity].
  - split; vm_compute; [intro H; discriminate H | reflexivity].
  - reflexivity.
Defined.

(** X9. Freeing a page twice counts it once: the second [free_page] of
    the same address changes nothing. *)
Theorem free_page_twice (s : memory_manager_t) (page : Z) :
  free_page (free_page s page) page = free_page s page.
Proof.
  unfold free_page at 2 3. cbv zeta.
  destruct ((page / PAGE_SIZE <? total_pages s)
            && (page_frames s (page / PAGE_SIZE) =? 1)) eqn:Hc.
  - unfold free_page. cbv zeta. simpl total_pages. simpl page_frames.
    rewrite Z.eqb_refl. simpl Z.eqb. rewrite andb_false_r. reflexivity.
  - unfold free_page. cbv zeta. rewrite Hc. reflexivity.
Qed.

(** * The block allocator on bytes *)

(** ** Reads after writes *)

Lemma word_bytes v :
  0 <= v < 2 ^ 32 ->
  v = (v / 2 ^ (8 * 0)) mod 2 ^ 8 + 2 ^ 8 * ((v / 2 ^ (8 * 1)) mod 2 ^ 8)
      + 2 ^ 16 * ((v / 2 ^ (8 * 2)) mod 2 ^ 8) + 2 ^ 24 * ((v / 2 ^ (8 * 3)) mod 2 ^ 8).
Proof.
  intros Hv.
  change (2 ^ (8 * 0)) with 1. change (2 ^ (8 * 1)) with 256.
  change (2 ^ (8 * 2)) with 65536. change (2 ^ (8 * 3)) with 16777216.
  change (2 ^ 8) with 256. change (2 ^ 16) with 65536. change (2 ^ 24) with 16777216.
  change (2 ^ 32) with 4294967296 in Hv.
  rewrite Z.div_1_r.
  pose proof (Z.div_mod v 256 ltac:(lia)) as H0.
  pose proof (Z.mod_pos_bound v 256 ltac:(lia)) as B0.
  pose proof (Z.div_mod (v / 256) 256 ltac:(lia)) as H1.
  pose proof (Z.mod_pos_bound (v / 256) 256 ltac:(lia)) as B1.
  pose proof (Z.div_mod (v / 256 / 256) 256 ltac:(lia)) as H2.
  pose proof (Z.mod_pos_bound (v / 256 / 256) 256 ltac:(lia)) as B2.
  assert (E2 : v / 65536 = v / 256 / 256)
    by (rewrite Z.div_div by lia; reflexivity).
  assert (E3 : v / 16777216 = v / 256 / 256 / 256)
    by (rewrite !Z.div_div by lia; reflexivity).
  rewrite E2, E3.
  assert (B3 : 0 <= v / 256 / 256 / 256 < 256).
  { rewrite <- E3. split; [apply Z.div_pos; lia | apply Z.div_lt_upper_bound; lia]. }
  rewrite (Z.mod_small (v / 256 / 256 / 256) 256) by exact B3.
  lia.
Qed.

Lemma load32_store32_same m a v x :
  x = a -> Bytes.load32 (Bytes.store32 m a v) x = wrap v.
Proof.
  intros ->. unfold Bytes.load32, Bytes.load8, Bytes.store32.
  replace (a <=? a) with true by (symmetry; apply Z.leb_le; lia).
  replace (a <? a + 4) with true by (symmetry; apply Z.ltb_lt; lia).
  replace (a <=? a + 1) with true by (symmetry; apply Z.leb_le; lia).
  replace (a + 1 <? a + 4) with true by (symmetry; apply Z.ltb_lt; lia).
  replace (a <=? a + 2) with true by (symmetry; apply Z.leb_le; lia).
  replace (a + 2 <? a + 4) with true by (symmetry; apply Z.ltb_lt; lia).
  replace (a <=? a + 3) with true by (symmetry; apply Z.leb_le; lia).
  replace (a + 3 <? a + 4) with true by (symmetry; apply Z.ltb_lt; lia).
  simpl andb. cbv iota.
  replace (a - a) with 0 by lia. replace (a + 1 - a) with 1 by lia.
  replace (a + 2 - a) with 2 by lia. replace (a + 3 - a) with 3 by lia.
  assert (Hk : forall k, 0 <= k <= 3 ->
                 (v / 2 ^ (8 * k)) mod 2 ^ 8 = (wrap v / 2 ^ (8 * k)) mod 2 ^ 8).
  { intros k Hk. unfold wrap.
    rewrite <- !Z.shiftr_div_pow2 by lia.
    rewrite <- !Z.land_ones by lia.
    apply Z.bits_inj'. intros i Hi.
    rewrite !Z.land_spec, !Z.shiftr_spec, !Z.land_spec by lia.
    rewrite !Z.testbit_ones_nonneg by lia.
    destruct (Z.ltb_spec i 8) as [Hlt | Hge].
    - replace (i + 8 * k <? 32) with true by (symmetry; apply Z.ltb_lt; lia).
      rewrite !andb_true_r. reflexivity.
    - rewrite !andb_false_r. reflexivity. }
  rewrite !Z.mod_mod by lia.
  rewrite (Hk 0), (Hk 1), (Hk 2), (Hk 3) by lia.
  symmetry. apply word_bytes. apply wrap_range.
Qed.

Lemma load32_store32_other m a v x :
  x + 4 <= a \/ a + 4 <= x -> Bytes.load32 (Bytes.store32 m a v) x = Bytes.load32 m x.
Proof.
  intros H. unfold Bytes.load32, Bytes.load8, Bytes.store32.
  assert (E : forall y, x <= y < x + 4 -> ((a <=? y) && (y <? a + 4)) = false).
  { intros y Hy. destruct (Z.leb_spec a y), (Z.ltb_spec y (a + 4)); simpl; try reflexivity; lia. }
  rewrite (E x), (E (x + 1)), (E (x + 2)), (E (x + 3)) by lia. reflexivity.
Qed.

Lemma load32_store8_other m a v x :
  a < x \/ x + 4 <= a -> Bytes.load32 (Bytes.store8 m a v) x = Bytes.load32 m x.
Proof.
  intros H. unfold Bytes.load32, Bytes.load8, Bytes.store8.
  assert (E : forall y, x <= y < x + 4 -> (y =? a) = false).
  { intros y Hy. apply Z.eqb_neq. lia. }
  rewrite (E x), (E (x + 1)), (E (x + 2)), (E (x + 3)) by lia. reflexivity.
Qed.

Lemma load8_store32_other m a v x :
  x < a \/ a + 4 <= x -> Bytes.load8 (Bytes.store32 m a v) x = Bytes.load8 m x.
Proof.
  intros H. unfold Bytes.load8, Bytes.store32.
  destruct (Z.leb_spec a x), (Z.ltb_spec x (a + 4)); simpl; try reflexivity; lia.
Qed.

Lemma load8_store8_same m a v x :
  x = a -> Bytes.load8 (Bytes.store8 m a v) x = v mod 2 ^ 8.
Proof.
  intros ->. unfold Bytes.load8, Bytes.store8. rewrite Z.eqb_refl.
  apply Z.mod_mod. lia.
Qed.

Lemma load8_store8_other m a v x :
  x <> a -> Bytes.load8 (Bytes.store8 m a v) x = Bytes.load8 m x.
Proof.
  intros H. unfold Bytes.load8, Bytes.store8. apply Z.eqb_neq in H. rewrite H. reflexivity.
Qed.

Lemma load8_range m a : 0 <= Bytes.load8 m a < 2 ^ 8.
Proof. unfold Bytes.load8. apply Z.mod_pos_bound. lia. Qed.

Lemma load32_range m a : word (Bytes.load32 m a).
Proof.
  unfold word, Bytes.load32.
  pose proof (load8_range m a). pose proof (load8_range m (a + 1)).
  pose proof (load8_range m (a + 2)). pose proof (load8_range m (a + 3)).
  change (2 ^ 8) with 256 in *. change (2 ^ 16) with 65536.
  change (2 ^ 24) with 16777216. change (2 ^ 32) with 4294967296. lia.
Qed.

(** ** The header read at a location *)

Lemma type_code_range ty : 0 <= Bytes.type_code ty < 2 ^ 32.
Proof. destruct ty; simpl; lia. Qed.

Lemma decode_type_code ty : Bytes.decode_type (Bytes.type_code ty) = ty.
Proof. destruct ty; reflexivity. Qed.

Ltac peel :=
  match goal with
  | |- context [Bytes.load32 (Bytes.store32 ?m ?a ?v) ?x] =>
      first [ rewrite (load32_store32_same m a v x) by lia
            | rewrite (load32_store32_other m a v x) by lia ]
  | |- context [Bytes.load32 (Bytes.store8 ?m ?a ?v) ?x] =>
      rewrite (load32_store8_other m a v x) by lia
  | |- context [Bytes.load8 (Bytes.store32 ?m ?a ?v) ?x] =>
      rewrite (load8_store32_other m a v x) by lia
  | |- context [Bytes.load8 (Bytes.store8 ?m ?a ?v) ?x] =>
      first [ rewrite (load8_store8_same m a v x) by lia
            | rewrite (load8_store8_other m a v x) by lia ]
  end.

Ltac unfold_bytes :=
  unfold Bytes.decode, Bytes.st_address, Bytes.st_size, Bytes.st_type,
    Bytes.st_process_id, Bytes.st_is_free, Bytes.st_next, Bytes.st_prev,
    Bytes.is_free, Bytes.address, Bytes.size, Bytes.type, Bytes.process_id,
    Bytes.next, Bytes.prev.

(** A store into a header leaves the headers that share no byte with it. *)
Lemma decode_store32_other m a v p :
  p + 28 <= a \/ a + 4 <= p -> Bytes.decode (Bytes.store32 m a v) p = Bytes.decode m p.
Proof. intros H. unfold_bytes. repeat peel. reflexivity. Qed.

Lemma decode_store8_other m a v p :
  p + 28 <= a \/ a < p -> Bytes.decode (Bytes.store8 m a v) p = Bytes.decode m p.
Proof. intros H. unfold_bytes. repeat peel. reflexivity. Qed.

Lemma decode_st_address m p v :
  word v -> Bytes.decode (Bytes.st_address m p v) p = set_address (Bytes.decode m p) v.
Proof.
  intros H. unfold_bytes. unfold set_address. simpl. repeat peel.
  rewrite wrap_small by exact H. reflexivity.
Qed.

Lemma decode_st_size m p v :
  word v -> Bytes.decode (Bytes.st_size m p v) p = set_size (Bytes.decode m p) v.
Proof.
  intros H. unfold_bytes. unfold set_size. simpl. repeat peel.
  rewrite wrap_small by exact H. reflexivity.
Qed.

Lemma decode_st_type m p ty :
  Bytes.decode (Bytes.st_type m p ty) p = set_type (Bytes.decode m p) ty.
Proof.
  unfold_bytes. unfold set_type. simpl. repeat peel.
  rewrite wrap_small by apply type_code_range. rewrite decode_type_code. reflexivity.
Qed.

Lemma decode_st_process_id m p v :
  word v -> Bytes.decode (Bytes.st_process_id m p v) p = set_process_id (Bytes.decode m p) v.
Proof.
  intros H. unfold_bytes. unfold set_process_id. simpl. repeat peel.
  rewrite wrap_small by exact H. reflexivity.
Qed.

Lemma decode_st_is_free m p v :
  Bytes.decode (Bytes.st_is_free m p v) p = set_is_free (Bytes.decode m p) v.
Proof.
  unfold_bytes. unfold set_is_free. simpl. repeat peel.
  destruct v; reflexivity.
Qed.

Lemma decode_st_next m p v :
  word v -> Bytes.decode (Bytes.st_next m p v) p = set_next (Bytes.decode m p) v.
Proof.
  intros H. unfold_bytes. unfold set_next. simpl. repeat peel.
  rewrite wrap_small by exact H. reflexivity.
Qed.

Lemma decode_st_prev m p v :
  word v -> Bytes.decode (Bytes.st_prev m p v) p = set_prev (Bytes.decode m p) v.
Proof.
  intros H. unfold_bytes. unfold set_prev. simpl. repeat peel.
  rewrite wrap_small by exact H. reflexivity.
Qed.

(** ** Headers that share no byte *)

Lemma apart_sym hdr p q : apart hdr p q -> apart hdr q p.
Proof. unfold apart. intros H. repeat destruct H as [H | H]; subst; tauto || lia. Qed.

Lemma headers_apart_In hdr l : forall p q,
  headers_apart hdr l -> In p l -> In q l -> apart hdr p q.
Proof.
  induction l as [|x l IH]; intros p q Hl Hp Hq; [destruct Hp|].
  destruct Hl as (Hx & Hl).
  destruct Hp as [-> | Hp], Hq as [-> | Hq].
  - right. right. left. reflexivity.
  - apply Hx. exact Hq.
  - apply apart_sym. apply Hx. exact Hp.
  - apply IH; assumption.
Qed.

Lemma agree_fields l m h q :
  Bytes.agree l m h -> In q l -> q <> 0 ->
  Bytes.address m q = address (h q)
  /\ Bytes.size m q = size (h q)
  /\ Bytes.process_id m q = process_id (h q)
  /\ Bytes.is_free m q = is_free (h q)
  /\ Bytes.next m q = next (h q)
  /\ Bytes.prev m q = prev (h q).
Proof.
  intros Ha Hq Hq0. rewrite <- (Ha q Hq Hq0). repeat split.
Qed.

(** A field assignment on the bytes is the field assignment on the header
    store, at every location of a set of headers that share no byte. *)
Section Agree.

Variable l : list Z.
Hypothesis Hl : headers_apart 28 l.

Lemma agree_store32 m h p off v g :
  In p l -> p <> 0 -> 0 <= off <= 24 ->
  Bytes.decode (Bytes.store32 m (p + off) v) p = g (Bytes.decode m p) ->
  Bytes.agree l m h -> Bytes.agree l (Bytes.store32 m (p + off) v) (upd h p (g (h p))).
Proof.
  intros Hp Hp0 Hoff Hd Ha q Hq Hq0. unfold upd.
  destruct (Z.eqb_spec q p) as [-> | Hne].
  - rewrite Hd, (Ha p Hp Hp0). reflexivity.
  - rewrite <- (Ha q Hq Hq0). apply decode_store32_other.
    pose proof (headers_apart_In 28 l p q Hl Hp Hq) as H. unfold apart in H. lia.
Qed.

Lemma agree_st_address m h p v :
  In p l -> p <> 0 -> word v -> Bytes.agree l m h ->
  Bytes.agree l (Bytes.st_address m p v) (st_address h p v).
Proof.
  intros Hp Hp0 Hv Ha. unfold st_address.
  pose proof (agree_store32 m h p 0 v (fun b => set_address b v) Hp Hp0) as H.
  rewrite Z.add_0_r in H. apply H; [lia | | exact Ha].
  apply decode_st_address. exact Hv.
Qed.

Lemma agree_st_size m h p v :
  In p l -> p <> 0 -> word v -> Bytes.agree l m h ->
  Bytes.agree l (Bytes.st_size m p v) (st_size h p v).
Proof.
  intros Hp Hp0 Hv Ha. unfold st_size.
  apply (agree_store32 m h p 4 v (fun b => set_size b v) Hp Hp0); [lia | | exact Ha].
  apply decode_st_size. exact Hv.
Qed.

Lemma agree_st_type m h p ty :
  In p l -> p <> 0 -> Bytes.agree l m h ->
  Bytes.agree l (Bytes.st_type m p ty) (st_type h p ty).
Proof.
  intros Hp Hp0 Ha. unfold st_type.
  apply (agree_store32 m h p 8 (Bytes.type_code ty) (fun b => set_type b ty) Hp Hp0);
    [lia | | exact Ha].
  apply decode_st_type.
Qed.

Lemma agree_st_process_id m h p v :
  In p l -> p <> 0 -> word v -> Bytes.agree l m h ->
  Bytes.agree l (Bytes.st_process_id m p v) (st_process_id h p v).
Proof.
  intros Hp Hp0 Hv Ha. unfold st_process_id.
  apply (agree_store32 m h p 12 v (fun b => set_process_id b v) Hp Hp0);
    [lia | | exact Ha].
  apply decode_st_process_id. exact Hv.
Qed.

Lemma agree_st_is_free m h p v :
  In p l -> p <> 0 -> Bytes.agree l m h ->
  Bytes.agree l (Bytes.st_is_free m p v) (st_is_free h p v).
Proof.
  intros Hp Hp0 Ha q Hq Hq0. unfold st_is_free, upd.
  destruct (Z.eqb_spec q p) as [-> | Hne].
  - rewrite decode_st_is_free, (Ha p Hp Hp0). reflexivity.
  - rewrite <- (Ha q Hq Hq0). unfold Bytes.st_is_free. apply decode_store8_other.
    pose proof (headers_apart_In 28 l p q Hl Hp Hq) as H. unfold apart in H. lia.
Qed.

Lemma agree_st_next m h p v :
  In p l -> p <> 0 -> word v -> Bytes.agree l m h ->
  Bytes.agree l (Bytes.st_next m p v) (st_next h p v).
Proof.
  intros Hp Hp0 Hv Ha. unfold st_next.
  apply (agree_store32 m h p 20 v (fun b => set_next b v) Hp Hp0); [lia | | exact Ha].
  apply decode_st_next. exact Hv.
Qed.

Lemma agree_st_prev m h p v :
  In p l -> p <> 0 -> word v -> Bytes.agree l m h ->
  Bytes.agree l (Bytes.st_prev m p v) (st_prev h p v).
Proof.
  intros Hp Hp0 Hv Ha. unfold st_prev.
  apply (agree_store32 m h p 24 v (fun b => set_prev b v) Hp Hp0); [lia | | exact Ha].
  apply decode_st_prev. exact Hv.
Qed.

End Agree.

(** Rewrites the fields read at [q] in the bytes into the fields of the
    cell at [q]. *)
Ltac sync A Hq Hq0 :=
  let Ea := fresh in let Es := fresh in let Ep := fresh in
  let Ef := fresh in let En := fresh in let Ev := fresh in
  destruct (agree_fields _ _ _ _ A Hq Hq0) as (Ea & Es & Ep & Ef & En & Ev);
  rewrite ?Ea, ?Es, ?Ep, ?Ef, ?En, ?Ev; clear Ea Es Ep Ef En Ev.


(** The same for the steps of an allocation. *)
Section Simulation.

Variable l : list Z.
Hypothesis Hl : headers_apart 28 l.

Lemma agree_split_block m h b n al pad :
  Bytes.agree l m h -> In b l -> b <> 0 -> word b ->
  ((add32 (add32 n pad) 28 <? size (h b)) = true ->
   In (add32 al n) l /\ add32 al n <> 0) ->
  next (h b) = 0 \/ In (next (h b)) l -> word (next (h b)) ->
  Bytes.agree l (Bytes.split_block m b n al pad) (split_block 28 h b n al pad).
Proof.
  intros A Hb Hb0 Wb Hnew Hnx Wnx.
  unfold Bytes.split_block, split_block, Bytes.HEADER_SIZE.
  sync A Hb Hb0.
  destruct (add32 (add32 n pad) 28 <? size (h b)); [|exact A].
  destruct (Hnew eq_refl) as (Hnb & Hnb0). clear Hnew.
  cbv zeta.
  assert (Wnb : word (add32 al n)) by apply wrap_range.
  set (nb := add32 al n) in *.
  pose proof (agree_st_address l Hl m h nb nb Hnb Hnb0 Wnb A) as A1.
  set (m1 := Bytes.st_address m nb nb) in *. set (h1 := st_address h nb nb) in *.
  sync A1 Hb Hb0.
  pose proof (agree_st_size l Hl m1 h1 nb (sub32 (sub32 (size (h1 b)) n) pad)
                Hnb Hnb0 (wrap_range _) A1) as A2.
  set (m2 := Bytes.st_size m1 nb _) in *. set (h2 := st_size h1 nb _) in *.
  pose proof (agree_st_type l Hl m2 h2 nb MEM_TYPE_FREE Hnb Hnb0 A2) as A3.
  set (m3 := Bytes.st_type m2 nb _) in *. set (h3 := st_type h2 nb _) in *.
  pose proof (agree_st_process_id l Hl m3 h3 nb 0 Hnb Hnb0 ltac:(unfold word; lia) A3)
    as A4.
  set (m4 := Bytes.st_process_id m3 nb _) in *. set (h4 := st_process_id h3 nb _) in *.
  pose proof (agree_st_is_free l Hl m4 h4 nb true Hnb Hnb0 A4) as A5.
  set (m5 := Bytes.st_is_free m4 nb _) in *. set (h5 := st_is_free h4 nb _) in *.
  sync A5 Hb Hb0.
  assert (E5 : next (h5 b) = next (h b)).
  { unfold h5, h4, h3, h2, h1. store_solve. }
  assert (W5 : word (next (h5 b))) by (rewrite E5; exact Wnx).
  pose proof (agree_st_next l Hl m5 h5 nb (next (h5 b)) Hnb Hnb0 W5 A5) as A6.
  set (m6 := Bytes.st_next m5 nb _) in *. set (h6 := st_next h5 nb _) in *.
  pose proof (agree_st_prev l Hl m6 h6 nb b Hnb Hnb0 Wb A6) as A7.
  set (m7 := Bytes.st_prev m6 nb _) in *. set (h7 := st_prev h6 nb _) in *.
  sync A7 Hb Hb0.
  assert (A8 : Bytes.agree l (if next (h7 b) =? 0 then m7 else Bytes.st_prev m7 (next (h7 b)) nb)
                 (if next (h7 b) =? 0 then h7 else st_prev h7 (next (h7 b)) nb)).
  { assert (E7 : next (h7 b) = next (h b)).
    { unfold h7, h6. rewrite <- E5. store_solve. }
    destruct (Z.eqb_spec (next (h7 b)) 0) as [E | E]; [exact A7|].
    assert (Hin : In (next (h7 b)) l).
    { rewrite E7 in *. destruct Hnx as [H0 | Hi]; [contradiction | exact Hi]. }
    apply agree_st_prev; try assumption. }
  set (m8 := if next (h7 b) =? 0 then m7 else _) in *.
  set (h8 := if next (h7 b) =? 0 then h7 else _) in *.
  pose proof (agree_st_next l Hl m8 h8 b nb Hb Hb0 Wnb A8) as A9.
  apply agree_st_size; try assumption. apply wrap_range.
Qed.

Lemma agree_unlink m h b :
  Bytes.agree l m h -> In b l -> b <> 0 ->
  prev (h b) = 0 \/ In (prev (h b)) l ->
  next (h b) = 0 \/ In (next (h b)) l ->
  word (prev (h b)) -> word (next (h b)) ->
  Bytes.agree l (Bytes.unlink m b) (unlink h b).
Proof.
  intros A Hb Hb0 Hp Hn Wp Wn.
  unfold Bytes.unlink, unlink. cbv zeta.
  sync A Hb Hb0.
  assert (A1 : Bytes.agree l (if prev (h b) =? 0 then m
                        else Bytes.st_next m (prev (h b)) (next (h b)))
                 (if prev (h b) =? 0 then h
                  else st_next h (prev (h b)) (next (h b)))).
  { destruct (Z.eqb_spec (prev (h b)) 0) as [E | E]; [exact A|].
    destruct Hp as [H0 | Hi]; [contradiction|].
    apply agree_st_next; assumption. }
  set (m1 := if prev (h b) =? 0 then m else _) in *.
  set (h1 := if prev (h b) =? 0 then h else _) in *.
  sync A1 Hb Hb0.
  assert (E1 : next (h1 b) = next (h b) /\ prev (h1 b) = prev (h b)).
  { unfold h1. destruct (prev (h b) =? 0); [split; reflexivity|]. split; store_solve. }
  destruct E1 as (En & Ep). rewrite En, Ep.
  destruct (Z.eqb_spec (next (h b)) 0) as [E | E]; [exact A1|].
  destruct Hn as [H0 | Hi]; [contradiction|].
  apply agree_st_prev; assumption.
Qed.

Lemma agree_push_front m h b hd :
  Bytes.agree l m h -> In b l -> b <> 0 -> word b -> word hd ->
  hd = 0 \/ In hd l ->
  Bytes.agree l (Bytes.push_front m b hd) (push_front h b hd).
Proof.
  intros A Hb Hb0 Wb Wh Hh.
  unfold Bytes.push_front, push_front. cbv zeta.
  pose proof (agree_st_prev l Hl m h b 0 Hb Hb0 ltac:(unfold word; lia) A) as A1.
  pose proof (agree_st_next l Hl _ _ b hd Hb Hb0 Wh A1) as A2.
  destruct (Z.eqb_spec hd 0) as [E | E]; [exact A2|].
  destruct Hh as [H0 | Hi]; [contradiction|].
  apply agree_st_prev; assumption.
Qed.

End Simulation.

(** The links of [b] after the split and the marking are among the
    pointers the allocation started from. *)
Lemma split_block_links h b n al pad ty pid :
  let h1 := split_block 28 h b n al pad in
  let h2 := st_address (st_is_free (st_process_id (st_type h1 b ty) b pid) b false)
              b al in
  (if add32 (add32 n pad) 28 <? size (h b)
   then next (h2 b) = add32 al n
        /\ (prev (h2 b) = prev (h b) \/ prev (h2 b) = b \/ prev (h2 b) = add32 al n)
   else next (h2 b) = next (h b) /\ prev (h2 b) = prev (h b)).
Proof.
  intros h1 h2.
  assert (E : next (h2 b) = next (h1 b) /\ prev (h2 b) = prev (h1 b))
    by (unfold h2; split; store_solve).
  destruct E as (-> & ->). unfold h1, split_block.
  destruct (add32 (add32 n pad) 28 <? size (h b)); [|split; reflexivity].
  cbv zeta. set (nb := add32 al n). clearbody nb.
  split.
  - store_solve.
  - generalize (sub32 (sub32 (size (st_address h nb nb b)) n) pad). intros sz.
    generalize (add32 n pad). intros sz2.
    match goal with
    | |- context [if ?c then _ else _] => destruct c
    end; store_reads; auto.
Qed.

Lemma word_0 : word 0.
Proof. unfold word. lia. Qed.

(** On headers that share no byte, the allocation on the bytes is the
    allocation on the header store. *)
Lemma allocate_block_agrees l s b n alignment ty :
  let al := aligned_address (Bytes.address (Bytes.mem s) b) alignment in
  let pad := sub32 al (Bytes.address (Bytes.mem s) b) in
  headers_apart 28 l ->
  (forall q, In q l -> word q) ->
  In b l -> b <> 0 ->
  (forall q, In q (written_headers 28 (view s) b n alignment) -> q = 0 \/ In q l) ->
  ((add32 (add32 n pad) 28 <? Bytes.size (Bytes.mem s) b) = true -> add32 al n <> 0) ->
  word (Bytes.current_process s) ->
  Bytes.agree l (Bytes.mem (fst (Bytes.allocate_block s b n alignment ty)))
    (blocks (fst (allocate_block 28 (view s) b n alignment ty)))
  /\ Bytes.free_blocks (fst (Bytes.allocate_block s b n alignment ty))
     = free_blocks (fst (allocate_block 28 (view s) b n alignment ty))
  /\ Bytes.allocated_blocks (fst (Bytes.allocate_block s b n alignment ty))
     = allocated_blocks (fst (allocate_block 28 (view s) b n alignment ty))
  /\ snd (Bytes.allocate_block s b n alignment ty)
     = snd (allocate_block 28 (view s) b n alignment ty).
Proof.
  intros al pad Hl Hw Hb Hb0 Hwr Hnb Wc.
  assert (Wb : word b) by (apply Hw; exact Hb).
  assert (Hin : forall q, q = 0 \/ In q l -> word q).
  { intros q [-> | Hq]; [apply word_0 | apply Hw; exact Hq]. }
  unfold written_headers in Hwr. cbv zeta in Hwr.
  cbn [blocks view allocated_blocks] in Hwr.
  change (address (Bytes.decode (Bytes.mem s) b)) with (Bytes.address (Bytes.mem s) b) in Hwr.
  change (size (Bytes.decode (Bytes.mem s) b)) with (Bytes.size (Bytes.mem s) b) in Hwr.
  fold al pad in Hwr.
  assert (Hnext : next (Bytes.decode (Bytes.mem s) b) = 0 \/ In (next (Bytes.decode (Bytes.mem s) b)) l).
  { apply Hwr. apply in_or_app. right. left. reflexivity. }
  assert (Hprev : prev (Bytes.decode (Bytes.mem s) b) = 0 \/ In (prev (Bytes.decode (Bytes.mem s) b)) l).
  { apply Hwr. apply in_or_app. right. right. left. reflexivity. }
  assert (Hhead : Bytes.allocated_blocks s = 0 \/ In (Bytes.allocated_blocks s) l).
  { apply Hwr. apply in_or_app. right. right. right. left. reflexivity. }
  assert (Hnew : (add32 (add32 n pad) 28 <? Bytes.size (Bytes.mem s) b) = true ->
                 In (add32 al n) l /\ add32 al n <> 0).
  { intros Hc. specialize (Hnb Hc). split; [|exact Hnb].
    rewrite Hc in Hwr. destruct (Hwr (add32 al n)) as [H0 | Hi];
      [left; reflexivity | contradiction | exact Hi]. }
  clear Hwr Hnb.
  unfold Bytes.allocate_block, allocate_block. cbv zeta.
  cbn [fst snd blocks view allocated_blocks free_blocks current_process
         Bytes.mem Bytes.allocated_blocks Bytes.free_blocks].
  change (address (Bytes.decode (Bytes.mem s) b)) with (Bytes.address (Bytes.mem s) b).
  fold al pad.
  set (m := Bytes.mem s) in *. set (h := Bytes.decode m) in *.
  assert (A0 : Bytes.agree l m h) by (intros q _ _; reflexivity).
  pose proof (agree_split_block l Hl m h b n al pad A0 Hb Hb0 Wb Hnew Hnext
                (Hin _ Hnext)) as A1.
  set (m1 := Bytes.split_block m b n al pad) in *.
  set (h1 := split_block 28 h b n al pad) in *.
  pose proof (agree_st_type l Hl m1 h1 b ty Hb Hb0 A1) as A2.
  pose proof (agree_st_process_id l Hl _ _ b (Bytes.current_process s) Hb Hb0 Wc A2) as A3.
  pose proof (agree_st_is_free l Hl _ _ b false Hb Hb0 A3) as A4.
  pose proof (agree_st_address l Hl _ _ b al Hb Hb0 (aligned_address_range _ _) A4) as A5.
  pose proof (split_block_links h b n al pad ty (Bytes.current_process s)) as Lk.
  cbv zeta in Lk. fold h1 in Lk.
  change (size (h b)) with (Bytes.size m b) in Lk.
  set (m5 := Bytes.st_address _ b al) in *.
  set (h5 := st_address _ b al) in *.
  assert (Hlinks : (next (h5 b) = 0 \/ In (next (h5 b)) l)
                   /\ (prev (h5 b) = 0 \/ In (prev (h5 b)) l)).
  { destruct (add32 (add32 n pad) 28 <? Bytes.size m b).
    - destruct Lk as (-> & Lp). destruct (Hnew eq_refl) as (Hi & _).
      split; [right; exact Hi|].
      destruct Lp as [-> | [-> | ->]]; [exact Hprev | right; exact Hb | right; exact Hi].
    - destruct Lk as (-> & ->). split; assumption. }
  destruct Hlinks as (Hn5 & Hp5).
  pose proof (agree_unlink l Hl m5 h5 b A5 Hb Hb0 Hp5 Hn5 (Hin _ Hp5) (Hin _ Hn5)) as A6.
  pose proof (agree_push_front l Hl _ _ b (Bytes.allocated_blocks s) A6 Hb Hb0 Wb
                (Hin _ Hhead) Hhead) as A7.
  split; [exact A7|].
  split.
  { unfold Bytes.unlinked_head, unlinked_head. sync A5 Hb Hb0. reflexivity. }
  split; reflexivity.
Qed.

(** X25. The header store is exact on headers that share no byte.  Let [l]
    be 32-bit locations of headers that pairwise share no byte, among
    them the block [b] and every header the allocation from [b] writes
    (the new header of the split, not null, the list neighbours of [b]
    and the head of the allocated list).  Then the allocation on the
    bytes and the allocation on the header store read off those bytes
    leave the same header at every location of [l], the same heads of
    the two lists and return the same address. *)
Theorem allocate_block_simulation (l : list Z) (s : Bytes.memory_manager_t)
    (b n alignment : Z) (ty : memory_type_t) :
  let al := aligned_address (Bytes.address (Bytes.mem s) b) alignment in
  let pad := sub32 al (Bytes.address (Bytes.mem s) b) in
  headers_apart 28 l ->
  (forall q, In q l -> word q) ->
  In b l -> b <> 0 ->
  (forall q, In q (written_headers 28 (view s) b n alignment) -> q = 0 \/ In q l) ->
  ((add32 (add32 n pad) 28 <? Bytes.size (Bytes.mem s) b) = true -> add32 al n <> 0) ->
  word (Bytes.current_process s) ->
  Bytes.agree l (Bytes.mem (fst (Bytes.allocate_block s b n alignment ty)))
    (blocks (fst (allocate_block 28 (view s) b n alignment ty)))
  /\ Bytes.free_blocks (fst (Bytes.allocate_block s b n alignment ty))
     = free_blocks (fst (allocate_block 28 (view s) b n alignment ty))
  /\ Bytes.allocated_blocks (fst (Bytes.allocate_block s b n alignment ty))
     = allocated_blocks (fst (allocate_block 28 (view s) b n alignment ty))
  /\ snd (Bytes.allocate_block s b n alignment ty)
     = snd (allocate_block 28 (view s) b n alignment ty).
Proof. exact (allocate_block_agrees l s b n alignment ty). Qed.

(** ** What an allocation leaves alone *)

Lemma bytes_memory_defragment_frame fuel s s1 :
  Bytes.memory_defragment fuel s = Some s1 ->
  Bytes.total_memory s1 = Bytes.total_memory s
  /\ Bytes.available_memory s1 = Bytes.available_memory s
  /\ Bytes.kernel_memory_start s1 = Bytes.kernel_memory_start s
  /\ Bytes.kernel_memory_end s1 = Bytes.kernel_memory_end s
  /\ Bytes.user_memory_start s1 = Bytes.user_memory_start s
  /\ Bytes.user_memory_end s1 = Bytes.user_memory_end s
  /\ Bytes.free_blocks s1 = Bytes.free_blocks s
  /\ Bytes.allocated_blocks s1 = Bytes.allocated_blocks s
  /\ Bytes.processes s1 = Bytes.processes s
  /\ Bytes.current_process s1 = Bytes.current_process s
  /\ Bytes.page_frames s1 = Bytes.page_frames s
  /\ Bytes.total_pages s1 = Bytes.total_pages s
  /\ Bytes.free_pages s1 = Bytes.free_pages s
  /\ Bytes.allocations s1 = Bytes.allocations s
  /\ Bytes.deallocations s1 = Bytes.deallocations s
  /\ Bytes.fragmentation_count s1 = add32 (Bytes.fragmentation_count s) 1.
Proof.
  unfold Bytes.memory_defragment. intros H.
  destruct (Bytes.defragment_loop fuel (Bytes.mem s) (Bytes.allocated_blocks s)
              (Bytes.user_memory_start s)) as [[m na]|]; [|discriminate].
  inversion H. subst s1. simpl. repeat split.
Qed.

(** An allocation on the bytes either fails, after a defragmentation pass
    or without one, or takes a block [b] of a state [s1] that is [s] or
    what the pass made of it. *)
Lemma bytes_memory_alloc_aligned_cases fuel s nbytes alignment ty s' ret :
  Bytes.memory_alloc_aligned fuel s nbytes alignment ty = Some (s', ret) ->
  (s' = s /\ ret = 0 /\ nbytes = 0)
  \/ (Bytes.memory_defragment fuel s = Some s' /\ ret = 0)
  \/ exists s1 b,
       (s1 = s \/ Bytes.memory_defragment fuel s = Some s1)
       /\ b <> 0
       /\ Bytes.allocate_block s1 b nbytes alignment ty = (s', ret).
Proof.
  unfold Bytes.memory_alloc_aligned. intros H.
  destruct (Z.eqb_spec nbytes 0) as [Hn | Hn].
  { inversion H. left. repeat split. exact Hn. }
  destruct (Bytes.find_free_block fuel s nbytes alignment) as [b|]; [|discriminate].
  destruct (Z.eqb_spec b 0) as [Hb | Hb].
  - destruct (Bytes.memory_defragment fuel s) as [s1|]; [|discriminate].
    destruct (Bytes.find_free_block fuel s1 nbytes alignment) as [b1|]; [|discriminate].
    destruct (Z.eqb_spec b1 0) as [Hb1 | Hb1].
    + inversion H. right. left. split; reflexivity.
    + right. right. exists s1, b1. split; [right; reflexivity|].
      split; [exact Hb1 | congruence].
  - right. right. exists s, b. split; [left; reflexivity|].
    split; [exact Hb | congruence].
Qed.

(** X24. On the bytes of the machine, where an allocation may run the
    defragmentation pass with its [memmove] and may write a header over
    another one, the address returned with a power-of-two alignment is
    still a multiple of the alignment, null included. *)
Theorem memory_alloc_aligned_is_aligned_on_bytes (fuel : nat)
    (s s' : Bytes.memory_manager_t) (nbytes alignment ret : Z) (ty : memory_type_t)
    (k : Z) :
  0 <= k <= 31 -> alignment = 2 ^ k ->
  Bytes.memory_alloc_aligned fuel s nbytes alignment ty = Some (s', ret) ->
  (alignment | ret).
Proof.
  intros Hk Hal Hr.
  destruct (bytes_memory_alloc_aligned_cases _ _ _ _ _ _ _ Hr)
    as [(_ & E & _) | [(_ & E) | (s1 & b & _ & _ & E)]].
  - subst ret. apply Z.divide_0_r.
  - subst ret. apply Z.divide_0_r.
  - apply (f_equal snd) in E. simpl in E. subst ret alignment.
    apply aligned_address_divide. exact Hk.
Qed.

(** X5. On the bytes of the machine an allocation, whatever its outcome
    and whether or not it runs the defragmentation pass, never touches
    the process table, the current owner, [deallocations], the zones, the
    page counters or the pointer to the page table.  Either [allocations],
    [available_memory] and the heads of the two lists are unchanged and
    the result is null, or [allocations] grows by one, [available_memory]
    drops by the requested size, padding and header not being counted,
    and the allocated list is not empty.  [fragmentation_count] is
    unchanged or grows by one. *)
Theorem memory_alloc_aligned_frame (fuel : nat)
    (s s' : Bytes.memory_manager_t) (nbytes alignment ret : Z) (ty : memory_type_t) :
  Bytes.memory_alloc_aligned fuel s nbytes alignment ty = Some (s', ret) ->
  Bytes.processes s' = Bytes.processes s
  /\ Bytes.current_process s' = Bytes.current_process s
  /\ Bytes.deallocations s' = Bytes.deallocations s
  /\ Bytes.total_memory s' = Bytes.total_memory s
  /\ Bytes.kernel_memory_start s' = Bytes.kernel_memory_start s
  /\ Bytes.kernel_memory_end s' = Bytes.kernel_memory_end s
  /\ Bytes.user_memory_start s' = Bytes.user_memory_start s
  /\ Bytes.user_memory_end s' = Bytes.user_memory_end s
  /\ Bytes.page_frames s' = Bytes.page_frames s
  /\ Bytes.total_pages s' = Bytes.total_pages s
  /\ Bytes.free_pages s' = Bytes.free_pages s
  /\ ((Bytes.allocations s' = Bytes.allocations s
       /\ Bytes.available_memory s' = Bytes.available_memory s
       /\ Bytes.allocated_blocks s' = Bytes.allocated_blocks s
       /\ Bytes.free_blocks s' = Bytes.free_blocks s
       /\ ret = 0)
      \/ (Bytes.allocations s' = add32 (Bytes.allocations s) 1
          /\ Bytes.available_memory s' = sub32 (Bytes.available_memory s) nbytes
          /\ Bytes.allocated_blocks s' <> 0))
  /\ (Bytes.fragmentation_count s' = Bytes.fragmentation_count s
      \/ Bytes.fragmentation_count s' = add32 (Bytes.fragmentation_count s) 1).
Proof.
  intros H.
  destruct (bytes_memory_alloc_aligned_cases _ _ _ _ _ _ _ H)
    as [(E & Er & _) | [(Hd & Er) | (s1 & b & Hs1 & Hb & E)]].
  - subst s' ret. repeat split; left; repeat split.
  - destruct (bytes_memory_defragment_frame fuel s s' Hd)
      as (E1 & E2 & E3 & E4 & E5 & E6 & E7 & E8 & E9 & E10 & E11 & E12 & E13
          & E14 & E15 & E16).
    subst ret.
    rewrite E1, E2, E3, E4, E5, E6, E7, E8, E9, E10, E11, E12, E13, E14, E15, E16.
    repeat split; [left; repeat split | right; reflexivity].
  - apply (f_equal fst) in E. simpl in E. subst s'.
    destruct Hs1 as [-> | Hd].
    + simpl. repeat split; [right; repeat split; exact Hb | left; reflexivity].
    + destruct (bytes_memory_defragment_frame fuel s s1 Hd)
        as (E1 & E2 & E3 & E4 & E5 & E6 & E7 & E8 & E9 & E10 & E11 & E12 & E13
            & E14 & E15 & E16).
      simpl.
      rewrite E1, E2, E3, E4, E5, E6, E9, E10, E11, E12, E13, E14, E15, E16.
      repeat split; [right; repeat split; exact Hb | right; reflexivity].
Qed.

(** ** The memory of a new process *)

(** A successful allocation on the bytes, as [process_memory_create] sees
    it. *)
Lemma bytes_memory_alloc_taken_facts fuel s nbytes ty s' ret :
  Bytes.memory_alloc fuel s nbytes ty = Some (s', ret) ->
  ret <> 0 ->
  Bytes.processes s' = Bytes.processes s
  /\ Bytes.current_process s' = Bytes.current_process s
  /\ Bytes.available_memory s' = sub32 (Bytes.available_memory s) nbytes
  /\ Bytes.allocations s' = add32 (Bytes.allocations s) 1
  /\ Bytes.deallocations s' = Bytes.deallocations s
  /\ Bytes.allocated_blocks s' <> 0.
Proof.
  unfold Bytes.memory_alloc. intros H Hr.
  destruct (bytes_memory_alloc_aligned_cases _ _ _ _ _ _ _ H)
    as [(_ & E & _) | [(_ & E) | (s1 & b & Hs1 & Hb & E)]]; [congruence | congruence |].
  apply (f_equal fst) in E. simpl in E. subst s'. simpl.
  destruct Hs1 as [-> | Hd].
  - repeat split. exact Hb.
  - destruct (bytes_memory_defragment_frame fuel s s1 Hd)
      as (_ & E2 & _ & _ & _ & _ & _ & _ & E9 & E10 & _ & _ & _ & E14 & E15 & _).
    rewrite E2, E9, E10, E14, E15. repeat split. exact Hb.
Qed.

(** X10. On the bytes of the machine, when [process_memory_create]
    returns 0, after a defragmentation pass or without one, slot [pid] of
    the process table is active and describes a code block and a stack
    block with non-null addresses, the heap being empty at the end of the
    code; the other slots are unchanged; two allocations were made,
    [available_memory] went down by the code size and [STACK_SIZE], and
    the allocated list is not empty. *)
Theorem process_memory_create_success (fuel : nat)
    (s s' : Bytes.memory_manager_t) (pid code_size : Z) :
  Bytes.process_memory_create fuel s pid code_size = Some (s', 0) ->
  pid < MAX_PROCESSES
  /\ is_active (Bytes.processes s' pid) = true
  /\ pm_process_id (Bytes.processes s' pid) = pid
  /\ code_start (Bytes.processes s' pid) <> 0
  /\ stack_start (Bytes.processes s' pid) <> 0
  /\ code_end (Bytes.processes s' pid)
     = add32 (code_start (Bytes.processes s' pid)) code_size
  /\ stack_end (Bytes.processes s' pid)
     = add32 (stack_start (Bytes.processes s' pid)) STACK_SIZE
  /\ heap_start (Bytes.processes s' pid) = code_end (Bytes.processes s' pid)
  /\ heap_end (Bytes.processes s' pid) = code_end (Bytes.processes s' pid)
  /\ total_allocated (Bytes.processes s' pid) = add32 code_size STACK_SIZE
  /\ page_directory (Bytes.processes s' pid)
     = page_directory (Bytes.processes s pid)
  /\ (forall j, j <> pid -> Bytes.processes s' j = Bytes.processes s j)
  /\ Bytes.current_process s' = Bytes.current_process s
  /\ Bytes.allocations s' = add32 (add32 (Bytes.allocations s) 1) 1
  /\ Bytes.available_memory s'
     = sub32 (sub32 (Bytes.available_memory s) code_size) STACK_SIZE
  /\ Bytes.deallocations s' = Bytes.deallocations s
  /\ Bytes.allocated_blocks s' <> 0.
Proof.
  unfold Bytes.process_memory_create. intros H.
  destruct (Z.leb_spec MAX_PROCESSES pid) as [Hge | Hlt]; [discriminate H|].
  destruct (Bytes.memory_alloc fuel s code_size MEM_TYPE_USER) as [[s1 code]|] eqn:H1;
    [|discriminate H].
  cbv zeta in H.
  destruct (Z.eqb_spec code 0) as [Hc | Hc]; [discriminate H|].
  destruct (bytes_memory_alloc_taken_facts _ _ _ _ _ _ H1 Hc)
    as (P1 & C1 & A1 & N1 & D1 & _).
  match type of H with
  | match Bytes.memory_alloc fuel ?st STACK_SIZE MEM_TYPE_USER with _ => _ end = _ =>
      set (s1' := st) in *
  end.
  destruct (Bytes.memory_alloc fuel s1' STACK_SIZE MEM_TYPE_USER) as [[s2 stack]|] eqn:H2;
    [|discriminate H].
  destruct (Z.eqb_spec stack 0) as [Hs | Hs].
  { destruct (Bytes.memory_free fuel _ _) as [[s3 r]|]; discriminate H. }
  destruct (bytes_memory_alloc_taken_facts _ _ _ _ _ _ H2 Hs)
    as (P2 & C2 & A2 & N2 & D2' & Hhead).
  assert (D2 : Bytes.deallocations s2 = Bytes.deallocations s).
  { rewrite D2'. unfold s1'. simpl. exact D1. }
  assert (E : s' = Bytes.with_processes s2
                (upd_process
                   (Bytes.processes (Bytes.with_processes s2
                      (upd_process (Bytes.processes s2) pid
                         (set_stack_start (Bytes.processes s2 pid) stack)))) pid
                   (set_is_active
                      (set_total_allocated
                         (set_pm_process_id
                            (set_heap_end
                               (set_heap_start
                                  (set_stack_end
                                     (Bytes.processes (Bytes.with_processes s2
                                        (upd_process (Bytes.processes s2) pid
                                           (set_stack_start (Bytes.processes s2 pid) stack)))
                                        pid)
                                     (add32 stack STACK_SIZE))
                                  (code_end (Bytes.processes s2 pid)))
                               (code_end (Bytes.processes s2 pid)))
                            pid)
                         (add32 code_size STACK_SIZE))
                      true))).
  { inversion H. subst s'. simpl. unfold upd_process. rewrite Z.eqb_refl.
    reflexivity. }
  clear H. subst s'.
  assert (Hp2 : Bytes.processes s2 pid
                = set_code_end (set_code_start (Bytes.processes s pid) code)
                    (add32 code code_size)).
  { rewrite P2. unfold s1'. simpl. unfold upd_process. rewrite !Z.eqb_refl.
    rewrite P1. reflexivity. }
  assert (Ho : forall j, j <> pid -> Bytes.processes s2 j = Bytes.processes s j).
  { intros j Hj. rewrite P2. unfold s1'. simpl. unfold upd_process.
    apply Z.eqb_neq in Hj. rewrite Hj. rewrite P1. reflexivity. }
  assert (Hcur : Bytes.current_process s2 = Bytes.current_process s).
  { rewrite C2. unfold s1'. simpl. exact C1. }
  assert (Hall : Bytes.allocations s2 = add32 (add32 (Bytes.allocations s) 1) 1).
  { rewrite N2. unfold s1'. simpl. rewrite N1. reflexivity. }
  assert (Hav : Bytes.available_memory s2
                = sub32 (sub32 (Bytes.available_memory s) code_size) STACK_SIZE).
  { rewrite A2. unfold s1'. simpl. rewrite A1. reflexivity. }
  simpl. unfold upd_process. rewrite !Z.eqb_refl. simpl. rewrite Hp2. simpl.
  split; [exact Hlt|]. split; [reflexivity|]. split; [reflexivity|].
  split; [exact Hc|]. split; [exact Hs|]. split; [reflexivity|].
  split; [reflexivity|]. split; [reflexivity|]. split; [reflexivity|].
  split; [reflexivity|]. split; [reflexivity|].
  split.
  { intros j Hj. pose proof (Ho j Hj) as Hoj.
    apply Z.eqb_neq in Hj. rewrite Hj. exact Hoj. }
  split; [exact Hcur|]. split; [exact Hall|]. split; [exact Hav|].
  split; [exact D2 | exact Hhead].
Qed.


(** ** The block an allocation hands out *)

Lemma bytes_memory_alloc_aligned_winning fuel s nbytes alignment ty s1 b :
  nbytes <> 0 ->
  Bytes.winning_block fuel s nbytes alignment s1 b ->
  Bytes.memory_alloc_aligned fuel s nbytes alignment ty
  = Some (Bytes.allocate_block s1 b nbytes alignment ty).
Proof.
  intros Hn (Hb & [(-> & Hf) | (Hf & Hd & Hf1)]); unfold Bytes.memory_alloc_aligned.
  - apply Z.eqb_neq in Hn, Hb. rewrite Hn, Hf, Hb. reflexivity.
  - apply Z.eqb_neq in Hn, Hb. rewrite Hn, Hf. simpl. rewrite Hd, Hf1, Hb. reflexivity.
Qed.

Lemma bytes_winning_block_frame fuel s nbytes alignment s1 b :
  Bytes.winning_block fuel s nbytes alignment s1 b ->
  Bytes.processes s1 = Bytes.processes s
  /\ Bytes.current_process s1 = Bytes.current_process s
  /\ Bytes.available_memory s1 = Bytes.available_memory s
  /\ Bytes.allocations s1 = Bytes.allocations s
  /\ Bytes.deallocations s1 = Bytes.deallocations s.
Proof.
  intros (_ & [(-> & _) | (_ & Hd & _)]).
  - repeat split.
  - destruct (bytes_memory_defragment_frame _ _ _ Hd)
      as (_ & E2 & _ & _ & _ & _ & _ & _ & E9 & E10 & _ & _ & _ & E14 & E15 & _).
    repeat split; assumption.
Qed.

(** The headers [l] of a list are read alike in a memory and in a header
    store that agree on them. *)
Lemma agree_lseg l m h : forall k p q,
  Bytes.agree l m h -> (forall x, In x k -> In x l) ->
  lseg h p k q -> lseg (Bytes.decode m) p k q.
Proof.
  induction k as [|x k IH]; intros p q A Hk H; [exact H|].
  simpl in H. destruct H as (Hp & Hx & Hrest).
  change (p = x /\ x <> 0 /\ lseg (Bytes.decode m) (next (Bytes.decode m x)) k q).
  split; [exact Hp|]. split; [exact Hx|].
  rewrite (A x (Hk x (or_introl eq_refl)) Hx).
  apply IH; [exact A | intros y Hy; apply Hk; right; exact Hy | exact Hrest].
Qed.

Lemma bytes_allocate_block_pair s b nbytes alignment ty :
  Bytes.allocate_block s b nbytes alignment ty
  = (fst (Bytes.allocate_block s b nbytes alignment ty),
     aligned_address (Bytes.address (Bytes.mem s) b) alignment).
Proof. reflexivity. Qed.

(** The headers an allocation writes, when the block comes from a
    doubly-linked free list: the neighbours of the block are in the list. *)
Lemma written_headers_of_list s1 b nbytes alignment l1 l2 l :
  dllist (blocks s1) (free_blocks s1) (l1 ++ b :: l2) ->
  (forall q, In q (l1 ++ b :: l2) -> In q l) ->
  In (allocated_blocks s1) l ->
  ((add32 (add32 nbytes
             (sub32 (aligned_address (address (blocks s1 b)) alignment)
                (address (blocks s1 b)))) 28 <? size (blocks s1 b)) = true ->
   In (add32 (aligned_address (address (blocks s1 b)) alignment) nbytes) l) ->
  forall q, In q (written_headers 28 s1 b nbytes alignment) -> q = 0 \/ In q l.
Proof.
  intros Hd Hsub Hhd Hnew q Hq.
  unfold written_headers in Hq. cbv zeta in Hq.
  apply in_app_or in Hq. destruct Hq as [Hq | Hq].
  - destruct (_ <? _); [|destruct Hq].
    destruct Hq as [<- | []]. right. apply Hnew. reflexivity.
  - simpl in Hq. destruct Hq as [<- | [<- | [<- | []]]].
    + destruct (dllist_next_cases _ _ _ _ _ Hd) as [E | Hi]; [left; exact E|].
      right. apply Hsub. apply in_or_app. right. right. exact Hi.
    + destruct (dllist_prev_cases _ _ _ _ _ Hd)
        as [(_ & E & _) | (_ & _ & Hi & _)]; [left; exact E|].
      right. apply Hsub. apply in_or_app. left. exact Hi.
    + right. exact Hhd.
Qed.

(** X11. The split, on the bytes of the machine.  Let [b], of size [S], be
    the block an allocation of [nbytes] takes from a doubly-linked free
    list [l1 ++ b :: l2], with [nbytes + padding + 28] below 2^32.  The
    allocation returns the aligned address and [b] heads the allocated
    list.  When [S - nbytes - padding] exceeds the header size 28, the
    location [nb] = [aligned address + nbytes] is not null, holds no
    header of the free list and shares no byte with a header of the free
    list or with the head of the allocated list, the free list becomes
    [l1 ++ nb :: l2]: the new block [nb] is free, has the address [nb]
    and the size [S - nbytes - padding], and the size of [b] becomes
    [nbytes + padding].  When [S - nbytes - padding] does not exceed 28
    and the headers of the free list and the head of the allocated list
    share no byte, there is no new block: the free list becomes
    [l1 ++ l2], [b] keeps its whole size [S] and the other free blocks
    keep their address and size. *)
Theorem memory_alloc_aligned_split (fuel : nat)
    (s s1 : Bytes.memory_manager_t) (b nbytes alignment : Z) (ty : memory_type_t)
    (l1 l2 : list Z) :
  let h := Bytes.decode (Bytes.mem s1) in
  let al := aligned_address (address (h b)) alignment in
  let pad := sub32 al (address (h b)) in
  let S := size (h b) in
  let nb := add32 al nbytes in
  Bytes.winning_block fuel s nbytes alignment s1 b ->
  dllist h (Bytes.free_blocks s1) (l1 ++ b :: l2) ->
  0 < nbytes -> nbytes + pad + 28 < 2 ^ 32 ->
  word (Bytes.current_process s1) ->
  (forall q, In q (Bytes.allocated_blocks s1 :: l1 ++ b :: l2) -> word q) ->
  exists s',
    Bytes.memory_alloc_aligned fuel s nbytes alignment ty = Some (s', al)
    /\ Bytes.allocated_blocks s' = b
    /\ (28 < S - nbytes - pad -> nb <> 0 -> ~ In nb (l1 ++ b :: l2) ->
        headers_apart 28 (nb :: Bytes.allocated_blocks s1 :: l1 ++ b :: l2) ->
        llist (Bytes.decode (Bytes.mem s')) (Bytes.free_blocks s') (l1 ++ nb :: l2)
        /\ Bytes.address (Bytes.mem s') nb = nb
        /\ Bytes.size (Bytes.mem s') nb = S - nbytes - pad
        /\ Bytes.is_free (Bytes.mem s') nb = true
        /\ Bytes.size (Bytes.mem s') b = nbytes + pad
        /\ Bytes.address (Bytes.mem s') b = al
        /\ Bytes.is_free (Bytes.mem s') b = false)
    /\ (S - nbytes - pad <= 28 ->
        headers_apart 28 (Bytes.allocated_blocks s1 :: l1 ++ b :: l2) ->
        llist (Bytes.decode (Bytes.mem s')) (Bytes.free_blocks s') (l1 ++ l2)
        /\ Bytes.size (Bytes.mem s') b = S
        /\ Bytes.address (Bytes.mem s') b = al
        /\ Bytes.is_free (Bytes.mem s') b = false
        /\ forall q, In q (l1 ++ l2) ->
             Bytes.address (Bytes.mem s') q = Bytes.address (Bytes.mem s1) q
             /\ Bytes.size (Bytes.mem s') q = Bytes.size (Bytes.mem s1) q).
Proof.
  intros h al pad S nb Hw Hd Hn Hov Wc Hwords.
  assert (Hb0 : b <> 0) by apply Hw.
  rewrite (bytes_memory_alloc_aligned_winning fuel s nbytes alignment ty s1 b)
    by (try assumption; lia).
  rewrite bytes_allocate_block_pair.
  exists (fst (Bytes.allocate_block s1 b nbytes alignment ty)).
  split; [reflexivity|].
  split; [reflexivity|].
  assert (HS : 0 <= S < 2 ^ 32) by (apply load32_range).
  assert (Hpad : 0 <= pad) by (unfold pad, sub32; apply wrap_range).
  assert (Hsum : add32 (add32 nbytes pad) 28 = nbytes + pad + 28).
  { rewrite (add32_small nbytes pad) by lia. apply add32_small. lia. }
  destruct (allocate_block_split 28 (view s1) b nbytes alignment ty l1 l2 Hd
              ltac:(lia) ltac:(lia) Hov HS) as (Hsplit & Hwhole).
  set (c' := fst (allocate_block 28 (view s1) b nbytes alignment ty)) in *.
  set (s' := fst (Bytes.allocate_block s1 b nbytes alignment ty)).
  split.
  - (* the block is split *)
    intros Hleft Hnb0 Hfresh Hap.
    destruct (Hsplit Hleft Hnb0 Hfresh) as (Hl & Ha & Hs & Hf & _ & Hsb & Hab & Hfb).
    destruct (allocate_block_agrees
                (nb :: Bytes.allocated_blocks s1 :: l1 ++ b :: l2) s1 b nbytes
                alignment ty Hap) as (A & Efb & _).
    { intros q [<- | Hq]; [apply wrap_range | apply Hwords; exact Hq]. }
    { right. right. apply in_elt. }
    { exact Hb0. }
    { apply (written_headers_of_list (view s1) b nbytes alignment l1 l2).
      - exact Hd.
      - intros q Hq. right. right. exact Hq.
      - right. left. reflexivity.
      - intros _. left. reflexivity. }
    { intros _. exact Hnb0. }
    { exact Wc. }
    fold s' c' in A, Efb.
    assert (Hnbin : In nb (nb :: Bytes.allocated_blocks s1 :: l1 ++ b :: l2))
      by (left; reflexivity).
    assert (Hbin : In b (nb :: Bytes.allocated_blocks s1 :: l1 ++ b :: l2))
      by (right; right; apply in_elt).
    destruct (agree_fields _ _ _ _ A Hnbin Hnb0) as (Ea & Es & _ & Ef & _).
    destruct (agree_fields _ _ _ _ A Hbin Hb0) as (Eab & Esb & _ & Efb' & _).
    split.
    { rewrite Efb.
      apply (agree_lseg (nb :: Bytes.allocated_blocks s1 :: l1 ++ b :: l2) _ (blocks c'));
        [exact A | | exact Hl].
      intros x Hx. apply in_app_or in Hx. destruct Hx as [Hx | [<- | Hx]].
      - right. right. apply in_or_app. left. exact Hx.
      - left. reflexivity.
      - right. right. apply in_or_app. right. right. exact Hx. }
    rewrite Ea, Es, Ef, Eab, Esb, Efb'.
    repeat split; assumption.
  - (* the whole block is allocated *)
    intros Hleft Hap.
    destruct (Hwhole Hleft) as (Hl & Hsb & Hab & Hfb & Hoth).
    assert (Hcond : (add32 (add32 nbytes pad) 28 <? S) = false).
    { apply Z.ltb_ge. rewrite Hsum. lia. }
    destruct (allocate_block_agrees
                (Bytes.allocated_blocks s1 :: l1 ++ b :: l2) s1 b nbytes
                alignment ty Hap) as (A & Efb & _).
    { exact Hwords. }
    { right. apply in_elt. }
    { exact Hb0. }
    { apply (written_headers_of_list (view s1) b nbytes alignment l1 l2).
      - exact Hd.
      - intros q Hq. right. exact Hq.
      - left. reflexivity.
      - intros Hc. exfalso.
        pose proof (eq_trans (eq_sym Hc) Hcond : true = false) as F. discriminate F. }
    { intros Hc. exfalso.
      pose proof (eq_trans (eq_sym Hc) Hcond : true = false) as F. discriminate F. }
    { exact Wc. }
    fold s' c' in A, Efb.
    assert (Hbin : In b (Bytes.allocated_blocks s1 :: l1 ++ b :: l2))
      by (right; apply in_elt).
    destruct (agree_fields _ _ _ _ A Hbin Hb0) as (Eab & Esb & _ & Efb' & _).
    split.
    { rewrite Efb.
      apply (agree_lseg (Bytes.allocated_blocks s1 :: l1 ++ b :: l2) _ (blocks c'));
        [exact A | | exact Hl].
      intros x Hx. apply in_app_or in Hx. destruct Hx as [Hx | Hx].
      - right. apply in_or_app. left. exact Hx.
      - right. apply in_or_app. right. right. exact Hx. }
    rewrite Eab, Esb, Efb'.
    split; [exact Hsb|]. split; [exact Hab|]. split; [exact Hfb|].
    intros q Hq.
    assert (Hqin : In q (Bytes.allocated_blocks s1 :: l1 ++ b :: l2)).
    { right. apply in_app_or in Hq. apply in_or_app.
      destruct Hq as [Hq | Hq]; [left; exact Hq | right; right; exact Hq]. }
    assert (Hq0 : q <> 0).
    { destruct (dllist_at _ _ _ _ _ Hd) as (_ & _ & _ & _ & _ & Hnn).
      intros E. apply Hnn. rewrite <- E.
      apply in_app_or in Hq. apply in_or_app.
      destruct Hq as [Hq | Hq]; [left; exact Hq | right; right; exact Hq]. }
    destruct (agree_fields _ _ _ _ A Hqin Hq0) as (Eaq & Esq & _).
    rewrite Eaq, Esq. exact (Hoth q Hq).
Qed.

(** X6. [process_alloc] on the bytes of the machine, for an active
    process whose request finds a block [b], when the headers the
    allocation writes (that of [b], the new header of the split, the
    list neighbours of [b] and the head of the allocated list) share no
    byte and the end of the allocated range is not the address 0: the
    block becomes the head of the allocated list, owned by [pid] and of
    type [MEM_TYPE_USER]; [current_process] is what it was before the
    call; the process's [total_allocated] grows by the requested size
    when the returned address is not null, and no other slot of the
    process table changes. *)
Theorem process_alloc_owner (fuel : nat) (s s1 : Bytes.memory_manager_t)
    (pid nbytes b : Z) :
  let al := aligned_address (Bytes.address (Bytes.mem s1) b) 4 in
  0 <= pid < MAX_PROCESSES ->
  is_active (Bytes.processes s pid) = true ->
  nbytes <> 0 ->
  Bytes.winning_block fuel (Bytes.with_current_process s pid) nbytes 4 s1 b ->
  word b -> word (Bytes.allocated_blocks s1) ->
  add32 al nbytes <> 0 ->
  headers_apart 28 (b :: written_headers 28 (view s1) b nbytes 4) ->
  exists s',
    Bytes.process_alloc fuel s pid nbytes = Some (s', al)
    /\ Bytes.allocated_blocks s' = b
    /\ process_id (Bytes.decode (Bytes.mem s') b) = pid
    /\ type (Bytes.decode (Bytes.mem s') b) = MEM_TYPE_USER
    /\ is_free (Bytes.decode (Bytes.mem s') b) = false
    /\ address (Bytes.decode (Bytes.mem s') b) = al
    /\ Bytes.current_process s' = Bytes.current_process s
    /\ Bytes.available_memory s' = sub32 (Bytes.available_memory s) nbytes
    /\ (al <> 0 ->
        total_allocated (Bytes.processes s' pid)
        = add32 (total_allocated (Bytes.processes s pid)) nbytes)
    /\ (al = 0 -> Bytes.processes s' = Bytes.processes s)
    /\ (forall j, j <> pid -> Bytes.processes s' j = Bytes.processes s j).
Proof.
  intros al Hpid Hact Hn Hw Wb Wh Hnb Hap.
  assert (Hb0 : b <> 0) by apply Hw.
  unfold Bytes.process_alloc.
  assert (Hlt : (MAX_PROCESSES <=? pid) = false) by (apply Z.leb_gt; lia).
  rewrite Hlt, Hact. simpl negb. cbv iota. cbv zeta.
  unfold Bytes.memory_alloc.
  rewrite (bytes_memory_alloc_aligned_winning fuel _ nbytes 4 MEM_TYPE_USER s1 b Hn Hw).
  destruct (bytes_winning_block_frame _ _ _ _ _ _ Hw) as (Ep & Ec & Ea & _ & _).
  simpl in Ep, Ec, Ea.
  destruct (allocate_block_agrees (b :: written_headers 28 (view s1) b nbytes 4)
              s1 b nbytes 4 MEM_TYPE_USER Hap) as (A & _ & _ & _).
  { intros q [<- | Hq]; [exact Wb|].
    unfold written_headers in Hq. cbv zeta in Hq.
    apply in_app_or in Hq. destruct Hq as [Hq | Hq].
    - destruct (_ <? _); [|destruct Hq].
      destruct Hq as [<- | []]. apply wrap_range.
    - simpl in Hq. destruct Hq as [<- | [<- | [<- | []]]];
        [apply load32_range | apply load32_range | exact Wh]. }
  { left. reflexivity. }
  { exact Hb0. }
  { intros q Hq. right. right. exact Hq. }
  { intros _. exact Hnb. }
  { rewrite Ec. unfold word. unfold MAX_PROCESSES in Hpid. lia. }
  destruct (allocate_block_tags 28 (view s1) b nbytes 4 MEM_TYPE_USER)
    as (_ & T2 & T3 & T4 & T5 & _).
  rewrite <- (A b (or_introl eq_refl) Hb0) in T2, T3, T4, T5.
  change (current_process (view s1)) with (Bytes.current_process s1) in T3.
  change (address (blocks (view s1) b)) with (Bytes.address (Bytes.mem s1) b) in T5.
  fold al in T5. rewrite Ec in T3.
  rewrite bytes_allocate_block_pair. fold al.
  set (s2 := fst (Bytes.allocate_block s1 b nbytes 4 MEM_TYPE_USER)) in *.
  assert (Hps : Bytes.processes s2 = Bytes.processes s) by (rewrite <- Ep; reflexivity).
  assert (Hav : Bytes.available_memory s2 = sub32 (Bytes.available_memory s) nbytes)
    by (rewrite <- Ea; reflexivity).
  assert (Hal : Bytes.allocated_blocks s2 = b) by reflexivity.
  clearbody s2.
  eexists. split; [reflexivity|].
  destruct (Z.eqb_spec al 0) as [E0 | E0].
  - simpl.
    split; [exact Hal|]. split; [exact T3|]. split; [exact T2|].
    split; [exact T4|]. split; [exact T5|]. split; [reflexivity|].
    split; [exact Hav|].
    split; [intros H; contradiction|].
    split; [intros _; exact Hps|].
    intros j _. rewrite Hps. reflexivity.
  - simpl. rewrite Hps.
    split; [exact Hal|]. split; [exact T3|]. split; [exact T2|].
    split; [exact T4|]. split; [exact T5|]. split; [reflexivity|].
    split; [exact Hav|].
    split; [intros _; unfold upd_process; rewrite Z.eqb_refl; reflexivity|].
    split; [intros H; contradiction|].
    intros j Hj. unfold upd_process.
    apply Z.eqb_neq in Hj. rewrite Hj. reflexivity.
Qed.

(** ** Instances *)

Lemma memory_alloc_aligned_is_aligned_on_bytes_witness :
  Bytes.memory_alloc_aligned 8 Bytes.big_code 1048576 4 MEM_TYPE_USER
  = Some (Bytes.state_of
            (Bytes.memory_alloc_aligned 8 Bytes.big_code 1048576 4 MEM_TYPE_USER),
          8388608)
  /\ (4 | 8388608).
Proof.
  split; [apply bytes_run_result; run|].
  apply (memory_alloc_aligned_is_aligned_on_bytes 8 Bytes.big_code
           (Bytes.state_of (Bytes.memory_alloc_aligned 8 Bytes.big_code 1048576 4 MEM_TYPE_USER))
           1048576 4 8388608 MEM_TYPE_USER 2).
  - lia.
  - reflexivity.
  - apply bytes_run_result; vm_compute; reflexivity.
Defined.

Lemma memory_alloc_aligned_frame_witness :
  Bytes.memory_alloc_aligned 8 Bytes.big_code 1048576 4 MEM_TYPE_USER
  = Some (Bytes.state_of (Bytes.memory_alloc_aligned 8 Bytes.big_code 1048576 4 MEM_TYPE_USER),
          8388608)
  /\ Bytes.fragmentation_count
       (Bytes.state_of (Bytes.memory_alloc_aligned 8 Bytes.big_code 1048576 4 MEM_TYPE_USER))
     = 1
  /\ Bytes.processes
       (Bytes.state_of (Bytes.memory_alloc_aligned 8 Bytes.big_code 1048576 4 MEM_TYPE_USER))
     = Bytes.processes Bytes.big_code
  /\ Bytes.deallocations
       (Bytes.state_of (Bytes.memory_alloc_aligned 8 Bytes.big_code 1048576 4 MEM_TYPE_USER))
     = Bytes.deallocations Bytes.big_code.
Proof.
  assert (Hrun : Bytes.memory_alloc_aligned 8 Bytes.big_code 1048576 4 MEM_TYPE_USER
                 = Some (Bytes.state_of
                           (Bytes.memory_alloc_aligned 8 Bytes.big_code 1048576 4 MEM_TYPE_USER),
                         8388608))
    by (apply bytes_run_result; vm_compute; reflexivity).
  destruct (memory_alloc_aligned_frame 8 Bytes.big_code _ 1048576 4 8388608 MEM_TYPE_USER Hrun)
    as (Hp & _ & Hd & _).
  split; [exact Hrun|]. split; [vm_compute; reflexivity|].
  split; [exact Hp | exact Hd].
Defined.

Lemma process_memory_create_success_witness :
  Bytes.process_memory_create 8 Bytes.boot 3 58000000 = Some (Bytes.big_process, 0)
  /\ Bytes.fragmentation_count Bytes.big_process = 1
  /\ is_active (Bytes.processes Bytes.big_process 3) = true
  /\ code_start (Bytes.processes Bytes.big_process 3) <> 0
  /\ stack_start (Bytes.processes Bytes.big_process 3) <> 0
  /\ Bytes.allocations Bytes.big_process = add32 (add32 (Bytes.allocations Bytes.boot) 1) 1.
Proof.
  assert (Hrun : Bytes.process_memory_create 8 Bytes.boot 3 58000000
                 = Some (Bytes.big_process, 0))
    by (unfold Bytes.big_process; apply bytes_run_result; vm_compute; reflexivity).
  destruct (process_memory_create_success 8 Bytes.boot Bytes.big_process 3 58000000 Hrun)
    as (_ & Ha & _ & Hc & Hs & _ & _ & _ & _ & _ & _ & _ & _ & Hn & _).
  split; [exact Hrun|]. split; [vm_compute; reflexivity|].
  split; [exact Ha|]. split; [exact Hc|]. split; [exact Hs | exact Hn].
Defined.

Lemma process_alloc_owner_witness :
  exists s',
    Bytes.process_alloc 8 Bytes.with_process 1 30 = Some (s', 9437228)
    /\ Bytes.allocated_blocks s' = 9437228
    /\ process_id (Bytes.decode (Bytes.mem s') 9437228) = 1
    /\ type (Bytes.decode (Bytes.mem s') 9437228) = MEM_TYPE_USER
    /\ Bytes.current_process s' = 0.
Proof.
  assert (Eal : aligned_address
                  (Bytes.address
                     (Bytes.mem (Bytes.with_current_process Bytes.with_process 1))
                     9437228) 4 = 9437228) by run.
  assert (Ew : written_headers 28
                 (view (Bytes.with_current_process Bytes.with_process 1))
                 9437228 30 4 = [9437258; 0; 0; 8388652]) by run.
  assert (Eh : Bytes.allocated_blocks (Bytes.with_current_process Bytes.with_process 1)
               = 8388652) by run.
  assert (Ec : Bytes.current_process Bytes.with_process = 0) by run.
  destruct (process_alloc_owner 8 Bytes.with_process
              (Bytes.with_current_process Bytes.with_process 1) 1 30 9437228)
    as (s' & Hr & Ha & Ho & Ht & _ & _ & Hc & _).
  - unfold MAX_PROCESSES. lia.
  - run.
  - discriminate.
  - split; [intro H; discriminate H|]. left. split; [reflexivity | run].
  - unfold word. lia.
  - rewrite Eh. unfold word. lia.
  - rewrite Eal. vm_compute. intro H. discriminate H.
  - rewrite Ew. simpl. unfold apart.
    repeat split; intros q Hq; simpl in Hq;
      repeat (destruct Hq as [<- | Hq]; [lia|]); destruct Hq.
  - rewrite Eal in Hr. rewrite Ec in Hc.
    exists s'. split; [exact Hr|]. split; [exact Ha|]. split; [exact Ho|].
    split; [exact Ht | exact Hc].
Defined.

Lemma memory_alloc_aligned_split_witness :
  exists s',
    Bytes.memory_alloc_aligned 8 Bytes.fragmented 50 4 MEM_TYPE_KERNEL
    = Some (s', 8388636)
    /\ Bytes.allocated_blocks s' = 8388608
    /\ llist (Bytes.decode (Bytes.mem s')) (Bytes.free_blocks s') [8388686; 8388936]
    /\ Bytes.address (Bytes.mem s') 8388686 = 8388686
    /\ Bytes.size (Bytes.mem s') 8388686 = 50
    /\ Bytes.is_free (Bytes.mem s') 8388686 = true
    /\ Bytes.size (Bytes.mem s') 8388608 = 50.
Proof.
  assert (Ea : address (Bytes.decode (Bytes.mem Bytes.fragmented) 8388608) = 8388636)
    by run.
  assert (Es : size (Bytes.decode (Bytes.mem Bytes.fragmented) 8388608) = 100) by run.
  assert (Eh : Bytes.allocated_blocks Bytes.fragmented = 8388836) by run.
  assert (Ec : Bytes.current_process Bytes.fragmented = 0) by run.
  assert (Eal : aligned_address 8388636 4 = 8388636) by run.
  assert (Epad : sub32 8388636 8388636 = 0) by run.
  assert (Enb : add32 8388636 50 = 8388686) by run.
  destruct (memory_alloc_aligned_split 8 Bytes.fragmented Bytes.fragmented 8388608 50 4
              MEM_TYPE_KERNEL [] [8388936]) as (s' & Hrun & Hal & Hsplit & _).
  - split; [intro H; discriminate H|]. left. split; [reflexivity | run].
  - shape.
  - lia.
  - rewrite Ea, Eal, Epad. lia.
  - rewrite Ec. unfold word. lia.
  - rewrite Eh. intros q Hq. simpl in Hq. unfold word.
    repeat (destruct Hq as [<- | Hq]; [lia|]). destruct Hq.
  - rewrite Ea, Es, Eal, Epad, Enb, Eh in *.
    destruct Hsplit as (Hl & Hna & Hns & Hnf & Hbs & _).
    + lia.
    + discriminate.
    + simpl. intros [H | [H | []]]; discriminate H.
    + simpl. unfold apart.
      repeat split; intros q Hq; simpl in Hq;
        repeat (destruct Hq as [<- | Hq]; [lia|]); destruct Hq.
    + exists s'. split; [exact Hrun|]. split; [exact Hal|]. split; [exact Hl|].
      split; [exact Hna|]. split; [exact Hns|]. split; [exact Hnf | exact Hbs].
Defined.

Lemma allocate_block_simulation_witness :
  Bytes.agree [8388686; 8388836; 8388608; 8388936]
    (Bytes.mem (fst (Bytes.allocate_block Bytes.fragmented 8388608 50 4 MEM_TYPE_KERNEL)))
    (blocks (fst (allocate_block 28 (view Bytes.fragmented) 8388608 50 4
                    MEM_TYPE_KERNEL)))
  /\ Bytes.free_blocks
       (fst (Bytes.allocate_block Bytes.fragmented 8388608 50 4 MEM_TYPE_KERNEL))
     = 8388686.
Proof.
  assert (Ew : written_headers 28 (view Bytes.fragmented) 8388608 50 4
               = [8388686; 8388936; 0; 8388836]) by run.
  destruct (allocate_block_simulation [8388686; 8388836; 8388608; 8388936]
              Bytes.fragmented 8388608 50 4 MEM_TYPE_KERNEL)
    as (A & Ef & _).
  - simpl. unfold apart.
    repeat split; intros q Hq; simpl in Hq;
      repeat (destruct Hq as [<- | Hq]; [lia|]); destruct Hq.
  - intros q Hq. simpl in Hq. unfold word.
    repeat (destruct Hq as [<- | Hq]; [lia|]). destruct Hq.
  - simpl. tauto.
  - discriminate.
  - rewrite Ew. intros q Hq. simpl in Hq.
    repeat (destruct Hq as [<- | Hq]; [simpl; tauto|]). destruct Hq.
  - intros _. vm_compute. intro H. discriminate H.
  - vm_compute. split; [intro H; discriminate H | reflexivity].
  - split; [exact A|]. rewrite Ef. run.
Defined.

(** * Properties of the file store *)

(** ** Bits *)

Lemma land_bit x k :
  0 <= k -> Z.land x (Z.shiftl 1 k) = if Z.testbit x k then 2 ^ k else 0.
Proof.
  intros Hk. rewrite Z.shiftl_1_l. apply Z.bits_inj'. intros n Hn.
  rewrite Z.land_spec, Z.pow2_bits_eqb by exact Hk.
  destruct (Z.eqb_spec k n) as [-> | Hne].
  - rewrite andb_true_r. destruct (Z.testbit x n) eqn:E.
    + rewrite Z.pow2_bits_eqb by exact Hn. rewrite Z.eqb_refl. reflexivity.
    + rewrite Z.bits_0. reflexivity.
  - rewrite andb_false_r. destruct (Z.testbit x k).
    + rewrite Z.pow2_bits_eqb by exact Hk. symmetry. apply Z.eqb_neq. exact Hne.
    + rewrite Z.bits_0. reflexivity.
Qed.

Lemma mod8_range i : 0 <= i mod 8 < 8.
Proof. apply Z.mod_pos_bound. lia. Qed.

Lemma bit_test_spec bm i :
  FileSystem.bit_test bm i = Z.testbit (bm (i / 8)) (i mod 8).
Proof.
  unfold FileSystem.bit_test, FileSystem.bit_mask.
  pose proof (mod8_range i) as Hr.
  rewrite land_bit by lia.
  destruct (Z.testbit (bm (i / 8)) (i mod 8)).
  - assert (0 < 2 ^ (i mod 8)) by (apply Z.pow_pos_nonneg; lia).
    destruct (Z.eqb_spec (2 ^ (i mod 8)) 0); [lia | reflexivity].
  - reflexivity.
Qed.

Lemma same_byte_same_bit i j : j / 8 = i / 8 -> j mod 8 = i mod 8 -> j = i.
Proof.
  intros Hq Hr.
  rewrite (Z.div_mod j 8), (Z.div_mod i 8) by lia. rewrite Hq, Hr. reflexivity.
Qed.

Lemma bit_test_set bm i j :
  FileSystem.bit_test (FileSystem.bit_set bm i) j
  = if j =? i then true else FileSystem.bit_test bm j.
Proof.
  rewrite !bit_test_spec. unfold FileSystem.bit_set, FileSystem.store_at,
    FileSystem.bit_mask.
  pose proof (mod8_range i) as Hi. pose proof (mod8_range j) as Hj.
  destruct (Z.eqb_spec (j / 8) (i / 8)) as [Hq | Hq].
  - change 256 with (2 ^ 8). rewrite Z.mod_pow2_bits_low by lia.
    rewrite Z.lor_spec, Z.shiftl_1_l, Z.pow2_bits_eqb by lia. rewrite Hq.
    destruct (Z.eqb_spec j i) as [-> | Hne].
    + rewrite Z.eqb_refl. apply orb_true_r.
    + destruct (Z.eqb_spec (i mod 8) (j mod 8)) as [Hr | Hr].
      * exfalso. apply Hne. apply same_byte_same_bit; [exact Hq | symmetry; exact Hr].
      * apply orb_false_r.
  - destruct (Z.eqb_spec j i) as [-> | _]; [contradiction Hq; reflexivity | reflexivity].
Qed.

Lemma bit_test_clear bm i j :
  FileSystem.bit_test (FileSystem.bit_clear bm i) j
  = if j =? i then false else FileSystem.bit_test bm j.
Proof.
  rewrite !bit_test_spec. unfold FileSystem.bit_clear, FileSystem.store_at,
    FileSystem.bit_mask.
  pose proof (mod8_range i) as Hi. pose proof (mod8_range j) as Hj.
  destruct (Z.eqb_spec (j / 8) (i / 8)) as [Hq | Hq].
  - change 256 with (2 ^ 8). rewrite Z.mod_pow2_bits_low by lia.
    rewrite Z.land_spec, Z.lnot_spec, Z.shiftl_1_l, Z.pow2_bits_eqb by lia.
    rewrite Hq.
    destruct (Z.eqb_spec j i) as [-> | Hne].
    + rewrite Z.eqb_refl. apply andb_false_r.
    + destruct (Z.eqb_spec (i mod 8) (j mod 8)) as [Hr | Hr].
      * exfalso. apply Hne. apply same_byte_same_bit; [exact Hq | symmetry; exact Hr].
      * apply andb_true_r.
  - destruct (Z.eqb_spec j i) as [-> | _]; [contradiction Hq; reflexivity | reflexivity].
Qed.

(** Setting a clear bit of a byte and clearing it again gives the byte
    back. *)
Lemma bit_clear_set_byte bm i :
  0 <= bm (i / 8) < 256 ->
  FileSystem.bit_test bm i = false ->
  forall j, FileSystem.bit_clear (FileSystem.bit_set bm i) i j = bm j.
Proof.
  intros Hb Ht j. rewrite bit_test_spec in Ht.
  unfold FileSystem.bit_clear, FileSystem.bit_set, FileSystem.store_at,
    FileSystem.bit_mask.
  rewrite Z.eqb_refl.
  destruct (Z.eqb_spec j (i / 8)) as [-> | Hne]; [|reflexivity].
  pose proof (mod8_range i) as Hi.
  rewrite Z.shiftl_1_l. change 256 with (2 ^ 8).
  apply Z.bits_inj'. intros n Hn.
  destruct (Z.lt_ge_cases n 8) as [Hlt | Hge].
  - rewrite Z.mod_pow2_bits_low by lia.
    rewrite Z.land_spec, Z.lnot_spec by lia.
    rewrite Z.mod_pow2_bits_low by lia.
    rewrite Z.lor_spec, Z.pow2_bits_eqb by lia.
    destruct (Z.eqb_spec (i mod 8) n) as [En | En].
    + subst n. rewrite Ht. reflexivity.
    + rewrite orb_false_r. apply andb_true_r.
  - rewrite Z.mod_pow2_bits_high by lia.
    symmetry. apply Z.bits_above_log2; [lia|].
    destruct (Z.eq_dec (bm (i / 8)) 0) as [E0 | E0].
    + rewrite E0. simpl. lia.
    + apply Z.log2_lt_pow2; [lia|].
      apply Z.lt_le_trans with (2 ^ 8); [lia|].
      apply Z.pow_le_mono_r; lia.
Qed.

(** ** The scan of a bitmap *)

Lemma first_clear_bit_found bm len t n : forall i,
  i <= t < i + Z.of_nat n ->
  (forall j, i <= j <= t -> FileSystem.in_array len (j / 8) = true) ->
  FileSystem.bit_test bm t = false ->
  (forall j, i <= j < t -> FileSystem.bit_test bm j = true) ->
  FileSystem.first_clear_bit bm len n i = Some (Some t).
Proof.
  induction n as [|n IH]; intros i Hi Hin Ht Hb.
  - simpl in Hi. lia.
  - simpl. rewrite Hin by lia.
    destruct (Z.eq_dec i t) as [-> | Hne].
    + rewrite Ht. reflexivity.
    + rewrite Hb by lia. apply IH.
      * lia.
      * intros j Hj. apply Hin. lia.
      * exact Ht.
      * intros j Hj. apply Hb. lia.
Qed.

Lemma first_clear_bit_none bm len n : forall i,
  (forall j, i <= j < i + Z.of_nat n -> FileSystem.in_array len (j / 8) = true) ->
  (forall j, i <= j < i + Z.of_nat n -> FileSystem.bit_test bm j = true) ->
  FileSystem.first_clear_bit bm len n i = Some None.
Proof.
  induction n as [|n IH]; intros i Hin Hb.
  - reflexivity.
  - simpl. rewrite Hin by lia. rewrite Hb by lia. apply IH.
    + intros j Hj. apply Hin. lia.
    + intros j Hj. apply Hb. lia.
Qed.

(** What the scan returns is a clear bit of its range, after set bits. *)
Lemma first_clear_bit_sound bm len n : forall i t,
  FileSystem.first_clear_bit bm len n i = Some (Some t) ->
  i <= t < i + Z.of_nat n
  /\ FileSystem.bit_test bm t = false
  /\ FileSystem.in_array len (t / 8) = true
  /\ forall j, i <= j < t -> FileSystem.bit_test bm j = true.
Proof.
  induction n as [|n IH]; intros i t H.
  - discriminate H.
  - simpl in H.
    destruct (FileSystem.in_array len (i / 8)) eqn:Hin; [|discriminate H].
    destruct (FileSystem.bit_test bm i) eqn:Hb.
    + destruct (IH _ _ H) as (Hr & Ht & Hi & Hbefore).
      split; [lia|]. split; [exact Ht|]. split; [exact Hi|].
      intros j Hj. destruct (Z.eq_dec j i) as [-> | Hne]; [exact Hb|].
      apply Hbefore. lia.
    + inversion H. subst t.
      split; [lia|]. split; [exact Hb|]. split; [exact Hin|].
      intros j Hj. lia.
Qed.

Lemma in_array_bits len i t :
  0 <= i -> t < len * 8 ->
  forall j, i <= j <= t -> FileSystem.in_array len (j / 8) = true.
Proof.
  intros Hi Ht j Hj. unfold FileSystem.in_array.
  assert (0 <= j / 8) by (apply Z.div_pos; lia).
  assert (j / 8 < len) by (apply Z.div_lt_upper_bound; lia).
  destruct (Z.leb_spec 0 (j / 8)); [|lia].
  destruct (Z.ltb_spec (j / 8) len); [reflexivity | lia].
Qed.

(** ** The block allocator of the file store *)

(** X12. [allocate_block] on a store whose bitmap holds a bit for every
    block and whose free count is not 0: it returns the first block from
    [first_data_block] on whose bit is clear, sets that bit and no other,
    takes one off the free count and leaves the inodes and the data
    alone; when every block from [first_data_block] on is in use it
    returns 0 and changes nothing.  When the free count is 0 it returns 0
    without reading the bitmap. *)
Theorem allocate_block_first_free (c : FileSystem.fs_context_t) :
  0 <= FileSystem.first_data_block (FileSystem.sb c) ->
  FileSystem.total_blocks (FileSystem.sb c)
  <= FileSystem.block_bitmap_size c * 8 ->
  (FileSystem.free_blocks (FileSystem.sb c) <> 0 ->
   forall t,
     FileSystem.first_data_block (FileSystem.sb c) <= t
     < FileSystem.total_blocks (FileSystem.sb c) ->
     FileSystem.bit_test (FileSystem.block_bitmap c) t = false ->
     (forall j, FileSystem.first_data_block (FileSystem.sb c) <= j < t ->
                FileSystem.bit_test (FileSystem.block_bitmap c) j = true) ->
     exists c',
       FileSystem.allocate_block c = Some (c', t)
       /\ (forall j, FileSystem.bit_test (FileSystem.block_bitmap c') j
                     = if j =? t then true
                       else FileSystem.bit_test (FileSystem.block_bitmap c) j)
       /\ FileSystem.free_blocks (FileSystem.sb c')
          = sub32 (FileSystem.free_blocks (FileSystem.sb c)) 1
       /\ FileSystem.total_blocks (FileSystem.sb c')
          = FileSystem.total_blocks (FileSystem.sb c)
       /\ FileSystem.first_data_block (FileSystem.sb c')
          = FileSystem.first_data_block (FileSystem.sb c)
       /\ FileSystem.free_inodes (FileSystem.sb c')
          = FileSystem.free_inodes (FileSystem.sb c)
       /\ FileSystem.inode_bitmap c' = FileSystem.inode_bitmap c
       /\ FileSystem.inode_table c' = FileSystem.inode_table c
       /\ FileSystem.data_blocks c' = FileSystem.data_blocks c)
  /\ (FileSystem.free_blocks (FileSystem.sb c) <> 0 ->
      (forall j, FileSystem.first_data_block (FileSystem.sb c) <= j
                 < FileSystem.total_blocks (FileSystem.sb c) ->
                 FileSystem.bit_test (FileSystem.block_bitmap c) j = true) ->
      FileSystem.allocate_block c = Some (c, 0))
  /\ (FileSystem.free_blocks (FileSystem.sb c) = 0 ->
      FileSystem.allocate_block c = Some (c, 0)).
Proof.
  intros Hfd Hlen.
  split; [|split].
  - intros Hfree t Ht Hclear Hbefore.
    unfold FileSystem.allocate_block.
    apply Z.eqb_neq in Hfree. rewrite Hfree.
    rewrite (first_clear_bit_found _ _ t).
    + eexists. split; [reflexivity|]. simpl.
      split; [intros j; apply bit_test_set|].
      repeat split.
    + rewrite Z2Nat.id by lia. lia.
    + apply in_array_bits; lia.
    + exact Hclear.
    + exact Hbefore.
  - intros Hfree Hall.
    unfold FileSystem.allocate_block.
    apply Z.eqb_neq in Hfree. rewrite Hfree.
    destruct (Z.le_gt_cases (FileSystem.total_blocks (FileSystem.sb c))
                (FileSystem.first_data_block (FileSystem.sb c))) as [Hle | Hgt].
    + replace (Z.to_nat _) with O by lia. reflexivity.
    + rewrite first_clear_bit_none; [reflexivity | |].
      * intros j Hj. rewrite Z2Nat.id in Hj by lia.
        apply (in_array_bits _ (FileSystem.first_data_block (FileSystem.sb c)) j);
          lia.
      * intros j Hj. rewrite Z2Nat.id in Hj by lia. apply Hall. lia.
  - intros Hz. unfold FileSystem.allocate_block. rewrite Hz. reflexivity.
Qed.

(** The effect of a successful [allocate_block], read off its result. *)
Lemma allocate_block_taken c c' t :
  FileSystem.allocate_block c = Some (c', t) -> t <> 0 ->
  FileSystem.first_data_block (FileSystem.sb c) <= t
  < FileSystem.total_blocks (FileSystem.sb c)
  /\ FileSystem.bit_test (FileSystem.block_bitmap c) t = false
  /\ FileSystem.in_array (FileSystem.block_bitmap_size c) (t / 8) = true
  /\ (forall j, FileSystem.first_data_block (FileSystem.sb c) <= j < t ->
                FileSystem.bit_test (FileSystem.block_bitmap c) j = true)
  /\ c' = FileSystem.with_sb
            (FileSystem.with_block_bitmap c
               (FileSystem.bit_set (FileSystem.block_bitmap c) t))
            (FileSystem.set_free_blocks (FileSystem.sb c)
               (sub32 (FileSystem.free_blocks (FileSystem.sb c)) 1)).
Proof.
  unfold FileSystem.allocate_block. intros H Ht.
  destruct (FileSystem.free_blocks (FileSystem.sb c) =? 0).
  { inversion H. congruence. }
  destruct (FileSystem.first_clear_bit _ _ _ _) as [[i|]|] eqn:Hs.
  - inversion H. subst c' t.
    destruct (first_clear_bit_sound _ _ _ _ _ Hs) as (Hr & Hc & Hi & Hb).
    split; [lia|]. split; [exact Hc|]. split; [exact Hi|]. split; [exact Hb|].
    reflexivity.
  - inversion H. congruence.
  - discriminate H.
Qed.

(** X13. A block obtained from [allocate_block] and given back to
    [free_block] leaves the store as it was: every byte of the block
    bitmap and the superblock with its free count. *)
Theorem allocate_block_free_block_round_trip (c c' : FileSystem.fs_context_t)
    (t : Z) :
  (forall j, 0 <= FileSystem.block_bitmap c j < 256) ->
  0 <= FileSystem.free_blocks (FileSystem.sb c) < 2 ^ 32 ->
  FileSystem.allocate_block c = Some (c', t) ->
  t <> 0 ->
  exists c'',
    FileSystem.free_block c' t = Some c''
    /\ (forall j, FileSystem.block_bitmap c'' j = FileSystem.block_bitmap c j)
    /\ FileSystem.sb c'' = FileSystem.sb c
    /\ FileSystem.inode_bitmap c'' = FileSystem.inode_bitmap c
    /\ FileSystem.inode_table c'' = FileSystem.inode_table c
    /\ FileSystem.data_blocks c'' = FileSystem.data_blocks c
    /\ FileSystem.current_directory c'' = FileSystem.current_directory c.
Proof.
  intros Hbytes Hfree Ha Ht.
  destruct (allocate_block_taken _ _ _ Ha Ht) as (Hr & Hclear & Hin & _ & ->).
  unfold FileSystem.free_block. simpl.
  apply Z.eqb_neq in Ht. rewrite Ht.
  destruct (Z.leb_spec (FileSystem.total_blocks (FileSystem.sb c)) t) as [Hle | _];
    [lia|].
  simpl orb. cbv iota.
  change (FileSystem.block_bitmap_size
            (FileSystem.with_sb
               (FileSystem.with_block_bitmap c
                  (FileSystem.bit_set (FileSystem.block_bitmap c) t))
               (FileSystem.set_free_blocks (FileSystem.sb c)
                  (sub32 (FileSystem.free_blocks (FileSystem.sb c)) 1))))
    with (FileSystem.block_bitmap_size c).
  rewrite Hin. rewrite bit_test_set, Z.eqb_refl.
  eexists. split; [reflexivity|]. simpl.
  split; [intros j; apply bit_clear_set_byte; [apply Hbytes | exact Hclear]|].
  split.
  { assert (E : add32 (sub32 (FileSystem.free_blocks (FileSystem.sb c)) 1) 1
                = FileSystem.free_blocks (FileSystem.sb c)).
    { unfold add32, sub32, wrap. rewrite Zplus_mod_idemp_l.
      replace (FileSystem.free_blocks (FileSystem.sb c) - 1 + 1)
        with (FileSystem.free_blocks (FileSystem.sb c)) by lia.
      apply Z.mod_small. exact Hfree. }
    unfold FileSystem.set_free_blocks. simpl. rewrite E.
    destruct (FileSystem.sb c). reflexivity. }
  repeat split.
Qed.

(** X14. Freeing a block twice counts it once: after a [free_block] the
    same call changes nothing.  Block 0 and blocks past the end are never
    freed. *)
Theorem free_block_twice (c c1 : FileSystem.fs_context_t) (block : Z) :
  FileSystem.free_block c block = Some c1 ->
  FileSystem.free_block c1 block = Some c1
  /\ (block = 0 \/ FileSystem.total_blocks (FileSystem.sb c) <= block -> c1 = c)
  /\ FileSystem.bit_test (FileSystem.block_bitmap c1) 0
     = FileSystem.bit_test (FileSystem.block_bitmap c) 0.
Proof.
  unfold FileSystem.free_block at 1. intros H.
  destruct (Z.eqb_spec block 0) as [Hz | Hz].
  { inversion H. subst c1. unfold FileSystem.free_block.
    apply Z.eqb_eq in Hz. rewrite Hz. repeat split. }
  destruct (Z.leb_spec (FileSystem.total_blocks (FileSystem.sb c)) block)
    as [Hle | Hlt].
  { inversion H. subst c1. unfold FileSystem.free_block.
    apply Z.leb_le in Hle. rewrite Hle, orb_true_r. repeat split. }
  simpl orb in H. cbv iota in H.
  destruct (FileSystem.in_array (FileSystem.block_bitmap_size c) (block / 8))
    eqn:Hin; [|discriminate H].
  destruct (FileSystem.bit_test (FileSystem.block_bitmap c) block) eqn:Hb.
  - inversion H. subst c1. clear H.
    split.
    + unfold FileSystem.free_block. simpl.
      apply Z.eqb_neq in Hz. rewrite Hz.
      apply Z.leb_gt in Hlt. rewrite Hlt. simpl orb. cbv iota.
      change (FileSystem.block_bitmap_size
                (FileSystem.with_sb
                   (FileSystem.with_block_bitmap c
                      (FileSystem.bit_clear (FileSystem.block_bitmap c) block))
                   (FileSystem.set_free_blocks (FileSystem.sb c)
                      (add32 (FileSystem.free_blocks (FileSystem.sb c)) 1))))
        with (FileSystem.block_bitmap_size c).
      rewrite Hin. rewrite bit_test_clear, Z.eqb_refl. reflexivity.
    + split; [intros [E | E]; lia|].
      simpl. rewrite bit_test_clear.
      destruct (Z.eqb_spec 0 block) as [E | _]; [congruence | reflexivity].
  - inversion H. subst c1. clear H.
    split.
    + unfold FileSystem.free_block.
      apply Z.eqb_neq in Hz. rewrite Hz.
      apply Z.leb_gt in Hlt. rewrite Hlt. simpl orb. cbv iota.
      rewrite Hin, Hb. reflexivity.
    + split; [intros _; reflexivity | reflexivity].
Qed.

Lemma allocate_block_first_free_witness :
  exists c',
    FileSystem.allocate_block formatted_store = Some (c', 172)
    /\ FileSystem.free_blocks (FileSystem.sb c') = 27.
Proof.
  destruct (allocate_block_first_free formatted_store) as (Hfound & _).
  - vm_compute. intro H. discriminate H.
  - vm_compute. intro H. discriminate H.
  - destruct (Hfound ltac:(vm_compute; intro H; discriminate H) 172)
      as (c' & Hr & _ & Hf & _).
    + split; vm_compute; [intro H; discriminate H | reflexivity].
    + vm_compute. reflexivity.
    + intros j Hj.
      change (FileSystem.first_data_block (FileSystem.sb formatted_store))
        with 171 in Hj.
      assert (E : j = 171) by lia. subst j.
      vm_compute. reflexivity.
    + exists c'. split; [exact Hr|]. rewrite Hf. vm_compute. reflexivity.
Defined.

Lemma allocate_block_free_block_round_trip_witness :
  exists c'',
    FileSystem.free_block
      (context_of (FileSystem.allocate_block small_store) small_store) 171
    = Some c''
    /\ FileSystem.sb c'' = FileSystem.sb small_store.
Proof.
  destruct (allocate_block_free_block_round_trip small_store
              (context_of (FileSystem.allocate_block small_store) small_store)
              171)
    as (c'' & Hr & _ & Hs & _).
  - intros j. simpl. lia.
  - vm_compute. split; [intro H; discriminate H | reflexivity].
  - vm_compute. reflexivity.
  - discriminate.
  - exists c''. split; [exact Hr | exact Hs].
Defined.

Lemma free_block_twice_witness :
  FileSystem.free_block
    (context_of (option_map (fun c => (c, tt)) (FileSystem.free_block formatted_store 171))
       formatted_store) 171
  = Some (context_of (option_map (fun c => (c, tt))
                        (FileSystem.free_block formatted_store 171))
            formatted_store).
Proof.
  apply (free_block_twice formatted_store _ 171).
  vm_compute. reflexivity.
Defined.

(** ** Format *)

Lemma context_eta (c : FileSystem.fs_context_t) :
  FileSystem.with_sb (FileSystem.with_block_bitmap c (FileSystem.block_bitmap c))
    (FileSystem.set_free_blocks (FileSystem.sb c)
       (FileSystem.free_blocks (FileSystem.sb c))) = c.
Proof. destruct c as [b bb ib it d cd]. destruct b. reflexivity. Qed.

(** The marking loop sets the bits [i .. i+n-1] and counts them off. *)
Lemma mark_system_blocks_spec n : forall i c,
  0 <= i ->
  i + Z.of_nat n <= FileSystem.block_bitmap_size c * 8 ->
  exists bm f,
    FileSystem.mark_system_blocks n i c
    = Some (FileSystem.with_sb (FileSystem.with_block_bitmap c bm)
              (FileSystem.set_free_blocks (FileSystem.sb c) f))
    /\ (forall j, FileSystem.bit_test bm j
                  = if (i <=? j) && (j <? i + Z.of_nat n) then true
                    else FileSystem.bit_test (FileSystem.block_bitmap c) j)
    /\ f = match n with
           | O => FileSystem.free_blocks (FileSystem.sb c)
           | S _ => wrap (FileSystem.free_blocks (FileSystem.sb c) - Z.of_nat n)
           end.
Proof.
  induction n as [|n IH]; intros i c Hi Hlen.
  - exists (FileSystem.block_bitmap c), (FileSystem.free_blocks (FileSystem.sb c)).
    split; [simpl; rewrite context_eta; reflexivity|].
    split; [|reflexivity].
    intros j. destruct (Z.leb_spec i j); destruct (Z.ltb_spec j (i + Z.of_nat 0));
      try reflexivity. lia.
  - change (FileSystem.mark_system_blocks (S n) i c)
      with (if FileSystem.in_array (FileSystem.block_bitmap_size c) (i / 8) then
              FileSystem.mark_system_blocks n (i + 1)
                (FileSystem.with_sb
                   (FileSystem.with_block_bitmap c
                      (FileSystem.bit_set (FileSystem.block_bitmap c) i))
                   (FileSystem.set_free_blocks (FileSystem.sb c)
                      (sub32 (FileSystem.free_blocks (FileSystem.sb c)) 1)))
            else None).
    rewrite (in_array_bits (FileSystem.block_bitmap_size c) i i) by lia.
    set (c1 := FileSystem.with_sb _ _).
    destruct (IH (i + 1) c1) as (bm & f & Hrun & Hbits & Hf).
    + lia.
    + change (FileSystem.block_bitmap_size c1) with (FileSystem.block_bitmap_size c).
      lia.
    + exists bm, f. split; [|split].
      * rewrite Hrun. unfold c1. destruct c as [b bb ib it d cd]. destruct b.
        reflexivity.
      * intros j. rewrite Hbits. unfold c1. simpl FileSystem.block_bitmap.
        rewrite bit_test_set.
        destruct (Z.leb_spec (i + 1) j); destruct (Z.ltb_spec j (i + 1 + Z.of_nat n));
          destruct (Z.leb_spec i j); destruct (Z.ltb_spec j (i + Z.of_nat (S n)));
          destruct (Z.eqb_spec j i); simpl; try reflexivity; lia.
      * rewrite Hf. unfold c1. simpl FileSystem.free_blocks.
        destruct n as [|n'].
        -- unfold sub32. reflexivity.
        -- unfold sub32, wrap. rewrite Zminus_mod_idemp_l. f_equal. lia.
Qed.

Lemma allocate_inode_found c t :
  FileSystem.free_inodes (FileSystem.sb c) <> 0 ->
  0 <= t < FileSystem.total_inodes (FileSystem.sb c) ->
  FileSystem.total_inodes (FileSystem.sb c) <= FileSystem.inode_bitmap_size * 8 ->
  FileSystem.bit_test (FileSystem.inode_bitmap c) t = false ->
  (forall j, 0 <= j < t -> FileSystem.bit_test (FileSystem.inode_bitmap c) j = true) ->
  FileSystem.allocate_inode c
  = Some (FileSystem.with_sb
            (FileSystem.with_inode_bitmap c
               (FileSystem.bit_set (FileSystem.inode_bitmap c) t))
            (FileSystem.set_free_inodes (FileSystem.sb c)
               (sub32 (FileSystem.free_inodes (FileSystem.sb c)) 1)),
          t).
Proof.
  intros Hfree Ht Hlen Hclear Hbefore. unfold FileSystem.allocate_inode.
  apply Z.eqb_neq in Hfree. rewrite Hfree.
  rewrite (first_clear_bit_found _ _ t).
  - reflexivity.
  - rewrite Z2Nat.id by lia. lia.
  - apply in_array_bits; lia.
  - exact Hclear.
  - exact Hbefore.
Qed.

Lemma allocate_block_found c t :
  FileSystem.free_blocks (FileSystem.sb c) <> 0 ->
  0 <= FileSystem.first_data_block (FileSystem.sb c) ->
  FileSystem.total_blocks (FileSystem.sb c) <= FileSystem.block_bitmap_size c * 8 ->
  FileSystem.first_data_block (FileSystem.sb c) <= t
  < FileSystem.total_blocks (FileSystem.sb c) ->
  FileSystem.bit_test (FileSystem.block_bitmap c) t = false ->
  (forall j, FileSystem.first_data_block (FileSystem.sb c) <= j < t ->
             FileSystem.bit_test (FileSystem.block_bitmap c) j = true) ->
  FileSystem.allocate_block c
  = Some (FileSystem.with_sb
            (FileSystem.with_block_bitmap c
               (FileSystem.bit_set (FileSystem.block_bitmap c) t))
            (FileSystem.set_free_blocks (FileSystem.sb c)
               (sub32 (FileSystem.free_blocks (FileSystem.sb c)) 1)),
          t).
Proof.
  intros Hfree Hfd Hlen Ht Hclear Hbefore. unfold FileSystem.allocate_block.
  apply Z.eqb_neq in Hfree. rewrite Hfree.
  rewrite (first_clear_bit_found _ _ t).
  - reflexivity.
  - rewrite Z2Nat.id by lia. lia.
  - apply in_array_bits; lia.
  - exact Hclear.
  - exact Hbefore.
Qed.

Lemma bit_test_zero (bm : Z -> Z) j : bm (j / 8) = 0 -> FileSystem.bit_test bm j = false.
Proof.
  intros H. rewrite bit_test_spec, H. apply Z.bits_0.
Qed.

(** The layout [fs_init] computes. *)
Lemma fs_init_layout isz total :
  0 <= isz <= 1024 -> 1 <= total <= 2 ^ 32 - 4096 ->
  let c0 := fst (FileSystem.fs_init isz total true) in
  FileSystem.bitmap_blocks (FileSystem.sb c0) = (total + 4095) / 4096
  /\ FileSystem.inode_table_blocks (FileSystem.sb c0) = (1024 * isz + 511) / 512
  /\ FileSystem.first_data_block (FileSystem.sb c0)
     = 2 + (total + 4095) / 4096 + (1024 * isz + 511) / 512
  /\ 1 <= (total + 4095) / 4096 <= 2 ^ 20
  /\ 0 <= (1024 * isz + 511) / 512 <= 2049
  /\ total <= (total + 4095) / 4096 * 4096.
Proof.
  intros Hisz Htotal c0.
  assert (Hbb : 1 <= (total + 4095) / 4096 <= 2 ^ 20).
  { split.
    - apply Z.div_le_lower_bound; lia.
    - apply Z.div_le_upper_bound; [lia|]. change (2 ^ 32) with (4096 * 2 ^ 20) in Htotal.
      lia. }
  assert (Htb : 0 <= (1024 * isz + 511) / 512 <= 2049).
  { split.
    - apply Z.div_pos; lia.
    - apply Z.div_le_upper_bound; lia. }
  assert (Hcover : total <= (total + 4095) / 4096 * 4096).
  { pose proof (Z.div_mod (total + 4095) 4096 ltac:(lia)) as E.
    pose proof (Z.mod_pos_bound (total + 4095) 4096 ltac:(lia)). lia. }
  assert (E1 : FileSystem.bitmap_blocks (FileSystem.sb c0) = (total + 4095) / 4096).
  { change (FileSystem.bitmap_blocks (FileSystem.sb c0))
      with (sub32 (add32 total (FileSystem.BLOCK_SIZE * 8)) 1
            / (FileSystem.BLOCK_SIZE * 8)).
    unfold FileSystem.BLOCK_SIZE, sub32, add32.
    change (512 * 8) with 4096. unfold wrap.
    rewrite Zminus_mod_idemp_l. rewrite Z.mod_small by lia. f_equal. lia. }
  assert (E2 : FileSystem.inode_table_blocks (FileSystem.sb c0)
               = (1024 * isz + 511) / 512).
  { change (FileSystem.inode_table_blocks (FileSystem.sb c0))
      with (sub32 (add32 (mul32 FileSystem.MAX_FILES isz) FileSystem.BLOCK_SIZE) 1
            / FileSystem.BLOCK_SIZE).
    unfold FileSystem.BLOCK_SIZE, FileSystem.MAX_FILES, sub32, add32, mul32.
    rewrite (wrap_small (1024 * isz)) by lia.
    rewrite (wrap_small (1024 * isz + 512)) by lia.
    rewrite wrap_small by lia. f_equal. lia. }
  split; [exact E1|]. split; [exact E2|].
  split; [|split; [exact Hbb | split; [exact Htb | exact Hcover]]].
  change (FileSystem.first_data_block (FileSystem.sb c0))
    with (add32 (add32 (add32 1 (FileSystem.bitmap_blocks (FileSystem.sb c0))) 1)
            (FileSystem.inode_table_blocks (FileSystem.sb c0))).
  rewrite E1, E2. unfold add32.
  rewrite (wrap_small (1 + _)) by lia.
  rewrite (wrap_small (1 + _ + 1)) by lia.
  rewrite wrap_small by lia. lia.
Qed.

(** X15. [fs_format] on the store [fs_init] returns, for 1 to 2^32 - 4096
    blocks and inodes of at most 1024 bytes: the call returns 0; the root
    directory is inode 0, the only inode in use, a directory with
    permissions 0755, size 0 and one block; the blocks below
    [first_data_block] are marked in use.  When the store has more blocks
    than its metadata takes, the root's block is [first_data_block], the
    only data block in use, and the free count is what remains; otherwise
    the root's block is 0 and the free count is the difference modulo
    2^32. *)
Theorem fs_format_fresh_store (isz total : Z) (name : String.string) :
  0 <= isz <= 1024 ->
  1 <= total <= 2 ^ 32 - 4096 ->
  let c0 := fst (FileSystem.fs_init isz total true) in
  let first := FileSystem.first_data_block (FileSystem.sb c0) in
  exists c,
    FileSystem.fs_format c0 name = Some (c, 0)
    /\ FileSystem.root_inode (FileSystem.sb c) = 0
    /\ FileSystem.current_directory c = 0
    /\ FileSystem.free_inodes (FileSystem.sb c) = FileSystem.MAX_FILES - 1
    /\ (forall j, FileSystem.bit_test (FileSystem.inode_bitmap c) j = (j =? 0))
    /\ FileSystem.inode_num (FileSystem.inode_table c 0) = 0
    /\ FileSystem.type (FileSystem.attributes (FileSystem.inode_table c 0))
       = FileSystem.file_type_value FileSystem.FILE_TYPE_DIRECTORY
    /\ FileSystem.permissions (FileSystem.attributes (FileSystem.inode_table c 0))
       = 493
    /\ FileSystem.size (FileSystem.attributes (FileSystem.inode_table c 0)) = 0
    /\ FileSystem.block_count (FileSystem.inode_table c 0) = 1
    /\ FileSystem.blocks (FileSystem.inode_table c 0) 0
       = (if first <? total then first else 0)
    /\ (forall j, FileSystem.bit_test (FileSystem.block_bitmap c) j
                  = ((0 <=? j) && (j <? first))
                    || ((first <? total) && (j =? first)))
    /\ FileSystem.free_blocks (FileSystem.sb c)
       = (if first <? total then total - first - 1 else wrap (total - first))
    /\ FileSystem.total_blocks (FileSystem.sb c) = total
    /\ FileSystem.first_data_block (FileSystem.sb c) = first
    /\ FileSystem.volume_name (FileSystem.sb c) = FileSystem.strncpy name 31.
Proof.
  intros Hisz Htotal c0 first.
  destruct (fs_init_layout isz total Hisz Htotal)
    as (Ebb & Etb & Efd & Hbb & Htb & Hcover).
  fold c0 in Ebb, Etb, Efd. fold first in Efd.
  assert (Hfirst : 3 <= first <= 2051 + (total + 4095) / 4096) by lia.
  unfold FileSystem.fs_format. cbv zeta.
  match goal with
  | |- context [FileSystem.mark_system_blocks _ 0 ?c] => set (c1 := c)
  end.
  change (FileSystem.first_data_block (FileSystem.sb c1)) with first.
  assert (Hsize1 : FileSystem.block_bitmap_size c1 = (total + 4095) / 4096 * 512).
  { change (FileSystem.block_bitmap_size c1)
      with (FileSystem.bitmap_blocks (FileSystem.sb c0) * 512).
    rewrite Ebb. reflexivity. }
  assert (Hzero1 : forall j, FileSystem.bit_test (FileSystem.block_bitmap c1) j = false).
  { intros j. apply bit_test_zero. unfold c1. simpl.
    destruct (FileSystem.in_array _ _); reflexivity. }
  destruct (mark_system_blocks_spec (Z.to_nat first) 0 c1)
    as (bm & f & Hrun & Hbits & Hf).
  { lia. }
  { rewrite Hsize1. rewrite Z2Nat.id by lia. lia. }
  rewrite Hrun. clear Hrun.
  assert (Hf' : f = wrap (total - first)).
  { rewrite Hf. destruct (Z.to_nat first) as [|k] eqn:Ek; [lia|].
    rewrite <- Ek. rewrite Z2Nat.id by lia. reflexivity. }
  clear Hf.
  assert (Hbits' : forall j, FileSystem.bit_test bm j = (0 <=? j) && (j <? first)).
  { intros j. rewrite Hbits, Hzero1. rewrite Z2Nat.id by lia.
    simpl Z.add. destruct ((0 <=? j) && (j <? first)); reflexivity. }
  clear Hbits.
  set (c2 := FileSystem.with_sb (FileSystem.with_block_bitmap c1 bm)
               (FileSystem.set_free_blocks (FileSystem.sb c1) f)).
  rewrite (allocate_inode_found c2 0).
  2:{ discriminate. }
  2:{ split; [lia | reflexivity]. }
  2:{ discriminate. }
  2:{ reflexivity. }
  2:{ intros j Hj. lia. }
  change (FileSystem.in_array FileSystem.MAX_FILES 0) with true. cbv iota.
  match goal with
  | |- context [FileSystem.allocate_block ?c] => set (c4 := c)
  end.
  assert (Hfree4 : FileSystem.free_blocks (FileSystem.sb c4) = f) by reflexivity.
  assert (Hbm4 : FileSystem.block_bitmap c4 = bm) by reflexivity.
  assert (Hfd4 : FileSystem.first_data_block (FileSystem.sb c4) = first)
    by reflexivity.
  assert (Htot4 : FileSystem.total_blocks (FileSystem.sb c4) = total) by reflexivity.
  assert (Hsize4 : FileSystem.block_bitmap_size c4 = (total + 4095) / 4096 * 512)
    by exact Hsize1.
  destruct (Z.ltb_spec first total) as [Hlt | Hge].
  - rewrite (allocate_block_found c4 first).
    2:{ rewrite Hfree4, Hf'. rewrite wrap_small by lia. lia. }
    2:{ rewrite Hfd4. lia. }
    2:{ rewrite Htot4, Hsize4. lia. }
    2:{ rewrite Hfd4, Htot4. lia. }
    2:{ rewrite Hbm4, Hbits'.
        destruct (Z.ltb_spec first first); [lia | apply andb_false_r]. }
    2:{ intros j Hj. rewrite Hfd4 in Hj. lia. }
    eexists. split; [reflexivity|].
    split; [reflexivity|]. split; [reflexivity|]. split; [reflexivity|].
    split.
    { intros j.
      change (FileSystem.bit_test
                (FileSystem.bit_set (FileSystem.inode_bitmap c2) 0) j = (j =? 0)).
      rewrite bit_test_set.
      destruct (Z.eqb_spec j 0) as [_ | _]; [reflexivity|].
      apply bit_test_zero. unfold c2, c1. simpl.
      destruct (FileSystem.in_array _ _); reflexivity. }
    split; [reflexivity|]. split; [reflexivity|]. split; [reflexivity|].
    split; [reflexivity|]. split; [reflexivity|]. split; [reflexivity|].
    split.
    { intros j.
      change (FileSystem.bit_test (FileSystem.bit_set bm first) j
              = (0 <=? j) && (j <? first) || true && (j =? first)).
      rewrite bit_test_set, Hbits'. simpl andb.
      destruct (Z.eqb_spec j first) as [-> | _].
      - rewrite orb_true_r. reflexivity.
      - rewrite orb_false_r. reflexivity. }
    split.
    { change (sub32 f 1 = total - first - 1).
      rewrite Hf'. rewrite (wrap_small (total - first)) by lia.
      rewrite sub32_small by lia. lia. }
    split; [reflexivity|]. split; reflexivity.
  - assert (Hnone : FileSystem.allocate_block c4 = Some (c4, 0)).
    { unfold FileSystem.allocate_block. rewrite Hfd4, Htot4.
      destruct (FileSystem.free_blocks (FileSystem.sb c4) =? 0); [reflexivity|].
      replace (Z.to_nat (total - first)) with O by lia. reflexivity. }
    rewrite Hnone.
    eexists. split; [reflexivity|].
    split; [reflexivity|]. split; [reflexivity|]. split; [reflexivity|].
    split.
    { intros j.
      change (FileSystem.bit_test
                (FileSystem.bit_set (FileSystem.inode_bitmap c2) 0) j = (j =? 0)).
      rewrite bit_test_set.
      destruct (Z.eqb_spec j 0) as [_ | _]; [reflexivity|].
      apply bit_test_zero. unfold c2, c1. simpl.
      destruct (FileSystem.in_array _ _); reflexivity. }
    split; [reflexivity|]. split; [reflexivity|]. split; [reflexivity|].
    split; [reflexivity|]. split; [reflexivity|]. split; [reflexivity|].
    split.
    { intros j. change (FileSystem.bit_test bm j = (0 <=? j) && (j <? first) || false && (j =? first)).
      rewrite Hbits'. simpl. rewrite orb_false_r. reflexivity. }
    split; [exact Hf'|].
    split; [reflexivity|]. split; reflexivity.
Qed.

Lemma fs_format_fresh_store_witness :
  exists c,
    FileSystem.fs_format small_store "GameOS"%string = Some (c, 0)
    /\ FileSystem.root_inode (FileSystem.sb c) = 0
    /\ FileSystem.blocks (FileSystem.inode_table c 0) 0 = 171
    /\ FileSystem.free_blocks (FileSystem.sb c) = 28.
Proof.
  destruct (fs_format_fresh_store 84 200 "GameOS"%string)
    as (c & Hr & Hroot & _ & _ & _ & _ & _ & _ & _ & _ & Hb & _ & Hf & _).
  - lia.
  - lia.
  - exists c. split; [exact Hr|]. split; [exact Hroot|].
    split; [exact Hb | exact Hf].
Defined.

(** X16. [fs_format] on a store whose block bitmap is empty, which is
    what [fs_init] leaves for 0 blocks and for more than 2^32 - 4096
    blocks, marks block 0 outside the bitmap: the call has no defined
    result. *)
Theorem fs_format_empty_bitmap (isz total : Z) (name : String.string)
    (calloc_ok : bool) :
  total = 0 \/ 2 ^ 32 - 4096 < total < 2 ^ 32 ->
  FileSystem.bitmap_blocks
    (FileSystem.sb (fst (FileSystem.fs_init isz total calloc_ok))) = 0
  /\ FileSystem.fs_format (fst (FileSystem.fs_init isz total calloc_ok)) name = None.
Proof.
  intros Ht.
  set (c0 := fst (FileSystem.fs_init isz total calloc_ok)).
  assert (Ebb : FileSystem.bitmap_blocks (FileSystem.sb c0) = 0).
  { change (FileSystem.bitmap_blocks (FileSystem.sb c0))
      with (sub32 (add32 total (FileSystem.BLOCK_SIZE * 8)) 1
            / (FileSystem.BLOCK_SIZE * 8)).
    unfold FileSystem.BLOCK_SIZE. change (512 * 8) with 4096.
    apply Z.div_small. unfold sub32, add32, wrap.
    rewrite Zminus_mod_idemp_l.
    destruct Ht as [-> | Ht].
    - rewrite Z.mod_small by lia. lia.
    - replace (total + 4096 - 1) with (total - 2 ^ 32 + 4095 + 1 * 2 ^ 32) by lia.
      rewrite Z.mod_add by lia. rewrite Z.mod_small by lia. lia. }
  split; [exact Ebb|].
  unfold FileSystem.fs_format. cbv zeta.
  match goal with
  | |- context [FileSystem.mark_system_blocks _ 0 ?c] => set (c1 := c)
  end.
  set (k := Z.to_nat (FileSystem.first_data_block (FileSystem.sb c1))).
  assert (Hk : (1 <= k)%nat).
  { unfold k.
    change (FileSystem.first_data_block (FileSystem.sb c1))
      with (add32 (add32 (add32 1 (FileSystem.bitmap_blocks (FileSystem.sb c0))) 1)
              (FileSystem.inode_table_blocks (FileSystem.sb c0))).
    rewrite Ebb.
    change (FileSystem.inode_table_blocks (FileSystem.sb c0))
      with (sub32 (add32 (mul32 FileSystem.MAX_FILES isz) FileSystem.BLOCK_SIZE) 1
            / FileSystem.BLOCK_SIZE).
    set (x := sub32 (add32 (mul32 FileSystem.MAX_FILES isz) FileSystem.BLOCK_SIZE) 1).
    assert (Hx : 0 <= x < 2 ^ 32) by (unfold x, sub32; apply wrap_range).
    assert (Hq : 0 <= x / FileSystem.BLOCK_SIZE < 2 ^ 23).
    { unfold FileSystem.BLOCK_SIZE. split.
      - apply Z.div_pos; lia.
      - apply Z.div_lt_upper_bound; [lia|]. change (512 * 2 ^ 23) with (2 ^ 32). lia. }
    change (add32 (add32 1 0) 1) with 2.
    unfold add32. rewrite wrap_small by lia. lia. }
  destruct k as [|k']; [lia|].
  change (FileSystem.mark_system_blocks (S k') 0 c1)
    with (if FileSystem.in_array (FileSystem.block_bitmap_size c1) (0 / 8) then
            FileSystem.mark_system_blocks k' (0 + 1)
              (FileSystem.with_sb
                 (FileSystem.with_block_bitmap c1
                    (FileSystem.bit_set (FileSystem.block_bitmap c1) 0))
                 (FileSystem.set_free_blocks (FileSystem.sb c1)
                    (sub32 (FileSystem.free_blocks (FileSystem.sb c1)) 1)))
          else None).
  change (FileSystem.block_bitmap_size c1)
    with (FileSystem.bitmap_blocks (FileSystem.sb c0) * FileSystem.BLOCK_SIZE).
  rewrite Ebb. reflexivity.
Qed.

Lemma fs_format_empty_bitmap_witness :
  FileSystem.fs_format (fst (FileSystem.fs_init 84 0 true)) "GameOS"%string = None.
Proof.
  apply (fs_format_empty_bitmap 84 0 "GameOS"%string true).
  left. reflexivity.
Defined.

(** ** File creation *)

(** X17. [fs_create_file] on a store where inode 0 is in use and [t] is
    the lowest free inode: for every path whose directory part fits
    [dir_path] the call returns 0 and leaves the same store, whatever the
    path is; inode [t] is marked in use and initialised with its number,
    the type, permissions 0644, size 0 and no block, its other fields
    being what the table held before; the other inodes, the block bitmap
    and the data are untouched. *)
Theorem fs_create_file_takes_lowest_free_inode (c : FileSystem.fs_context_t)
    (ty : FileSystem.file_type_t) (t : Z) :
  FileSystem.free_inodes (FileSystem.sb c) <> 0 ->
  FileSystem.total_inodes (FileSystem.sb c) <= FileSystem.MAX_FILES ->
  1 <= t < FileSystem.total_inodes (FileSystem.sb c) ->
  FileSystem.bit_test (FileSystem.inode_bitmap c) t = false ->
  (forall j, 0 <= j < t -> FileSystem.bit_test (FileSystem.inode_bitmap c) j = true) ->
  exists c',
    (forall path,
       (forall k, FileSystem.strrchr path "/"%char = Some k ->
                  Z.of_nat k < FileSystem.MAX_PATH) ->
       FileSystem.fs_create_file c path ty = Some (c', 0))
    /\ (forall j, FileSystem.bit_test (FileSystem.inode_bitmap c') j
                  = if j =? t then true
                    else FileSystem.bit_test (FileSystem.inode_bitmap c) j)
    /\ FileSystem.free_inodes (FileSystem.sb c')
       = sub32 (FileSystem.free_inodes (FileSystem.sb c)) 1
    /\ FileSystem.inode_num (FileSystem.inode_table c' t) = t
    /\ FileSystem.type (FileSystem.attributes (FileSystem.inode_table c' t))
       = FileSystem.file_type_value ty
    /\ FileSystem.permissions (FileSystem.attributes (FileSystem.inode_table c' t))
       = 420
    /\ FileSystem.size (FileSystem.attributes (FileSystem.inode_table c' t)) = 0
    /\ FileSystem.block_count (FileSystem.inode_table c' t) = 0
    /\ FileSystem.blocks (FileSystem.inode_table c' t)
       = FileSystem.blocks (FileSystem.inode_table c t)
    /\ (forall j, j <> t -> FileSystem.inode_table c' j = FileSystem.inode_table c j)
    /\ FileSystem.block_bitmap c' = FileSystem.block_bitmap c
    /\ FileSystem.data_blocks c' = FileSystem.data_blocks c
    /\ FileSystem.free_blocks (FileSystem.sb c')
       = FileSystem.free_blocks (FileSystem.sb c).
Proof.
  intros Hfree Htot Ht Hclear Hbefore.
  assert (Hin : FileSystem.in_array FileSystem.MAX_FILES t = true).
  { unfold FileSystem.in_array.
    destruct (Z.leb_spec 0 t); [|lia].
    destruct (Z.ltb_spec t FileSystem.MAX_FILES); [reflexivity | lia]. }
  eexists. split.
  { intros path Hpath. unfold FileSystem.fs_create_file. cbv zeta.
    assert (Hfits : match FileSystem.strrchr path "/"%char with
                    | Some k => Z.of_nat k <? FileSystem.MAX_PATH
                    | None => true
                    end = true).
    { destruct (FileSystem.strrchr path "/"%char) as [k|]; [|reflexivity].
      apply Z.ltb_lt. apply Hpath. reflexivity. }
    rewrite Hfits.
    rewrite (allocate_inode_found c t); try assumption.
    - assert (Hz : (t =? 0) = false) by (apply Z.eqb_neq; lia).
      rewrite Hz, Hin. reflexivity.
    - lia.
    - unfold FileSystem.MAX_FILES in Htot. unfold FileSystem.inode_bitmap_size,
        FileSystem.BLOCK_SIZE. lia. }
  split; [intros j; apply bit_test_set|].
  split; [reflexivity|].
  cbn [FileSystem.inode_table FileSystem.with_inode_table].
  unfold FileSystem.store_at. rewrite Z.eqb_refl.
  split; [reflexivity|]. split; [reflexivity|]. split; [reflexivity|].
  split; [reflexivity|]. split; [reflexivity|]. split; [reflexivity|].
  split.
  { intros j Hj. apply Z.eqb_neq in Hj. rewrite Hj. reflexivity. }
  split; [reflexivity|]. split; reflexivity.
Qed.

Lemma fs_create_file_takes_lowest_free_inode_witness :
  exists c',
    FileSystem.fs_create_file formatted_store "/games/pong.game"%string
      FileSystem.FILE_TYPE_GAME = Some (c', 0)
    /\ FileSystem.fs_create_file formatted_store "other"%string
         FileSystem.FILE_TYPE_GAME = Some (c', 0)
    /\ FileSystem.inode_num (FileSystem.inode_table c' 1) = 1.
Proof.
  destruct (fs_create_file_takes_lowest_free_inode formatted_store
              FileSystem.FILE_TYPE_GAME 1)
    as (c' & Hrun & _ & _ & Hnum & _).
  - vm_compute. intro H. discriminate H.
  - vm_compute. intro H. discriminate H.
  - split; vm_compute; [intro H; discriminate H | reflexivity].
  - vm_compute. reflexivity.
  - intros j Hj. assert (E : j = 0) by lia. subst j. vm_compute. reflexivity.
  - exists c'. split; [|split; [|exact Hnum]].
    + apply Hrun. intros k Hk. vm_compute in Hk. inversion Hk. vm_compute. reflexivity.
    + apply Hrun. intros k Hk. vm_compute in Hk. discriminate Hk.
Defined.

(** X18. [fs_create_file] on a store where inode 0 is free, as [fs_init]
    leaves it: the call returns -1, yet inode 0 has been marked in use
    and taken off the free count, the inode table being untouched. *)
Theorem fs_create_file_loses_inode_zero (c : FileSystem.fs_context_t)
    (path : String.string) (ty : FileSystem.file_type_t) :
  FileSystem.free_inodes (FileSystem.sb c) <> 0 ->
  1 <= FileSystem.total_inodes (FileSystem.sb c) <= FileSystem.MAX_FILES ->
  FileSystem.bit_test (FileSystem.inode_bitmap c) 0 = false ->
  (forall k, FileSystem.strrchr path "/"%char = Some k ->
             Z.of_nat k < FileSystem.MAX_PATH) ->
  exists c',
    FileSystem.fs_create_file c path ty = Some (c', -1)
    /\ FileSystem.bit_test (FileSystem.inode_bitmap c') 0 = true
    /\ FileSystem.free_inodes (FileSystem.sb c')
       = sub32 (FileSystem.free_inodes (FileSystem.sb c)) 1
    /\ FileSystem.inode_table c' = FileSystem.inode_table c
    /\ FileSystem.block_bitmap c' = FileSystem.block_bitmap c.
Proof.
  intros Hfree Htot Hclear Hpath.
  unfold FileSystem.fs_create_file. cbv zeta.
  assert (Hfits : match FileSystem.strrchr path "/"%char with
                  | Some k => Z.of_nat k <? FileSystem.MAX_PATH
                  | None => true
                  end = true).
  { destruct (FileSystem.strrchr path "/"%char) as [k|]; [|reflexivity].
    apply Z.ltb_lt. apply Hpath. reflexivity. }
  rewrite Hfits.
  rewrite (allocate_inode_found c 0); try assumption.
  - eexists. split; [reflexivity|]. simpl.
    split; [rewrite bit_test_set; reflexivity|]. repeat split.
  - lia.
  - unfold FileSystem.MAX_FILES in Htot. unfold FileSystem.inode_bitmap_size,
      FileSystem.BLOCK_SIZE. lia.
  - intros j Hj. lia.
Qed.

Lemma fs_create_file_loses_inode_zero_witness :
  exists c',
    FileSystem.fs_create_file small_store "save.dat"%string
      FileSystem.FILE_TYPE_SAVE = Some (c', -1)
    /\ FileSystem.free_inodes (FileSystem.sb c') = 1023.
Proof.
  destruct (fs_create_file_loses_inode_zero small_store "save.dat"%string
              FileSystem.FILE_TYPE_SAVE)
    as (c' & Hrun & _ & Hf & _).
  - vm_compute. intro H. discriminate H.
  - split; vm_compute; intro H; discriminate H.
  - vm_compute. reflexivity.
  - intros k Hk. vm_compute in Hk. discriminate Hk.
  - exists c'. split; [exact Hrun | exact Hf].
Defined.

(** ** Writing and reading *)

Lemma data_eta (c : FileSystem.fs_context_t) :
  FileSystem.with_data_blocks c (FileSystem.data_blocks c) = c.
Proof. destruct c. reflexivity. Qed.

Lemma write_loop_done fuel c n sz pos idx off written buf :
  sz <= written ->
  FileSystem.write_loop fuel c n sz pos idx off written buf
  = Some (c, pos, written).
Proof.
  intros H. destruct fuel; simpl;
    destruct (Z.ltb_spec written sz); try lia; reflexivity.
Qed.

(** Offsets of one block. *)
Lemma same_block q pos :
  0 <= pos -> pos <= q < pos + (512 - pos mod 512) ->
  q / 512 = pos / 512 /\ q mod 512 = pos mod 512 + (q - pos).
Proof.
  intros Hp Hq.
  pose proof (Z.div_mod pos 512 ltac:(lia)) as E.
  pose proof (Z.mod_pos_bound pos 512 ltac:(lia)) as Hm.
  assert (Eq : q = 512 * (pos / 512) + (pos mod 512 + (q - pos))) by lia.
  assert (Hr : 0 <= pos mod 512 + (q - pos) < 512) by lia.
  split.
  - symmetry. apply (Z.div_unique q 512 (pos / 512) (pos mod 512 + (q - pos))).
    + left. exact Hr.
    + exact Eq.
  - symmetry. apply (Z.mod_unique q 512 (pos / 512) (pos mod 512 + (q - pos))).
    + left. exact Hr.
    + exact Eq.
Qed.

Lemma next_block pos :
  0 <= pos ->
  (pos + (512 - pos mod 512)) / 512 = pos / 512 + 1
  /\ (pos + (512 - pos mod 512)) mod 512 = 0.
Proof.
  intros Hp.
  pose proof (Z.div_mod pos 512 ltac:(lia)) as E.
  assert (Eq : pos + (512 - pos mod 512) = 512 * (pos / 512 + 1) + 0) by lia.
  split.
  - symmetry. apply (Z.div_unique _ 512 (pos / 512 + 1) 0); [left; lia | exact Eq].
  - symmetry. apply (Z.mod_unique _ 512 (pos / 512 + 1) 0); [left; lia | exact Eq].
Qed.

Lemma index_below_12 q : 0 <= q < 12 * 512 -> 0 <= q / 512 < 12.
Proof.
  intros H. split.
  - apply Z.div_pos; lia.
  - apply Z.div_lt_upper_bound; lia.
Qed.

(** The second loop of [fs_write] on blocks that are in the store and hold
    different offsets at different bytes: it ends, and the data area holds
    the buffer at the bytes of the offsets written and is unchanged
    elsewhere. *)
Lemma write_loop_spec n sz buf tot : forall fuel c pos written,
  FileSystem.total_blocks (FileSystem.sb c) = tot ->
  tot <= 2 ^ 23 ->
  0 <= written <= sz -> sz < 2 ^ 32 ->
  0 <= pos -> pos + (sz - written) <= 12 * 512 ->
  (forall q, pos <= q < pos + (sz - written) ->
             0 <= FileSystem.blocks n (q / 512) < tot) ->
  (forall q1 q2, pos <= q1 < pos + (sz - written) ->
                 pos <= q2 < pos + (sz - written) ->
                 byte_address n q1 = byte_address n q2 -> q1 = q2) ->
  sz - written <= Z.of_nat fuel ->
  exists d',
    FileSystem.write_loop fuel c n sz pos (pos / 512) (pos mod 512) written buf
    = Some (FileSystem.with_data_blocks c d', pos + (sz - written), sz)
    /\ (forall q, pos <= q < pos + (sz - written) ->
                  d' (byte_address n q) = buf (written + (q - pos)))
    /\ (forall a, (forall q, pos <= q < pos + (sz - written) ->
                             a <> byte_address n q) ->
                  d' a = FileSystem.data_blocks c a).
Proof.
  induction fuel as [|fuel IH]; intros c pos written Htot H23 Hw Hsz Hpos Hend Hb Hinj
    Hfuel.
  - assert (written = sz) by lia. subst written.
    exists (FileSystem.data_blocks c).
    rewrite write_loop_done by lia. rewrite data_eta.
    replace (pos + (sz - sz)) with pos by lia.
    split; [reflexivity|].
    split; [intros q Hq; lia | intros a _; reflexivity].
  - destruct (Z.eq_dec written sz) as [-> | Hne].
    { exists (FileSystem.data_blocks c).
      rewrite write_loop_done by lia. rewrite data_eta.
      replace (pos + (sz - sz)) with pos by lia.
      split; [reflexivity|].
      split; [intros q Hq; lia | intros a _; reflexivity]. }
    assert (Hlt : written < sz) by lia.
    pose proof (Z.mod_pos_bound pos 512 ltac:(lia)) as Hoff.
    pose proof (index_below_12 pos ltac:(lia)) as Hidx.
    set (bn := FileSystem.blocks n (pos / 512)).
    assert (Hbn : 0 <= bn < tot) by (apply Hb; lia).
    set (k := if sz - written <? 512 - pos mod 512 then sz - written
              else 512 - pos mod 512).
    assert (Hk : 1 <= k <= sz - written /\ k <= 512 - pos mod 512).
    { unfold k. destruct (Z.ltb_spec (sz - written) (512 - pos mod 512)); lia. }
    set (dst := bn * 512 + pos mod 512).
    set (c1 := FileSystem.with_data_blocks c
                 (FileSystem.memcpy (FileSystem.data_blocks c) dst buf written k)).
    assert (Hstep :
      FileSystem.write_loop (S fuel) c n sz pos (pos / 512) (pos mod 512) written buf
      = FileSystem.write_loop fuel c1 n sz (pos + k) (pos / 512 + 1) 0
          (written + k) buf).
    { change (FileSystem.write_loop (S fuel) c n sz pos (pos / 512) (pos mod 512)
                written buf)
        with (if written <? sz then
                if FileSystem.in_array 12 (pos / 512) then
                  let block_num := FileSystem.blocks n (pos / 512) in
                  let k := sub32 FileSystem.BLOCK_SIZE (pos mod 512) in
                  let k := if sub32 sz written <? k then sub32 sz written else k in
                  let dst := mul32 block_num FileSystem.BLOCK_SIZE + pos mod 512 in
                  if (0 <=? dst) && (dst + k <=? FileSystem.data_size c) then
                    FileSystem.write_loop fuel
                      (FileSystem.with_data_blocks c
                         (FileSystem.memcpy (FileSystem.data_blocks c) dst buf
                            written k))
                      n sz (add32 pos k) (add32 (pos / 512) 1) 0
                      (add32 written k) buf
                  else None
                else None
              else Some (c, pos, written)).
      destruct (Z.ltb_spec written sz) as [_ | ?]; [|lia].
      assert (Hin : FileSystem.in_array 12 (pos / 512) = true).
      { unfold FileSystem.in_array.
        destruct (Z.leb_spec 0 (pos / 512)); [|lia].
        destruct (Z.ltb_spec (pos / 512) 12); [reflexivity | lia]. }
      rewrite Hin. cbv zeta. unfold FileSystem.BLOCK_SIZE.
      rewrite (sub32_small 512 (pos mod 512)) by lia.
      rewrite (sub32_small sz written) by lia.
      fold k. fold bn.
      unfold mul32. rewrite (wrap_small (bn * 512)).
      2:{ change (2 ^ 32) with (2 ^ 23 * 512). nia. }
      fold dst.
      assert (Hd0 : 0 <= dst) by (unfold dst; nia).
      assert (Hd1 : dst + k <= FileSystem.data_size c).
      { unfold FileSystem.data_size, FileSystem.BLOCK_SIZE. rewrite Htot.
        unfold dst. nia. }
      destruct (Z.leb_spec 0 dst); [|lia].
      destruct (Z.leb_spec (dst + k) (FileSystem.data_size c)); [|lia].
      simpl andb. cbv iota.
      unfold add32. rewrite !wrap_small by lia. reflexivity. }
    rewrite Hstep.
    assert (Hchunk : forall q, pos <= q < pos + k ->
              byte_address n q = dst + (q - pos)).
    { intros q Hq. unfold byte_address, FileSystem.BLOCK_SIZE.
      destruct (same_block q pos Hpos ltac:(lia)) as (-> & ->).
      fold bn. unfold dst. lia. }
    destruct (Z.eq_dec (written + k) sz) as [Hlast | Hmore].
    + (* the last chunk *)
      rewrite write_loop_done by lia.
      exists (FileSystem.memcpy (FileSystem.data_blocks c) dst buf written k).
      replace (pos + (sz - written)) with (pos + k) by lia.
      replace (written + k) with sz by lia.
      split; [reflexivity|].
      split.
      * intros q Hq. rewrite Hchunk by lia. unfold FileSystem.memcpy.
        destruct (Z.leb_spec dst (dst + (q - pos))); [|lia].
        destruct (Z.ltb_spec (dst + (q - pos)) (dst + k)); [|lia].
        simpl andb. cbv iota. f_equal. lia.
      * intros a Ha. unfold FileSystem.memcpy.
        destruct (Z.leb_spec dst a); [|reflexivity].
        destruct (Z.ltb_spec a (dst + k)); [|reflexivity].
        exfalso. apply (Ha (pos + (a - dst))); [lia|].
        rewrite Hchunk by lia. lia.
    + (* a whole block end is reached *)
      assert (Ek : k = 512 - pos mod 512).
      { unfold k in *. destruct (Z.ltb_spec (sz - written) (512 - pos mod 512)); lia. }
      destruct (next_block pos Hpos) as (Ediv & Emod).
      rewrite <- Ek in Ediv, Emod.
      destruct (IH c1 (pos + k) (written + k)) as (d' & Hrun & Hdata & Hframe).
      * exact Htot.
      * exact H23.
      * lia.
      * exact Hsz.
      * lia.
      * lia.
      * intros q Hq. apply Hb. lia.
      * intros q1 q2 Hq1 Hq2. apply Hinj; lia.
      * lia.
      * rewrite Ediv, Emod in Hrun. rewrite Hrun.
        replace (pos + k + (sz - (written + k))) with (pos + (sz - written)) by lia.
        exists d'. split; [reflexivity|].
        split.
        -- intros q Hq.
           destruct (Z.lt_ge_cases q (pos + k)) as [Hq1 | Hq2].
           ++ rewrite Hframe.
              ** unfold c1. simpl FileSystem.data_blocks.
                 rewrite Hchunk by lia. unfold FileSystem.memcpy.
                 destruct (Z.leb_spec dst (dst + (q - pos))); [|lia].
                 destruct (Z.ltb_spec (dst + (q - pos)) (dst + k)); [|lia].
                 simpl andb. cbv iota. f_equal. lia.
              ** intros q' Hq' E. assert (q = q') by (apply Hinj; [lia | lia | exact E]).
                 lia.
           ++ rewrite Hdata by lia. f_equal. lia.
        -- intros a Ha. rewrite Hframe.
           ++ unfold c1. simpl FileSystem.data_blocks. unfold FileSystem.memcpy.
              destruct (Z.leb_spec dst a); [|reflexivity].
              destruct (Z.ltb_spec a (dst + k)); [|reflexivity].
              exfalso. apply (Ha (pos + (a - dst))); [lia|].
              rewrite Hchunk by lia. lia.
           ++ intros q Hq. apply Ha. lia.
Qed.

Lemma read_loop_done fuel c n sz pos idx off rd b :
  sz <= rd ->
  FileSystem.read_loop fuel c n sz pos idx off rd b = Some (pos, rd, b).
Proof.
  intros H. destruct fuel; simpl;
    destruct (Z.ltb_spec rd sz); try lia; reflexivity.
Qed.

(** The loop of [fs_read] on a file that holds the offsets asked for, in
    blocks of the store: it ends, and the buffer receives the bytes of the
    data area at those offsets. *)
Lemma read_loop_spec c n sz tot : forall fuel pos rd b,
  FileSystem.total_blocks (FileSystem.sb c) = tot ->
  tot <= 2 ^ 23 ->
  0 <= rd <= sz -> sz < 2 ^ 32 ->
  0 <= pos -> pos + (sz - rd) <= 12 * 512 ->
  pos + (sz - rd) <= FileSystem.size (FileSystem.attributes n) < 2 ^ 32 ->
  (forall q, pos <= q < pos + (sz - rd) ->
             q / 512 < FileSystem.block_count n
             /\ 0 <= FileSystem.blocks n (q / 512) < tot) ->
  sz - rd <= Z.of_nat fuel ->
  exists b',
    FileSystem.read_loop fuel c n sz pos (pos / 512) (pos mod 512) rd b
    = Some (pos + (sz - rd), sz, b')
    /\ (forall a, rd <= a < sz ->
                  b' a = FileSystem.data_blocks c (byte_address n (pos + (a - rd))))
    /\ (forall a, ~ rd <= a < sz -> b' a = b a).
Proof.
  induction fuel as [|fuel IH]; intros pos rd b Htot H23 Hr Hsz Hpos Hend Hsize Hb
    Hfuel.
  - assert (rd = sz) by lia. subst rd.
    exists b. rewrite read_loop_done by lia.
    replace (pos + (sz - sz)) with pos by lia.
    split; [reflexivity|].
    split; [intros a Ha; lia | intros a _; reflexivity].
  - destruct (Z.eq_dec rd sz) as [-> | Hne].
    { exists b. rewrite read_loop_done by lia.
      replace (pos + (sz - sz)) with pos by lia.
      split; [reflexivity|].
      split; [intros a Ha; lia | intros a _; reflexivity]. }
    assert (Hlt : rd < sz) by lia.
    pose proof (Z.mod_pos_bound pos 512 ltac:(lia)) as Hoff.
    pose proof (index_below_12 pos ltac:(lia)) as Hidx.
    set (bn := FileSystem.blocks n (pos / 512)).
    destruct (Hb pos ltac:(lia)) as (Hcount & Hbn). fold bn in Hbn.
    set (k := if sz - rd <? 512 - pos mod 512 then sz - rd else 512 - pos mod 512).
    assert (Hk : 1 <= k <= sz - rd /\ k <= 512 - pos mod 512).
    { unfold k. destruct (Z.ltb_spec (sz - rd) (512 - pos mod 512)); lia. }
    set (src := bn * 512 + pos mod 512).
    set (b1 := FileSystem.memcpy b rd (FileSystem.data_blocks c) src k).
    assert (Hstep :
      FileSystem.read_loop (S fuel) c n sz pos (pos / 512) (pos mod 512) rd b
      = FileSystem.read_loop fuel c n sz (pos + k) (pos / 512 + 1) 0 (rd + k) b1).
    { change (FileSystem.read_loop (S fuel) c n sz pos (pos / 512) (pos mod 512) rd b)
        with (if (rd <? sz) && (pos <? FileSystem.size (FileSystem.attributes n)) then
                if FileSystem.block_count n <=? pos / 512 then Some (pos, rd, b)
                else
                  if FileSystem.in_array 12 (pos / 512) then
                    let block_num := FileSystem.blocks n (pos / 512) in
                    let k := sub32 FileSystem.BLOCK_SIZE (pos mod 512) in
                    let k := if sub32 sz rd <? k then sub32 sz rd else k in
                    let k := if sub32 (FileSystem.size (FileSystem.attributes n)) pos
                                <? k
                             then sub32 (FileSystem.size (FileSystem.attributes n)) pos
                             else k in
                    let src := mul32 block_num FileSystem.BLOCK_SIZE + pos mod 512 in
                    if (0 <=? src) && (src + k <=? FileSystem.data_size c) then
                      FileSystem.read_loop fuel c n sz (add32 pos k)
                        (add32 (pos / 512) 1) 0 (add32 rd k)
                        (FileSystem.memcpy b rd (FileSystem.data_blocks c) src k)
                    else None
                  else None
              else Some (pos, rd, b)).
      destruct (Z.ltb_spec rd sz) as [_ | ?]; [|lia].
      destruct (Z.ltb_spec pos (FileSystem.size (FileSystem.attributes n)))
        as [_ | ?]; [|lia].
      simpl andb. cbv iota.
      destruct (Z.leb_spec (FileSystem.block_count n) (pos / 512)) as [? | _]; [lia|].
      assert (Hin : FileSystem.in_array 12 (pos / 512) = true).
      { unfold FileSystem.in_array.
        destruct (Z.leb_spec 0 (pos / 512)); [|lia].
        destruct (Z.ltb_spec (pos / 512) 12); [reflexivity | lia]. }
      rewrite Hin. cbv zeta. unfold FileSystem.BLOCK_SIZE.
      rewrite (sub32_small 512 (pos mod 512)) by lia.
      rewrite (sub32_small sz rd) by lia.
      rewrite (sub32_small (FileSystem.size (FileSystem.attributes n)) pos) by lia.
      fold k. fold bn.
      destruct (Z.ltb_spec (FileSystem.size (FileSystem.attributes n) - pos) k)
        as [? | _]; [lia|].
      unfold mul32. rewrite (wrap_small (bn * 512)).
      2:{ change (2 ^ 32) with (2 ^ 23 * 512). nia. }
      fold src.
      assert (Hd0 : 0 <= src) by (unfold src; nia).
      assert (Hd1 : src + k <= FileSystem.data_size c).
      { unfold FileSystem.data_size, FileSystem.BLOCK_SIZE. rewrite Htot.
        unfold src. nia. }
      destruct (Z.leb_spec 0 src); [|lia].
      destruct (Z.leb_spec (src + k) (FileSystem.data_size c)); [|lia].
      simpl andb. cbv iota.
      unfold add32. rewrite !wrap_small by lia. reflexivity. }
    rewrite Hstep.
    assert (Hchunk : forall q, pos <= q < pos + k ->
              byte_address n q = src + (q - pos)).
    { intros q Hq. unfold byte_address, FileSystem.BLOCK_SIZE.
      destruct (same_block q pos Hpos ltac:(lia)) as (-> & ->).
      fold bn. unfold src. lia. }
    assert (Hb1 : forall a, rd <= a < rd + k ->
              b1 a = FileSystem.data_blocks c (byte_address n (pos + (a - rd)))).
    { intros a Ha. unfold b1, FileSystem.memcpy.
      destruct (Z.leb_spec rd a); [|lia].
      destruct (Z.ltb_spec a (rd + k)); [|lia].
      simpl andb. cbv iota. rewrite Hchunk by lia. f_equal. lia. }
    assert (Hb1' : forall a, ~ rd <= a < rd + k -> b1 a = b a).
    { intros a Ha. unfold b1, FileSystem.memcpy.
      destruct (Z.leb_spec rd a); [|reflexivity].
      destruct (Z.ltb_spec a (rd + k)); [lia | reflexivity]. }
    destruct (Z.eq_dec (rd + k) sz) as [Hlast | Hmore].
    + rewrite read_loop_done by lia.
      replace (pos + (sz - rd)) with (pos + k) by lia.
      replace (rd + k) with sz in * by lia.
      exists b1. split; [reflexivity|].
      split; [exact Hb1 | exact Hb1'].
    + assert (Ek : k = 512 - pos mod 512).
      { unfold k in *. destruct (Z.ltb_spec (sz - rd) (512 - pos mod 512)); lia. }
      destruct (next_block pos Hpos) as (Ediv & Emod).
      rewrite <- Ek in Ediv, Emod.
      destruct (IH (pos + k) (rd + k) b1) as (b' & Hrun & Hdata & Hframe).
      * exact Htot.
      * exact H23.
      * lia.
      * exact Hsz.
      * lia.
      * lia.
      * lia.
      * intros q Hq. apply Hb. lia.
      * lia.
      * rewrite Ediv, Emod in Hrun. rewrite Hrun.
        replace (pos + k + (sz - (rd + k))) with (pos + (sz - rd)) by lia.
        exists b'. split; [reflexivity|].
        split.
        -- intros a Ha.
           destruct (Z.lt_ge_cases a (rd + k)) as [Ha1 | Ha2].
           ++ rewrite Hframe by lia. apply Hb1. lia.
           ++ rewrite Hdata by lia. f_equal. f_equal. lia.
        -- intros a Ha. rewrite Hframe by lia. apply Hb1'. lia.
Qed.

(** Different offsets of a file whose blocks are distinct lie at
    different bytes. *)
Lemma byte_address_injective n lim q1 q2 :
  (forall i j, 0 <= i < lim -> 0 <= j < lim ->
               FileSystem.blocks n i = FileSystem.blocks n j -> i = j) ->
  0 <= q1 -> 0 <= q2 -> q1 / 512 < lim -> q2 / 512 < lim ->
  byte_address n q1 = byte_address n q2 -> q1 = q2.
Proof.
  intros Hd H1 H2 L1 L2 E. unfold byte_address, FileSystem.BLOCK_SIZE in E.
  pose proof (Z.mod_pos_bound q1 512 ltac:(lia)) as M1.
  pose proof (Z.mod_pos_bound q2 512 ltac:(lia)) as M2.
  assert (Eb : FileSystem.blocks n (q1 / 512) = FileSystem.blocks n (q2 / 512)) by lia.
  assert (Em : q1 mod 512 = q2 mod 512) by lia.
  assert (Ei : q1 / 512 = q2 / 512).
  { apply Hd; [split; [apply Z.div_pos; lia | exact L1]
              | split; [apply Z.div_pos; lia | exact L2] | exact Eb]. }
  rewrite (Z.div_mod q1 512), (Z.div_mod q2 512) by lia. rewrite Ei, Em. reflexivity.
Qed.

(** The first loop of [fs_write], when it succeeds, leaves an inode with
    enough blocks, all of them blocks of the store in use and distinct. *)
Lemma grow_inode_sound ino needed : forall fuel c c1,
  FileSystem.grow_inode fuel c ino needed = Some (c1, true) ->
  file_blocks_ok c (FileSystem.inode_table c ino) ->
  0 <= FileSystem.first_data_block (FileSystem.sb c) ->
  needed < 2 ^ 32 ->
  file_blocks_ok c1 (FileSystem.inode_table c1 ino)
  /\ needed <= FileSystem.block_count (FileSystem.inode_table c1 ino)
  /\ FileSystem.total_blocks (FileSystem.sb c1)
     = FileSystem.total_blocks (FileSystem.sb c)
  /\ FileSystem.data_blocks c1 = FileSystem.data_blocks c
  /\ FileSystem.attributes (FileSystem.inode_table c1 ino)
     = FileSystem.attributes (FileSystem.inode_table c ino).
Proof.
  induction fuel as [|fuel IH]; intros c c1 H Hok Hfd Hn.
  - simpl in H.
    destruct (Z.ltb_spec (FileSystem.block_count (FileSystem.inode_table c ino)) needed)
      as [Hlt | Hge]; [discriminate H|].
    assert (E : c1 = c) by congruence. subst c1.
    split; [exact Hok|]. split; [exact Hge|]. repeat split.
  - set (n := FileSystem.inode_table c ino) in *.
    set (bc := FileSystem.block_count n) in *.
    change (FileSystem.grow_inode (S fuel) c ino needed)
      with (if bc <? needed then
              match FileSystem.allocate_block c with
              | None => None
              | Some (c2, new_block) =>
                  if new_block =? 0 then Some (c2, false)
                  else
                    FileSystem.grow_inode fuel
                      (FileSystem.with_inode_table c2
                         (FileSystem.store_at (FileSystem.inode_table c2) ino
                            (FileSystem.set_block_count
                               (if FileSystem.block_count
                                     (FileSystem.inode_table c2 ino) <? 12
                                then FileSystem.set_blocks
                                       (FileSystem.inode_table c2 ino)
                                       (FileSystem.store_at
                                          (FileSystem.blocks
                                             (FileSystem.inode_table c2 ino))
                                          (FileSystem.block_count
                                             (FileSystem.inode_table c2 ino))
                                          new_block)
                                else FileSystem.inode_table c2 ino)
                               (add32
                                  (FileSystem.block_count
                                     (if FileSystem.block_count
                                           (FileSystem.inode_table c2 ino) <? 12
                                      then FileSystem.set_blocks
                                             (FileSystem.inode_table c2 ino)
                                             (FileSystem.store_at
                                                (FileSystem.blocks
                                                   (FileSystem.inode_table c2 ino))
                                                (FileSystem.block_count
                                                   (FileSystem.inode_table c2 ino))
                                                new_block)
                                      else FileSystem.inode_table c2 ino))
                                  1))))
                      ino needed
              end
            else Some (c, true)) in H.
    destruct (Z.ltb_spec bc needed) as [Hlt | Hge].
    2:{ assert (E : c1 = c) by congruence. subst c1.
        split; [exact Hok|]. split; [exact Hge|]. repeat split. }
    destruct (FileSystem.allocate_block c) as [[c2 t]|] eqn:Ha; [|discriminate H].
    destruct (Z.eqb_spec t 0) as [Ht0 | Ht0]; [discriminate H|].
    destruct (allocate_block_taken _ _ _ Ha Ht0) as (Hr & Hclear & _ & _ & E2).
    subst c2.
    cbn [FileSystem.inode_table FileSystem.with_sb FileSystem.with_block_bitmap] in H.
    fold n in H. fold bc in H.
    destruct Hok as (Hbc0 & Hblocks).
    assert (Hcount : forall m, FileSystem.block_count
                       (if bc <? 12 then FileSystem.set_blocks n m else n) = bc).
    { intros m. destruct (bc <? 12); reflexivity. }
    rewrite Hcount in H.
    set (n' := FileSystem.set_block_count
                 (if bc <? 12
                  then FileSystem.set_blocks n
                         (FileSystem.store_at (FileSystem.blocks n) bc t)
                  else n) (add32 bc 1)) in H.
    assert (Hbc' : FileSystem.block_count n' = bc + 1).
    { unfold n'. simpl. apply add32_small. lia. }
    assert (Hbl' : forall i, FileSystem.blocks n' i
                     = if (bc <? 12) && (i =? bc) then t else FileSystem.blocks n i).
    { intros i. unfold n'. simpl.
      destruct (bc <? 12); simpl; [|reflexivity].
      unfold FileSystem.store_at. reflexivity. }
    assert (Hat' : FileSystem.attributes n' = FileSystem.attributes n).
    { unfold n'. simpl. destruct (bc <? 12); reflexivity. }
    match type of H with
    | FileSystem.grow_inode fuel ?c ino needed = _ => set (c3 := c) in H
    end.
    assert (Hn3 : FileSystem.inode_table c3 ino = n').
    { unfold c3. simpl. unfold FileSystem.store_at. rewrite Z.eqb_refl. reflexivity. }
    assert (Hold : forall i, 0 <= i < bc -> i < 12 ->
              FileSystem.blocks n i <> t).
    { intros i Hi Hi12 E. destruct (Hblocks i Hi Hi12) as (_ & Hset & _).
      rewrite E in Hset. congruence. }
    destruct (IH c3 c1 H) as (Hok1 & Hneed1 & Htot1 & Hdata1 & Hattr1).
    + rewrite Hn3. split; [lia|].
      intros i Hi Hi12. rewrite Hbc' in Hi. rewrite !Hbl'.
      change (FileSystem.total_blocks (FileSystem.sb c3))
        with (FileSystem.total_blocks (FileSystem.sb c)).
      change (FileSystem.block_bitmap c3)
        with (FileSystem.bit_set (FileSystem.block_bitmap c) t).
      rewrite bit_test_set.
      destruct (Z.ltb_spec bc 12) as [Hb12 | Hb12];
        destruct (Z.eqb_spec i bc) as [Ei | Ei]; simpl andb; cbv iota.
      * subst i. split; [lia|]. rewrite Z.eqb_refl. split; [reflexivity|].
        intros j Hj Hj12. rewrite Hbc' in Hj. rewrite Hbl'.
        destruct (Z.ltb_spec bc 12) as [_ | ?]; [|lia].
        destruct (Z.eqb_spec j bc) as [Ej | Ej]; simpl andb; cbv iota.
        -- intros _. exact Ej.
        -- intros E. exfalso. apply (Hold j); [lia | exact Hj12 | exact E].
      * destruct (Hblocks i ltac:(lia) Hi12) as (Hrange & Hset & Hdist).
        split; [exact Hrange|].
        split; [destruct (FileSystem.blocks n i =? t); [reflexivity | exact Hset]|].
        intros j Hj Hj12. rewrite Hbc' in Hj. rewrite Hbl'.
        destruct (Z.ltb_spec bc 12) as [_ | ?]; [|lia].
        destruct (Z.eqb_spec j bc) as [Ej | Ej]; simpl andb; cbv iota.
        -- intros E. exfalso. apply (Hold i); [lia | exact Hi12 | symmetry; exact E].
        -- apply Hdist; [lia | exact Hj12].
      * lia.
      * destruct (Hblocks i ltac:(lia) Hi12) as (Hrange & Hset & Hdist).
        split; [exact Hrange|].
        split; [destruct (FileSystem.blocks n i =? t); [reflexivity | exact Hset]|].
        intros j Hj Hj12. rewrite Hbl'.
        destruct (Z.ltb_spec bc 12) as [? | _]; [lia|].
        simpl andb. cbv iota. apply Hdist; [lia | exact Hj12].
    + exact Hfd.
    + exact Hn.
    + split; [exact Hok1|]. split; [exact Hneed1|].
      split; [rewrite Htot1; reflexivity|].
      split; [rewrite Hdata1; reflexivity|].
      rewrite Hattr1, Hn3. exact Hat'.
Qed.

Lemma blocks_needed p n :
  0 <= p -> 0 <= n -> p + n <= 12 * 512 ->
  sub32 (add32 (add32 p n) FileSystem.BLOCK_SIZE) 1 / FileSystem.BLOCK_SIZE
  = (p + n + 511) / 512.
Proof.
  intros Hp Hn Hle. unfold FileSystem.BLOCK_SIZE, sub32, add32.
  rewrite (wrap_small (p + n)) by lia.
  rewrite (wrap_small (p + n + 512)) by lia.
  rewrite wrap_small by lia. f_equal. lia.
Qed.

Lemma offset_block_needed p n q :
  0 <= p -> p <= q < p + n -> q / 512 < (p + n + 511) / 512.
Proof.
  intros Hp Hq.
  apply Z.lt_le_trans with (q / 512 + 1); [lia|].
  replace (q / 512 + 1) with ((q + 1 * 512) / 512)
    by (rewrite Z.div_add by lia; reflexivity).
  apply Z.div_le_mono; lia.
Qed.

(** X19. What [fs_write] stores, [fs_read] returns.  Let the direct
    blocks of the handle's inode be blocks of the store, in use and
    distinct, and let a write of [n] bytes at the handle's position end
    within the 12 direct blocks and return something else than -1.  Then
    it returned [n] and moved the position by [n]; the file size is the
    larger of the old size and the new position; and a read of [n] bytes
    through any open handle on the same inode at the old position returns
    [n], moves to the new position, fills the buffer with the bytes
    written and changes nothing outside them. *)
Theorem fs_write_then_fs_read (c c' : FileSystem.fs_context_t)
    (h : FileSystem.file_handle_t) (h' : option FileSystem.file_handle_t)
    (buf : Z -> Z) (n r : Z) :
  file_blocks_ok c (FileSystem.inode_table c (FileSystem.inode h)) ->
  0 <= FileSystem.first_data_block (FileSystem.sb c) ->
  FileSystem.total_blocks (FileSystem.sb c) <= 2 ^ 23 ->
  0 <= FileSystem.size
         (FileSystem.attributes (FileSystem.inode_table c (FileSystem.inode h)))
    < 2 ^ 32 ->
  0 <= FileSystem.position h -> 0 <= n ->
  FileSystem.position h + n <= 12 * FileSystem.BLOCK_SIZE ->
  FileSystem.fs_write c (Some h) buf n = Some (c', h', r) ->
  r <> -1 ->
  r = n
  /\ h' = Some (FileSystem.mk_handle (FileSystem.inode h)
                  (FileSystem.position h + n) (FileSystem.mode h) true)
  /\ FileSystem.size
       (FileSystem.attributes (FileSystem.inode_table c' (FileSystem.inode h)))
     = Z.max (FileSystem.size
                (FileSystem.attributes
                   (FileSystem.inode_table c (FileSystem.inode h))))
         (FileSystem.position h + n)
  /\ forall md b0,
       exists b',
         FileSystem.fs_read c'
           (Some (FileSystem.mk_handle (FileSystem.inode h) (FileSystem.position h)
                    md true)) b0 n
         = Some (Some (FileSystem.mk_handle (FileSystem.inode h)
                         (FileSystem.position h + n) md true), b', n)
         /\ (forall a, 0 <= a < n -> b' a = buf a)
         /\ (forall a, ~ 0 <= a < n -> b' a = b0 a).
Proof.
  intros Hok Hfd H23 Hsize Hp Hn Hend H Hr.
  unfold FileSystem.BLOCK_SIZE in Hend.
  set (ino := FileSystem.inode h) in *.
  set (p := FileSystem.position h) in *.
  unfold FileSystem.fs_write in H.
  destruct (FileSystem.is_open h) eqn:Hopen; simpl negb in H; cbv iota in H.
  2:{ exfalso. apply Hr. congruence. }
  fold ino in H. fold p in H.
  destruct (FileSystem.in_array FileSystem.MAX_FILES ino) eqn:Hin; [|discriminate H].
  cbv zeta in H.
  rewrite (blocks_needed p n Hp Hn Hend) in H.
  set (needed := (p + n + 511) / 512) in H.
  assert (Hneeded : needed < 2 ^ 32).
  { unfold needed. apply Z.div_lt_upper_bound; lia. }
  destruct (FileSystem.grow_inode (Z.to_nat needed) c ino needed) as [[c1 ok]|] eqn:Hg;
    [|discriminate H].
  destruct ok.
  2:{ exfalso. apply Hr. congruence. }
  destruct (grow_inode_sound ino needed _ c c1 Hg Hok Hfd Hneeded)
    as (Hok1 & Hneed1 & Htot1 & Hdata1 & Hattr1).
  set (n1 := FileSystem.inode_table c1 ino) in *.
  destruct Hok1 as (Hbc1 & Hblocks1).
  assert (Hidx : forall q, p <= q < p + n ->
            0 <= q / 512 < FileSystem.block_count n1 /\ q / 512 < 12).
  { intros q Hq. pose proof (offset_block_needed p n q Hp Hq) as Hlt.
    fold needed in Hlt. pose proof (index_below_12 q ltac:(lia)). lia. }
  assert (Hrange : forall q, p <= q < p + n ->
            0 <= FileSystem.blocks n1 (q / 512)
            < FileSystem.total_blocks (FileSystem.sb c1)).
  { intros q Hq. destruct (Hidx q Hq) as (Hi & Hi12).
    destruct (Hblocks1 _ Hi Hi12) as (Hrg & _). exact Hrg. }
  assert (Hinj : forall q1 q2, p <= q1 < p + n -> p <= q2 < p + n ->
            byte_address n1 q1 = byte_address n1 q2 -> q1 = q2).
  { intros q1 q2 Hq1 Hq2 E.
    destruct (Hidx q1 Hq1) as (Hi1 & Hi1'). destruct (Hidx q2 Hq2) as (Hi2 & Hi2').
    apply (byte_address_injective n1
             (Z.min (FileSystem.block_count n1) 12)); try lia; try exact E.
    intros i j Hi Hj Eij.
    destruct (Hblocks1 j ltac:(lia) ltac:(lia)) as (_ & _ & Hd).
    apply Hd; [lia | lia | exact Eij]. }
  destruct (write_loop_spec n1 n buf (FileSystem.total_blocks (FileSystem.sb c1))
              (Z.to_nat n) c1 p 0) as (d' & Hrun & Hwritten & Hframe).
  { reflexivity. }
  { rewrite Htot1. exact H23. }
  { lia. }
  { lia. }
  { exact Hp. }
  { lia. }
  { intros q Hq. apply Hrange. lia. }
  { intros q1 q2 Hq1 Hq2. apply Hinj; lia. }
  { rewrite Z2Nat.id by lia. lia. }
  unfold FileSystem.BLOCK_SIZE in H. fold n1 in H.
  rewrite Hrun in H. clear Hrun.
  replace (p + (n - 0)) with (p + n) in * by lia.
  assert (Eint : FileSystem.int_of_uint32 n = n).
  { unfold FileSystem.int_of_uint32.
    destruct (Z.ltb_spec n (2 ^ 31)); [reflexivity | lia]. }
  rewrite Eint in H.
  cbn [FileSystem.inode_table FileSystem.with_data_blocks] in H.
  fold n1 in H.
  set (n2 := if FileSystem.size (FileSystem.attributes n1) <? p + n
             then FileSystem.set_attributes n1
                    (FileSystem.set_size (FileSystem.attributes n1) (p + n))
             else n1) in H.
  assert (Ec : c' = FileSystem.with_inode_table (FileSystem.with_data_blocks c1 d')
                      (FileSystem.store_at (FileSystem.inode_table c1) ino n2))
    by congruence.
  assert (Eh : h' = Some (FileSystem.mk_handle ino (p + n) (FileSystem.mode h) true))
    by congruence.
  assert (Er : r = n) by congruence.
  clear H.
  assert (Hn2 : FileSystem.inode_table c' ino = n2).
  { rewrite Ec. simpl. unfold FileSystem.store_at. rewrite Z.eqb_refl. reflexivity. }
  assert (Hsz2 : FileSystem.size (FileSystem.attributes n2)
                 = Z.max (FileSystem.size (FileSystem.attributes n1)) (p + n)).
  { unfold n2. destruct (Z.ltb_spec (FileSystem.size (FileSystem.attributes n1)) (p + n));
      simpl; lia. }
  assert (Hbl2 : FileSystem.blocks n2 = FileSystem.blocks n1).
  { unfold n2. destruct (_ <? _); reflexivity. }
  assert (Hbc2 : FileSystem.block_count n2 = FileSystem.block_count n1).
  { unfold n2. destruct (_ <? _); reflexivity. }
  assert (Hba2 : forall q, byte_address n2 q = byte_address n1 q).
  { intros q. unfold byte_address. rewrite Hbl2. reflexivity. }
  split; [exact Er|]. split; [exact Eh|].
  split; [rewrite Hn2, Hsz2, Hattr1; reflexivity|].
  intros md b0.
  unfold FileSystem.fs_read.
  cbn [FileSystem.is_open FileSystem.inode FileSystem.position FileSystem.mode negb].
  rewrite Hin, Hn2.
  destruct (read_loop_spec c' n2 n (FileSystem.total_blocks (FileSystem.sb c1))
              (Z.to_nat n) p 0 b0) as (b' & Hrun & Hread & Hkeep).
  { rewrite Ec. reflexivity. }
  { rewrite Htot1. exact H23. }
  { lia. }
  { lia. }
  { exact Hp. }
  { lia. }
  { rewrite Hsz2, Hattr1. lia. }
  { intros q Hq. rewrite Hbc2, Hbl2.
    destruct (Hidx q ltac:(lia)) as (Hi & _).
    split; [lia | apply Hrange; lia]. }
  { rewrite Z2Nat.id by lia. lia. }
  unfold FileSystem.BLOCK_SIZE.
  rewrite Hrun. replace (p + (n - 0)) with (p + n) by lia. rewrite Eint.
  exists b'. split; [reflexivity|].
  split.
  - intros a Ha. rewrite Hread by lia. rewrite Hba2.
    replace (FileSystem.data_blocks c') with d' by (rewrite Ec; reflexivity).
    rewrite Hwritten by lia. f_equal. lia.
  - intros a Ha. apply Hkeep. lia.
Qed.

Lemma fs_write_then_fs_read_witness :
  exists b',
    FileSystem.fs_read written_store
      (FileSystem.fs_open written_store "load"%string 1 true) (fun _ => 0) 1000
    = Some (Some (FileSystem.mk_handle 1 1000 1 true), b', 1000)
    /\ forall a, 0 <= a < 1000 -> b' a = sample_bytes a.
Proof.
  destruct (fs_write_then_fs_read formatted_store written_store
              (FileSystem.mk_handle 1 0 2 true)
              (Some (FileSystem.mk_handle 1 1000 2 true)) sample_bytes 1000 1000)
    as (_ & _ & _ & Hread).
  - assert (E : FileSystem.block_count (FileSystem.inode_table formatted_store 1) = 0)
      by (vm_compute; reflexivity).
    split; [simpl FileSystem.inode; rewrite E; lia|].
    intros i Hi. simpl FileSystem.inode in Hi. rewrite E in Hi. lia.
  - vm_compute. intro H. discriminate H.
  - vm_compute. intro H. discriminate H.
  - split; vm_compute; [intro H; discriminate H | reflexivity].
  - vm_compute. intro H. discriminate H.
  - lia.
  - vm_compute. intro H. discriminate H.
  - unfold written_store.
    change (FileSystem.fs_open formatted_store "save"%string 2 true)
      with (Some (FileSystem.mk_handle 1 0 2 true)).
    assert (Hp : match FileSystem.fs_write formatted_store
                         (Some (FileSystem.mk_handle 1 0 2 true)) sample_bytes 1000 with
                 | Some (_, x, y) =>
                     x = Some (FileSystem.mk_handle 1 1000 2 true) /\ y = 1000
                 | None => False
                 end)
      by (vm_compute; split; reflexivity).
    destruct (FileSystem.fs_write formatted_store
                (Some (FileSystem.mk_handle 1 0 2 true)) sample_bytes 1000)
      as [[[c x] y]|]; [|contradiction].
    destruct Hp as (-> & ->). reflexivity.
  - discriminate.
  - destruct (Hread 1 (fun _ => 0)) as (b' & Hrun & Hdata & _).
    exists b'. split; [exact Hrun | exact Hdata].
Defined.

(** * Properties of the game layer *)

Lemma in_registry i :
  0 <= i < GameSystem.MAX_GAMES -> FileSystem.in_array GameSystem.MAX_GAMES i = true.
Proof.
  intros H. unfold FileSystem.in_array.
  destruct (Z.leb_spec 0 i); [|lia].
  destruct (Z.ltb_spec i GameSystem.MAX_GAMES); [reflexivity | lia].
Qed.

Lemma find_loop_found registry nm t n : forall i,
  0 <= i -> i <= t < i + Z.of_nat n -> t < GameSystem.MAX_GAMES ->
  GameSystem.name (registry t) = nm ->
  (forall j, i <= j < t -> GameSystem.name (registry j) <> nm) ->
  GameSystem.find_loop registry n i nm = Some (Some t).
Proof.
  induction n as [|n IH]; intros i Hi Ht Hmax Hname Hbefore.
  - simpl in Ht. lia.
  - simpl. rewrite in_registry by lia.
    destruct (Z.eq_dec i t) as [-> | Hne].
    + rewrite Hname, String.eqb_refl. reflexivity.
    + assert (Hn : String.eqb (GameSystem.name (registry i)) nm = false).
      { apply String.eqb_neq. apply Hbefore. lia. }
      rewrite Hn. apply IH; try assumption; try lia.
      intros j Hj. apply Hbefore. lia.
Qed.

Lemma find_loop_absent registry nm n : forall i,
  0 <= i -> i + Z.of_nat n <= GameSystem.MAX_GAMES ->
  (forall j, i <= j < i + Z.of_nat n -> GameSystem.name (registry j) <> nm) ->
  GameSystem.find_loop registry n i nm = Some None.
Proof.
  induction n as [|n IH]; intros i Hi Hmax Hall.
  - reflexivity.
  - simpl. rewrite in_registry by lia.
    assert (Hn : String.eqb (GameSystem.name (registry i)) nm = false).
    { apply String.eqb_neq. apply Hall. lia. }
    rewrite Hn. apply IH; try lia.
    intros j Hj. apply Hall. lia.
Qed.

Lemma find_loop_overrun registry nm n : forall i,
  0 <= i <= GameSystem.MAX_GAMES -> GameSystem.MAX_GAMES < i + Z.of_nat n ->
  (forall j, i <= j < GameSystem.MAX_GAMES -> GameSystem.name (registry j) <> nm) ->
  GameSystem.find_loop registry n i nm = None.
Proof.
  induction n as [|n IH]; intros i Hi Hmax Hall.
  - simpl in Hmax. lia.
  - simpl. destruct (Z.eq_dec i GameSystem.MAX_GAMES) as [-> | Hne].
    + reflexivity.
    + rewrite in_registry by lia.
      assert (Hn : String.eqb (GameSystem.name (registry i)) nm = false).
      { apply String.eqb_neq. apply Hall. lia. }
      rewrite Hn. apply IH; try lia.
      intros j Hj. apply Hall. lia.
Qed.

(** X20. [game_find_by_name] returns the first entry among the first
    [game_count] whose name is the one asked for, so an entry is hidden by
    an earlier entry of the same name; it returns the null pointer when no
    name matches and [game_count] is within the registry; when
    [game_count] exceeds [MAX_GAMES] and no name matches, the search reads
    past the end of the registry. *)
Theorem game_find_by_name_first_match
    (registry : Z -> GameSystem.game_registry_entry_t) (game_count : Z)
    (nm : String.string) :
  (forall t, 0 <= t < game_count -> t < GameSystem.MAX_GAMES ->
     GameSystem.name (registry t) = nm ->
     (forall j, 0 <= j < t -> GameSystem.name (registry j) <> nm) ->
     GameSystem.game_find_by_name registry game_count nm = Some (Some t))
  /\ (game_count <= GameSystem.MAX_GAMES ->
      (forall j, 0 <= j < game_count -> GameSystem.name (registry j) <> nm) ->
      GameSystem.game_find_by_name registry game_count nm = Some None)
  /\ (GameSystem.MAX_GAMES < game_count ->
      (forall j, 0 <= j < GameSystem.MAX_GAMES ->
                 GameSystem.name (registry j) <> nm) ->
      GameSystem.game_find_by_name registry game_count nm = None).
Proof.
  unfold GameSystem.game_find_by_name. split; [|split].
  - intros t Ht Hmax Hname Hbefore.
    apply find_loop_found; try assumption; try lia.
  - intros Hmax Hall.
    destruct (Z.le_gt_cases game_count 0) as [Hle | Hgt].
    + replace (Z.to_nat game_count) with O by lia. reflexivity.
    + apply find_loop_absent; try lia.
      intros j Hj. apply Hall. lia.
  - intros Hmax Hall. apply find_loop_overrun.
    + unfold GameSystem.MAX_GAMES. lia.
    + unfold GameSystem.MAX_GAMES in *. lia.
    + exact Hall.
Qed.

(** The installed entries among [i .. i+n-1], in order. *)
Lemma list_loop_spec registry max_games : forall n i games count,
  0 <= i -> i + Z.of_nat n <= GameSystem.MAX_GAMES ->
  exists games',
    GameSystem.list_loop registry n i max_games games count
    = Some (games',
            Z.max count
              (Z.min max_games
                 (count + Z.of_nat
                            (length (filter GameSystem.is_installed
                                       (registry_entries registry n i))))))
    /\ (forall k d, count <= k
          < Z.min max_games
              (count + Z.of_nat
                         (length (filter GameSystem.is_installed
                                    (registry_entries registry n i)))) ->
          games' k
          = nth (Z.to_nat (k - count))
              (filter GameSystem.is_installed (registry_entries registry n i)) d)
    /\ (forall k, ~ count <= k
          < Z.min max_games
              (count + Z.of_nat
                         (length (filter GameSystem.is_installed
                                    (registry_entries registry n i)))) ->
          games' k = games k).
Proof.
  induction n as [|n IH]; intros i games count Hi Hmax.
  - exists games. simpl. split; [f_equal; f_equal; lia|].
    split; [intros k d Hk; lia | intros k _; reflexivity].
  - change (GameSystem.list_loop registry (S n) i max_games games count)
      with (if count <? max_games then
              if FileSystem.in_array GameSystem.MAX_GAMES i then
                if GameSystem.is_installed (registry i) then
                  GameSystem.list_loop registry n (i + 1) max_games
                    (FileSystem.store_at games count (registry i)) (count + 1)
                else GameSystem.list_loop registry n (i + 1) max_games games count
              else None
            else Some (games, count)).
    change (registry_entries registry (S n) i)
      with (registry i :: registry_entries registry n (i + 1)).
    destruct (Z.ltb_spec count max_games) as [Hlt | Hge].
    + rewrite in_registry by lia.
      cbn [filter].
      destruct (GameSystem.is_installed (registry i)) eqn:Hinst.
      * destruct (IH (i + 1) (FileSystem.store_at games count (registry i))
                    (count + 1)) as (games' & Hrun & Hin & Hout); try lia.
        set (rest := filter GameSystem.is_installed
                       (registry_entries registry n (i + 1))) in *.
        exists games'. rewrite Hrun. cbn [length].
        split; [f_equal; f_equal; lia|].
        split.
        -- intros k d Hk.
           destruct (Z.eq_dec k count) as [-> | Hne].
           ++ rewrite Hout by lia. unfold FileSystem.store_at.
              rewrite Z.eqb_refl. replace (count - count) with 0 by lia.
              reflexivity.
           ++ rewrite (Hin k d) by lia.
              replace (Z.to_nat (k - count)) with (S (Z.to_nat (k - (count + 1))))
                by lia.
              reflexivity.
        -- intros k Hk. rewrite Hout by lia. unfold FileSystem.store_at.
           destruct (Z.eqb_spec k count) as [-> | _]; [lia | reflexivity].
      * destruct (IH (i + 1) games count) as (games' & Hrun & Hin & Hout); try lia.
        exists games'. rewrite Hrun.
        split; [reflexivity|]. split; assumption.
    + exists games.
      split; [f_equal; f_equal; lia|].
      split; [intros k d Hk; lia | intros k _; reflexivity].
Qed.

(** X21. [game_list_installed] with [game_count] within the registry
    copies the installed entries among the first [game_count], in their
    order, to the front of the caller's array, at most [max_games] of
    them, returns how many it copied and leaves the rest of the array
    alone; with [max_games] at or below 0 it copies nothing and returns
    0. *)
Theorem game_list_installed_spec
    (registry : Z -> GameSystem.game_registry_entry_t) (game_count : Z)
    (games : Z -> GameSystem.game_registry_entry_t) (max_games : Z) :
  0 <= game_count <= GameSystem.MAX_GAMES ->
  exists games',
    GameSystem.game_list_installed registry game_count games max_games
    = Some (games',
            Z.max 0
              (Z.min max_games
                 (Z.of_nat
                    (length (filter GameSystem.is_installed
                               (registry_entries registry
                                  (Z.to_nat game_count) 0))))))
    /\ (forall k d,
          0 <= k < max_games ->
          (Z.to_nat k < length (filter GameSystem.is_installed
                                  (registry_entries registry
                                     (Z.to_nat game_count) 0)))%nat ->
          games' k
          = nth (Z.to_nat k)
              (filter GameSystem.is_installed
                 (registry_entries registry (Z.to_nat game_count) 0)) d)
    /\ (forall k,
          k < 0 \/ max_games <= k
          \/ Z.of_nat (length (filter GameSystem.is_installed
                                 (registry_entries registry
                                    (Z.to_nat game_count) 0))) <= k ->
          games' k = games k).
Proof.
  intros Hc. unfold GameSystem.game_list_installed.
  destruct (list_loop_spec registry max_games (Z.to_nat game_count) 0 games 0)
    as (games' & Hrun & Hin & Hout); try lia.
  exists games'. rewrite Hrun. split; [reflexivity|].
  split.
  - intros k d Hk Hlen. rewrite (Hin k d) by lia.
    replace (k - 0) with k by lia. reflexivity.
  - intros k Hk. apply Hout. lia.
Qed.

Lemma game_list_installed_spec_witness :
  exists games',
    GameSystem.game_list_installed builtin_registry 3
      (fun _ => builtin_registry 5) 2
    = Some (games', 2)
    /\ games' 0 = builtin_registry 0
    /\ games' 1 = builtin_registry 1.
Proof.
  destruct (game_list_installed_spec builtin_registry 3
              (fun _ => builtin_registry 5) 2)
    as (games' & Hrun & Hin & _).
  - unfold GameSystem.MAX_GAMES. lia.
  - exists games'. split; [exact Hrun|].
    split; [apply (Hin 0 (builtin_registry 5)) | apply (Hin 1 (builtin_registry 5))];
      try lia; simpl; lia.
Defined.

(** ** The checksum *)

Lemma lor_even_bit m b : 0 <= b <= 1 -> Z.lor (2 * m) b = 2 * m + b.
Proof.
  intros Hb. assert (E : b = 0 \/ b = 1) by lia. destruct E as [-> | ->].
  - rewrite Z.lor_0_r. lia.
  - apply Z.bits_inj'. intros n Hn. rewrite Z.lor_spec.
    destruct (Z.eq_dec n 0) as [-> | Hne].
    + rewrite Z.testbit_even_0, Z.testbit_odd_0. reflexivity.
    + assert (T1 : Z.testbit 1 n = false)
        by (apply Z.bits_above_log2; [lia | simpl; lia]).
      rewrite T1, orb_false_r.
      replace n with (Z.succ (n - 1)) by lia.
      rewrite Z.testbit_even_succ, Z.testbit_odd_succ by lia. reflexivity.
Qed.

(** The rotation, in arithmetic. *)
Lemma rotate_left_eq x :
  0 <= x < 2 ^ 32 ->
  GameSystem.rotate_left x = 2 * x - (2 ^ 32 - 1) * (x / 2 ^ 31)
  /\ 0 <= x / 2 ^ 31 <= 1.
Proof.
  intros Hx. unfold GameSystem.rotate_left.
  assert (Hhi : 0 <= x / 2 ^ 31 <= 1).
  { split.
    - apply Z.div_pos; lia.
    - apply Z.lt_succ_r. apply Z.div_lt_upper_bound; lia. }
  split; [|exact Hhi].
  rewrite Z.shiftl_mul_pow2, Z.shiftr_div_pow2 by lia.
  change (2 ^ 1) with 2.
  pose proof (Z.div_mod x (2 ^ 31) ltac:(lia)) as E.
  pose proof (Z.mod_pos_bound x (2 ^ 31) ltac:(lia)) as Hm.
  assert (Ew : wrap (x * 2) = 2 * (x mod 2 ^ 31)).
  { unfold wrap.
    symmetry. apply (Z.mod_unique (x * 2) (2 ^ 32) (x / 2 ^ 31)).
    - left. change (2 ^ 32) with (2 * 2 ^ 31). lia.
    - change (2 ^ 32) with (2 * 2 ^ 31). lia. }
  rewrite Ew. rewrite lor_even_bit by exact Hhi.
  change (2 ^ 32) with (2 * 2 ^ 31). lia.
Qed.

Lemma rotate_left_range x :
  0 <= x < 2 ^ 32 -> 0 <= GameSystem.rotate_left x < 2 ^ 32.
Proof.
  intros Hx. destruct (rotate_left_eq x Hx) as (E & Hhi). rewrite E.
  pose proof (Z.div_mod x (2 ^ 31) ltac:(lia)) as Ed.
  pose proof (Z.mod_pos_bound x (2 ^ 31) ltac:(lia)) as Hm.
  change (2 ^ 32) with (2 * 2 ^ 31) in *. lia.
Qed.

(** The rotation keeps the value [2^32 - 1] apart. *)
Lemma rotate_left_ones x :
  0 <= x < 2 ^ 32 -> GameSystem.rotate_left x = 2 ^ 32 - 1 -> x = 2 ^ 32 - 1.
Proof.
  intros Hx H. destruct (rotate_left_eq x Hx) as (E & Hhi). rewrite E in H.
  assert (C : x / 2 ^ 31 = 0 \/ x / 2 ^ 31 = 1) by lia.
  destruct C as [C | C]; rewrite C in H; lia.
Qed.

Lemma rotations_spec k : forall x,
  0 <= x < 2 ^ 32 - 1 ->
  0 <= rotations k x < 2 ^ 32 - 1
  /\ rotations k x mod (2 ^ 32 - 1) = (2 ^ Z.of_nat k * x) mod (2 ^ 32 - 1).
Proof.
  induction k as [|k IH]; intros x Hx.
  - simpl rotations. split; [exact Hx|]. f_equal. change (2 ^ Z.of_nat 0) with 1. lia.
  - change (rotations (S k) x) with (rotations k (GameSystem.rotate_left x)).
    pose proof (rotate_left_range x ltac:(lia)) as Hr.
    assert (Hne : GameSystem.rotate_left x <> 2 ^ 32 - 1).
    { intros E. apply rotate_left_ones in E; lia. }
    destruct (IH (GameSystem.rotate_left x) ltac:(lia)) as (Hrange & Hmod).
    split; [exact Hrange|]. rewrite Hmod.
    destruct (rotate_left_eq x ltac:(lia)) as (E & _). rewrite E.
    replace (2 ^ Z.of_nat (S k)) with (2 ^ Z.of_nat k * 2)
      by (rewrite Nat2Z.inj_succ, Z.pow_succ_r by lia; lia).
    replace (2 ^ Z.of_nat k * (2 * x - (2 ^ 32 - 1) * (x / 2 ^ 31)))
      with (2 ^ Z.of_nat k * 2 * x
            + (- (2 ^ Z.of_nat k * (x / 2 ^ 31))) * (2 ^ 32 - 1)) by lia.
    apply Z.mod_add. lia.
Qed.

(** Thirty-two rotations give the value back. *)
Lemma rotations_32 x : 0 <= x < 2 ^ 32 -> rotations 32 x = x.
Proof.
  intros Hx. destruct (Z.eq_dec x (2 ^ 32 - 1)) as [-> | Hne].
  - vm_compute. reflexivity.
  - destruct (rotations_spec 32 x ltac:(lia)) as (Hr & Hm).
    rewrite Z.mod_small in Hm by exact Hr.
    rewrite Hm.
    replace (2 ^ Z.of_nat 32 * x) with (x + x * (2 ^ 32 - 1))
      by (change (2 ^ Z.of_nat 32) with (2 ^ 32); lia).
    rewrite Z.mod_add by lia. apply Z.mod_small. lia.
Qed.

Lemma checksum_loop_app bytes n m : forall i c,
  GameSystem.checksum_loop bytes (n + m) i c
  = GameSystem.checksum_loop bytes m (i + Z.of_nat n)
      (GameSystem.checksum_loop bytes n i c).
Proof.
  induction n as [|n IH]; intros i c.
  - simpl. f_equal. lia.
  - change (GameSystem.checksum_loop bytes (S n + m) i c)
      with (GameSystem.checksum_loop bytes (n + m) (i + 1)
              (GameSystem.rotate_left (add32 c (bytes i)))).
    rewrite IH.
    replace (i + Z.of_nat (S n)) with (i + 1 + Z.of_nat n) by lia. reflexivity.
Qed.

Lemma checksum_loop_range bytes n : forall i c,
  0 <= c < 2 ^ 32 -> 0 <= GameSystem.checksum_loop bytes n i c < 2 ^ 32.
Proof.
  induction n as [|n IH]; intros i c Hc.
  - exact Hc.
  - simpl. apply IH. apply rotate_left_range. unfold add32. apply wrap_range.
Qed.

Lemma checksum_loop_zeros bytes n : forall i c,
  0 <= c < 2 ^ 32 ->
  (forall j, i <= j < i + Z.of_nat n -> bytes j = 0) ->
  GameSystem.checksum_loop bytes n i c = rotations n c.
Proof.
  induction n as [|n IH]; intros i c Hc Hz.
  - reflexivity.
  - change (GameSystem.checksum_loop bytes (S n) i c)
      with (GameSystem.checksum_loop bytes n (i + 1)
              (GameSystem.rotate_left (add32 c (bytes i)))).
    rewrite (Hz i) by lia. rewrite add32_small by lia.
    replace (c + 0) with c by lia.
    rewrite IH.
    + reflexivity.
    + apply rotate_left_range. exact Hc.
    + intros j Hj. apply Hz. lia.
Qed.

Lemma rotations_zero k : rotations k 0 = 0.
Proof. induction k as [|k IH]; [reflexivity | exact IH]. Qed.

(** The loop from a zero checksum skips zero bytes. *)
Lemma checksum_loop_shift bytes n : forall i k c,
  GameSystem.checksum_loop (fun j => bytes (j + k)) n i c
  = GameSystem.checksum_loop bytes n (i + k) c.
Proof.
  induction n as [|n IH]; intros i k c.
  - reflexivity.
  - simpl. rewrite IH. f_equal. lia.
Qed.

(** X22. Zero padding is invisible to [calculate_checksum]: the result is
    a 32-bit value; 32 zero bytes after the data leave it unchanged;
    zero bytes before the data leave it unchanged, whatever their
    number; so data of zero bytes only has checksum 0. *)
Theorem calculate_checksum_zero_padding (data : Z -> Z) (size : Z) :
  0 <= size ->
  0 <= GameSystem.calculate_checksum data size < 2 ^ 32
  /\ ((forall j, size <= j < size + 32 -> data j = 0) ->
      GameSystem.calculate_checksum data (size + 32)
      = GameSystem.calculate_checksum data size)
  /\ (forall k, 0 <= k ->
      (forall j, 0 <= j < k -> data j = 0) ->
      GameSystem.calculate_checksum data (k + size)
      = GameSystem.calculate_checksum (fun j => data (j + k)) size)
  /\ ((forall j, 0 <= j < size -> data j = 0) ->
      GameSystem.calculate_checksum data size = 0).
Proof.
  intros Hs. unfold GameSystem.calculate_checksum.
  split; [apply checksum_loop_range; lia|].
  split; [|split].
  - intros Hz.
    replace (Z.to_nat (size + 32)) with (Z.to_nat size + 32)%nat by lia.
    rewrite checksum_loop_app.
    rewrite checksum_loop_zeros.
    + apply rotations_32. apply checksum_loop_range. lia.
    + apply checksum_loop_range. lia.
    + intros j Hj. apply Hz. lia.
  - intros k Hk Hz.
    replace (Z.to_nat (k + size)) with (Z.to_nat k + Z.to_nat size)%nat by lia.
    rewrite checksum_loop_app.
    rewrite (checksum_loop_zeros data (Z.to_nat k)).
    + rewrite rotations_zero. rewrite checksum_loop_shift.
      f_equal. lia.
    + lia.
    + intros j Hj. apply Hz. lia.
  - intros Hz. rewrite checksum_loop_zeros.
    + apply rotations_zero.
    + lia.
    + intros j Hj. apply Hz. lia.
Qed.

Lemma calculate_checksum_zero_padding_witness :
  GameSystem.calculate_checksum (fun i => if i <? 5 then i + 1 else 0) (5 + 32)
  = GameSystem.calculate_checksum (fun i => if i <? 5 then i + 1 else 0) 5.
Proof.
  destruct (calculate_checksum_zero_padding (fun i => if i <? 5 then i + 1 else 0) 5)
    as (_ & Htail & _).
  - lia.
  - apply Htail. intros j Hj.
    destruct (Z.ltb_spec j 5); [lia | reflexivity].
Defined.

(** ** Inodes given back *)

(** Clearing a set bit of a byte and setting it again gives the byte
    back. *)
Lemma bit_set_clear_byte bm i :
  0 <= bm (i / 8) < 256 ->
  FileSystem.bit_test bm i = true ->
  forall j, FileSystem.bit_set (FileSystem.bit_clear bm i) i j = bm j.
Proof.
  intros Hb Ht j. rewrite bit_test_spec in Ht.
  unfold FileSystem.bit_clear, FileSystem.bit_set, FileSystem.store_at,
    FileSystem.bit_mask.
  rewrite Z.eqb_refl.
  destruct (Z.eqb_spec j (i / 8)) as [-> | Hne]; [|reflexivity].
  pose proof (mod8_range i) as Hi.
  rewrite Z.shiftl_1_l. change 256 with (2 ^ 8).
  apply Z.bits_inj'. intros n Hn.
  destruct (Z.lt_ge_cases n 8) as [Hlt | Hge].
  - rewrite Z.mod_pow2_bits_low by lia.
    rewrite Z.lor_spec.
    rewrite Z.mod_pow2_bits_low by lia.
    rewrite Z.land_spec, Z.lnot_spec, Z.pow2_bits_eqb by lia.
    destruct (Z.eqb_spec (i mod 8) n) as [En | En].
    + subst n. rewrite Ht. reflexivity.
    + rewrite andb_true_r. apply orb_false_r.
  - rewrite Z.mod_pow2_bits_high by lia.
    symmetry. apply Z.bits_above_log2; [lia|].
    destruct (Z.eq_dec (bm (i / 8)) 0) as [E0 | E0].
    + rewrite E0. simpl. lia.
    + apply Z.log2_lt_pow2; [lia|].
      apply Z.lt_le_trans with (2 ^ 8); [lia|].
      apply Z.pow_le_mono_r; lia.
Qed.

(** X23. An inode in use given back to [free_inode], no lower inode being
    free, is the inode the next [allocate_inode] returns, and the two
    calls leave the inode bitmap and the superblock as they were.  This
    holds for inode 0, the root directory, which [free_inode] releases
    like any other and [allocate_inode] then returns as 0. *)
Theorem free_inode_allocate_inode_round_trip (c : FileSystem.fs_context_t)
    (ino : Z) :
  (forall j, 0 <= FileSystem.inode_bitmap c j < 256) ->
  0 <= FileSystem.free_inodes (FileSystem.sb c) < 2 ^ 32 - 1 ->
  FileSystem.total_inodes (FileSystem.sb c) <= FileSystem.MAX_FILES ->
  0 <= ino < FileSystem.total_inodes (FileSystem.sb c) ->
  FileSystem.bit_test (FileSystem.inode_bitmap c) ino = true ->
  (forall j, 0 <= j < ino -> FileSystem.bit_test (FileSystem.inode_bitmap c) j = true) ->
  exists c1 c2,
    FileSystem.free_inode c ino = Some c1
    /\ FileSystem.bit_test (FileSystem.inode_bitmap c1) ino = false
    /\ FileSystem.free_inodes (FileSystem.sb c1)
       = FileSystem.free_inodes (FileSystem.sb c) + 1
    /\ FileSystem.allocate_inode c1 = Some (c2, ino)
    /\ (forall j, FileSystem.inode_bitmap c2 j = FileSystem.inode_bitmap c j)
    /\ FileSystem.sb c2 = FileSystem.sb c
    /\ FileSystem.inode_table c2 = FileSystem.inode_table c
    /\ FileSystem.block_bitmap c2 = FileSystem.block_bitmap c.
Proof.
  intros Hbytes Hfree Htot Hino Hset Hbefore.
  assert (Hin : FileSystem.in_array FileSystem.inode_bitmap_size (ino / 8) = true).
  { apply (in_array_bits FileSystem.inode_bitmap_size 0 ino); try lia.
    unfold FileSystem.inode_bitmap_size, FileSystem.BLOCK_SIZE.
    unfold FileSystem.MAX_FILES in Htot. lia. }
  set (c1 := FileSystem.with_sb
               (FileSystem.with_inode_bitmap c
                  (FileSystem.bit_clear (FileSystem.inode_bitmap c) ino))
               (FileSystem.set_free_inodes (FileSystem.sb c)
                  (add32 (FileSystem.free_inodes (FileSystem.sb c)) 1))).
  assert (Hrun1 : FileSystem.free_inode c ino = Some c1).
  { unfold FileSystem.free_inode.
    destruct (Z.leb_spec (FileSystem.total_inodes (FileSystem.sb c)) ino); [lia|].
    rewrite Hin, Hset. reflexivity. }
  assert (Hf1 : FileSystem.free_inodes (FileSystem.sb c1)
                = FileSystem.free_inodes (FileSystem.sb c) + 1).
  { unfold c1. simpl. apply add32_small. lia. }
  exists c1. eexists.
  split; [exact Hrun1|].
  split; [unfold c1; simpl; rewrite bit_test_clear, Z.eqb_refl; reflexivity|].
  split; [exact Hf1|].
  split.
  { apply allocate_inode_found.
    - rewrite Hf1. lia.
    - exact Hino.
    - unfold FileSystem.inode_bitmap_size, FileSystem.BLOCK_SIZE.
      change (FileSystem.total_inodes (FileSystem.sb c1))
        with (FileSystem.total_inodes (FileSystem.sb c)).
      unfold FileSystem.MAX_FILES in Htot. lia.
    - unfold c1. simpl. rewrite bit_test_clear, Z.eqb_refl. reflexivity.
    - intros j Hj. unfold c1. simpl. rewrite bit_test_clear.
      destruct (Z.eqb_spec j ino); [lia | apply Hbefore; exact Hj]. }
  split.
  { intros j. simpl. apply bit_set_clear_byte; [apply Hbytes | exact Hset]. }
  split.
  { simpl. unfold FileSystem.set_free_inodes. simpl.
    assert (E : sub32 (add32 (FileSystem.free_inodes (FileSystem.sb c)) 1) 1
                = FileSystem.free_inodes (FileSystem.sb c)).
    { rewrite add32_small by lia. rewrite sub32_small by lia. lia. }
    rewrite E. destruct (FileSystem.sb c). reflexivity. }
  split; reflexivity.
Qed.

Lemma free_inode_allocate_inode_round_trip_witness :
  exists c1 c2,
    FileSystem.free_inode formatted_store 0 = Some c1
    /\ FileSystem.allocate_inode c1 = Some (c2, 0)
    /\ FileSystem.sb c2 = FileSystem.sb formatted_store.
Proof.
  destruct (free_inode_allocate_inode_round_trip formatted_store 0)
    as (c1 & c2 & H1 & _ & _ & H2 & _ & H3 & _).
  - intros j.
    assert (E : FileSystem.inode_bitmap formatted_store
                = fun j => if j =? 0 then 1
                           else if FileSystem.in_array 512 j then 0 else 0)
      by (vm_compute; reflexivity).
    rewrite E. destruct (j =? 0); [lia|].
    destruct (FileSystem.in_array 512 j); lia.
  - vm_compute. split; [intro H; discriminate H | reflexivity].
  - vm_compute. intro H. discriminate H.
  - split; vm_compute; [intro H; discriminate H | reflexivity].
  - vm_compute. reflexivity.
  - intros j Hj. lia.
  - exists c1, c2. split; [exact H1|]. split; [exact H2 | exact H3].
Defined.
